(** * CollabDocs: the OT engine and the operation handler

    A shallow embedding of
      - services/otService.js     ([transformOperation], [applyOperation],
                                   [processOperation], [clearBuffer]),
      - models/Document.js        ([pushVersionSnapshot]),
      - services/permissionService.js ([getUserRole], [canEdit],
                                   [getDocumentWithAccess]),
      - sockets/documentHandler.js (the [join_document] and [operation]
                                   handlers, [handleUserLeave]),
      - routes/documents.js       (the restore and the share route),
    followed by the properties of the specification that concern them.

    Conventions of the embedding.
      - A JavaScript number is an integer or "not a number": [num] is
        [option Z], and [None] stands for [NaN] and for a numeric field that
        is [undefined] (the code treats both alike: falsy, [NaN] in
        arithmetic, [false] in every comparison, index 0 in [slice]).
        Fractions, infinities, [null] and fields of another type are outside
        the model.
      - A string is a sequence of code units; [String.length] is [.length].
      - An operation is the object [{type, position, text?, length?,
        baseVersion}]; a missing [type] is the empty string (falsy and equal
        to no keyword).
      - Unless said otherwise a handler is one step, which is how it runs
        when no other handler gets its turn at one of its [await]s. The
        source has no lock or queue that makes this so: [processOperation]
        is therefore given a second time in the segments between its
        [await]s, for calls that overlap, and [step] and [reachable] speak
        of runs in which the handlers do not overlap. The store and Redis
        answer every call ([document.save()] succeeds; the Redis helpers
        swallow their errors in the source as well).
      - A document id is a string; the store is looked up by it. For a
        string that Mongoose cannot cast to an ObjectId [findById] throws
        where the model returns [null]; no document is stored under such a
        string, and what is stated for an id without a document leaves the
        wording of the error open.
      - An event carries its payload; [operation_event] is the [operation]
        handler on an event that may lack it.
      - The [cursor_move] handler is not part of the embedding. *)

From Stdlib Require Import ZArith String Lia.
From stdpp Require Import base option list strings gmap fin_maps.

Local Open Scope Z_scope.

(** ** JavaScript numbers *)

Definition num := option Z.

Definition lift2 (f : Z → Z → Z) (x y : num) : num :=
  match x, y with
  | Some a, Some b => Some (f a b)
  | _, _ => None
  end.

Definition nadd : num → num → num := lift2 Z.add.
Definition nsub : num → num → num := lift2 Z.sub.
(** [Math.min] and [Math.max]: [NaN] as soon as one argument is. *)
Definition nmin : num → num → num := lift2 Z.min.
Definition nmax : num → num → num := lift2 Z.max.

Definition cmp2 (f : Z → Z → bool) (x y : num) : bool :=
  match x, y with
  | Some a, Some b => f a b
  | _, _ => false
  end.

(** [x <= y], [x < y], [x >= y], [x > y] *)
Definition nleb : num → num → bool := cmp2 Z.leb.
Definition nltb : num → num → bool := cmp2 Z.ltb.
Definition ngeb : num → num → bool := cmp2 Z.geb.
Definition ngtb : num → num → bool := cmp2 Z.gtb.

(** [!x] on a number: [undefined], [NaN] and [0] are falsy. *)
Definition falsy_num (x : num) : bool :=
  match x with
  | None => true
  | Some z => z =? 0
  end.

(** [!s] on a string field: [undefined] and [''] are falsy. *)
Definition falsy_str (s : option string) : bool :=
  match s with
  | None => true
  | Some t => bool_decide (t = "")
  end.

(** ** JavaScript strings *)

Definition strlen (s : string) : Z := Z.of_nat (String.length s).

(** ToIntegerOrInfinity on an integer or [NaN]. *)
Definition toInteger (x : num) : Z := default 0 x.

(** A relative index of [slice]: negative counts from the end. *)
Definition relIndex (len k : Z) : Z :=
  if k <? 0 then Z.max (len + k) 0 else Z.min k len.

(** [s.slice(start, end)] *)
Definition slice (s : string) (start stop : num) : string :=
  let len := strlen s in
  let from := relIndex len (toInteger start) in
  let to := relIndex len (toInteger stop) in
  String.substring (Z.to_nat from) (Z.to_nat (Z.max (to - from) 0)) s.

(** [s.slice(start)] *)
Definition sliceFrom (s : string) (start : num) : string :=
  let len := strlen s in
  let from := relIndex len (toInteger start) in
  String.substring (Z.to_nat from) (Z.to_nat (Z.max (len - from) 0)) s.

(** ** Exceptions and the state monad of the server *)

Inductive exn :=
| TypeError
| Error (message : string).

Inductive result (A : Type) :=
| Ok (a : A)
| Throw (e : exn).
Arguments Ok {A} a.
Arguments Throw {A} e.

#[global] Instance result_ret : MRet result := λ A a, Ok a.
#[global] Instance result_bind : MBind result := λ A B f r,
  match r with
  | Ok a => f a
  | Throw e => Throw e
  end.

(** A computation over a mutable state [S] that returns or throws; the state
    reached at a [throw] is kept, as a [catch] sees it. *)
Definition M (S A : Type) : Type := S → result A * S.

#[global] Instance M_ret {S} : MRet (M S) := λ A a s, (Ok a, s).
#[global] Instance M_bind {S} : MBind (M S) := λ A B f c s,
  match c s with
  | (Ok a, s') => f a s'
  | (Throw e, s') => (Throw e, s')
  end.

Definition throw {S A} (e : exn) : M S A := λ s, (Throw e, s).
Definition get {S} : M S S := λ s, (Ok s, s).
Definition gets {S A} (f : S → A) : M S A := λ s, (Ok (f s), s).
Definition modify {S} (f : S → S) : M S unit := λ s, (Ok tt, f s).
Definition liftR {S A} (r : result A) : M S A := λ s, (r, s).

(** [try { c } catch (error) { h }] *)
Definition tryCatch {S A} (c : M S A) (h : exn → M S A) : M S A := λ s,
  match c s with
  | (Ok a, s') => (Ok a, s')
  | (Throw e, s') => h e s'
  end.

(** ** Operations *)

Record Operation := mkOp {
  op_type : string;
  op_position : num;
  op_text : option string;
  op_length : num;
  op_baseVersion : num;
}.

#[global] Instance Operation_eq_dec : EqDecision Operation.
Proof. solve_decision. Defined.

Definition set_type (o : Operation) (t : string) : Operation :=
  mkOp t (op_position o) (op_text o) (op_length o) (op_baseVersion o).
Definition set_position (o : Operation) (p : num) : Operation :=
  mkOp (op_type o) p (op_text o) (op_length o) (op_baseVersion o).
Definition set_length (o : Operation) (l : num) : Operation :=
  mkOp (op_type o) (op_position o) (op_text o) l (op_baseVersion o).

(** The client's two shapes. *)
Definition insertOp (position : Z) (text : string) (baseVersion : Z) : Operation :=
  mkOp "insert" (Some position) (Some text) None (Some baseVersion).
Definition deleteOp (position length baseVersion : Z) : Operation :=
  mkOp "delete" (Some position) None (Some length) (Some baseVersion).

(** [op.text.length]: a property read on [undefined] throws. *)
Definition text_length (o : Operation) : result num :=
  match op_text o with
  | Some s => Ok (Some (strlen s))
  | None => Throw TypeError
  end.

(** ** otService.js *)

Definition MAX_BUFFER_SIZE : nat := 200.

(** [transformOperation(opA, opB)]: the four [if] blocks in their order, each
    updating the copy [transformed] of [opA]. *)
Definition transformOperation (opA opB : Operation) : result Operation :=
  let transformed := opA in
  (* Both inserting *)
  transformed ←
    (if decide (op_type opA = "insert" ∧ op_type opB = "insert") then
       if nleb (op_position opB) (op_position opA) then
         len ← text_length opB;
         Ok (set_position transformed (nadd (op_position transformed) len))
       else Ok transformed
     else Ok transformed);
  (* A inserting, B deleting *)
  let transformed :=
    if decide (op_type opA = "insert" ∧ op_type opB = "delete") then
      if nltb (op_position opB) (op_position opA) then
        set_position transformed
          (nsub (op_position transformed)
             (nmin (op_length opB) (nsub (op_position opA) (op_position opB))))
      else transformed
    else transformed in
  (* A deleting, B inserting *)
  transformed ←
    (if decide (op_type opA = "delete" ∧ op_type opB = "insert") then
       if nleb (op_position opB) (op_position opA) then
         len ← text_length opB;
         Ok (set_position transformed (nadd (op_position transformed) len))
       else Ok transformed
     else Ok transformed);
  (* Both deleting *)
  let transformed :=
    if decide (op_type opA = "delete" ∧ op_type opB = "delete") then
      if ngeb (op_position opB) (nadd (op_position opA) (op_length opA)) then
        transformed
      else if nleb (nadd (op_position opB) (op_length opB)) (op_position opA) then
        set_position transformed (nsub (op_position transformed) (op_length opB))
      else
        let overlapStart := nmax (op_position opA) (op_position opB) in
        let overlapEnd :=
          nmin (nadd (op_position opA) (op_length opA))
               (nadd (op_position opB) (op_length opB)) in
        let overlapLength := nmax (Some 0) (nsub overlapEnd overlapStart) in
        let transformed :=
          set_length transformed (nsub (op_length transformed) overlapLength) in
        let transformed :=
          set_position transformed (nmin (op_position opA) (op_position opB)) in
        if nleb (op_length transformed) (Some 0) then
          set_type (set_length transformed (Some 0)) "noop"
        else transformed
    else transformed in
  Ok transformed.

(** [operation.text] inside a string concatenation. *)
Definition text_string (o : Operation) : string :=
  default "undefined" (op_text o).

(** [applyOperation(content, operation)] *)
Definition applyOperation (content : string) (operation : Operation) : string :=
  if decide (op_type operation = "noop") then content
  else if decide (op_type operation = "insert") then
    let pos := nmin (nmax (Some 0) (op_position operation)) (Some (strlen content)) in
    slice content (Some 0) pos +:+ text_string operation +:+ sliceFrom content pos
  else if decide (op_type operation = "delete") then
    let pos := nmin (nmax (Some 0) (op_position operation)) (Some (strlen content)) in
    let stop := nmin (nadd pos (op_length operation)) (Some (strlen content)) in
    slice content (Some 0) pos +:+ sliceFrom content stop
  else content.

(** ** models/Document.js *)

Definition MAX_HISTORY_SIZE : nat := 50.

Record VersionEntry := mkVersionEntry {
  ve_version : Z;
  ve_contentSnapshot : string;
  ve_editedBy : string;
  ve_timestamp : Z;
}.

Record ShareEntry := mkShare {
  share_userId : string;
  share_role : string;
}.

Record Document := mkDocument {
  doc_title : string;
  doc_content : string;
  doc_owner : string;
  doc_sharedWith : list ShareEntry;
  doc_version : Z;
  doc_versionHistory : list VersionEntry;
}.

Definition set_content (d : Document) (c : string) : Document :=
  mkDocument (doc_title d) c (doc_owner d) (doc_sharedWith d) (doc_version d)
    (doc_versionHistory d).
Definition set_version (d : Document) (v : Z) : Document :=
  mkDocument (doc_title d) (doc_content d) (doc_owner d) (doc_sharedWith d) v
    (doc_versionHistory d).
Definition set_versionHistory (d : Document) (h : list VersionEntry) : Document :=
  mkDocument (doc_title d) (doc_content d) (doc_owner d) (doc_sharedWith d)
    (doc_version d) h.

(** [array.slice(-n)]: the last [n] elements. *)
Definition lastN {A} (n : nat) (l : list A) : list A :=
  drop (length l - n)%nat l.

(** [document.pushVersionSnapshot(editedBy)]; [now] is [new Date()]. *)
Definition pushVersionSnapshot (this : Document) (editedBy : string) (now : Z)
  : Document :=
  let this :=
    set_versionHistory this
      (doc_versionHistory this ++
       [mkVersionEntry (doc_version this) (doc_content this) editedBy now]) in
  if (MAX_HISTORY_SIZE <? length (doc_versionHistory this))%nat then
    set_versionHistory this (lastN MAX_HISTORY_SIZE (doc_versionHistory this))
  else this.

(** ** The state of one server instance *)

Record BufferEntry := mkEntry {
  entry_version : Z;
  entry_operation : Operation;
}.

Record UserData := mkUserData {
  ud_userId : string;
  ud_username : string;
  ud_role : string;
  ud_joinedAt : Z;
}.

(** A JavaScript [Map] with string keys: insertion order is kept, [set] on a
    present key replaces the value in place. *)
Definition jsMap (V : Type) := list (string * V).

Fixpoint jsMap_set {V} (m : jsMap V) (k : string) (v : V) : jsMap V :=
  match m with
  | [] => [(k, v)]
  | (k', v') :: rest =>
      if decide (k' = k) then (k, v) :: rest else (k', v') :: jsMap_set rest k v
  end.

Definition jsMap_delete {V} (m : jsMap V) (k : string) : jsMap V :=
  List.filter (λ kv, negb (bool_decide (kv.1 = k))) m.

Definition jsMap_get {V} (m : jsMap V) (k : string) : option V :=
  snd <$> List.find (λ kv, bool_decide (kv.1 = k)) m.

Definition jsMap_values {V} (m : jsMap V) : list V := snd <$> m.

Inductive Event :=
| error_message (message : string)
| operation_ack (operation : Operation) (version : Z) (userId : string)
| remote_operation (operation : Operation) (version : Z) (userId username : string)
| document_state (title content : string) (version : Z) (owner role : string)
    (users : list UserData)
| user_joined (userData : UserData)
| user_left (userId username : string).

(** Where an event goes: [socket.emit], [socket.to(room).emit] (the room
    without the sender), or a Redis channel, tagged with the server id. *)
Inductive Target :=
| ToSocket (socketId : string)
| ToRoomExcept (room socketId : string)
| ToRedis (channel serverId : string).

Record Server := mkServer {
  SERVER_ID : string;
  documents : gmap string Document;
  operationBuffers : gmap string (list BufferEntry);
  activeUsers : gmap string (jsMap UserData);
  rooms : gmap string (gset string);
  socketDocument : gmap string string;
  activeSubscriptions : gset string;
  presence : gmap string UserData;
  outbox : list (Target * Event);
}.

Definition upd_documents (f : gmap string Document → gmap string Document)
  (s : Server) : Server :=
  mkServer (SERVER_ID s) (f (documents s)) (operationBuffers s) (activeUsers s)
    (rooms s) (socketDocument s) (activeSubscriptions s) (presence s) (outbox s).
Definition upd_operationBuffers
  (f : gmap string (list BufferEntry) → gmap string (list BufferEntry))
  (s : Server) : Server :=
  mkServer (SERVER_ID s) (documents s) (f (operationBuffers s)) (activeUsers s)
    (rooms s) (socketDocument s) (activeSubscriptions s) (presence s) (outbox s).
Definition upd_activeUsers
  (f : gmap string (jsMap UserData) → gmap string (jsMap UserData))
  (s : Server) : Server :=
  mkServer (SERVER_ID s) (documents s) (operationBuffers s) (f (activeUsers s))
    (rooms s) (socketDocument s) (activeSubscriptions s) (presence s) (outbox s).
Definition upd_rooms (f : gmap string (gset string) → gmap string (gset string))
  (s : Server) : Server :=
  mkServer (SERVER_ID s) (documents s) (operationBuffers s) (activeUsers s)
    (f (rooms s)) (socketDocument s) (activeSubscriptions s) (presence s) (outbox s).
Definition upd_socketDocument (f : gmap string string → gmap string string)
  (s : Server) : Server :=
  mkServer (SERVER_ID s) (documents s) (operationBuffers s) (activeUsers s)
    (rooms s) (f (socketDocument s)) (activeSubscriptions s) (presence s) (outbox s).
Definition upd_activeSubscriptions (f : gset string → gset string)
  (s : Server) : Server :=
  mkServer (SERVER_ID s) (documents s) (operationBuffers s) (activeUsers s)
    (rooms s) (socketDocument s) (f (activeSubscriptions s)) (presence s) (outbox s).
Definition upd_presence (f : gmap string UserData → gmap string UserData)
  (s : Server) : Server :=
  mkServer (SERVER_ID s) (documents s) (operationBuffers s) (activeUsers s)
    (rooms s) (socketDocument s) (activeSubscriptions s) (f (presence s)) (outbox s).
Definition upd_outbox (f : list (Target * Event) → list (Target * Event))
  (s : Server) : Server :=
  mkServer (SERVER_ID s) (documents s) (operationBuffers s) (activeUsers s)
    (rooms s) (socketDocument s) (activeSubscriptions s) (presence s) (f (outbox s)).

(** [Document.findById(documentId)]; [None] is [null], for an id that names
    no document. *)
Definition findById (documentId : string) : M Server (option Document) :=
  gets (λ s, documents s !! documentId).

(** [document.save()] *)
Definition save (documentId : string) (document : Document) : M Server unit :=
  modify (upd_documents <[documentId := document]>).

(** ** otService.js: the buffers and [processOperation] *)

(** [getBuffer(documentId)]: creates the empty buffer when there is none. *)
Definition getBuffer (documentId : string) : M Server (list BufferEntry) :=
  s ← get;
  match operationBuffers s !! documentId with
  | Some buffer => mret buffer
  | None =>
      _ ← modify (upd_operationBuffers <[documentId := []]>);
      mret []
  end.

(** The [for ... of missedOps] loop with its [break]. *)
Fixpoint transformLoop (transformedOp : Operation) (missedOps : list BufferEntry)
  : result Operation :=
  match missedOps with
  | [] => Ok transformedOp
  | entry :: rest =>
      transformedOp ← transformOperation transformedOp (entry_operation entry);
      if decide (op_type transformedOp = "noop") then Ok transformedOp
      else transformLoop transformedOp rest
  end.

(** [buffer.splice(0, buffer.length - MAX_BUFFER_SIZE)] under its guard. *)
Definition trimBuffer (buffer : list BufferEntry) : list BufferEntry :=
  if (MAX_BUFFER_SIZE <? length buffer)%nat then
    drop (length buffer - MAX_BUFFER_SIZE)%nat buffer
  else buffer.

(** The block "if client is behind, transform against missed ops" of
    [processOperation]: the operation after it. *)
Definition transformMissed (document : Document) (buffer : list BufferEntry)
  (operation : Operation) : result Operation :=
  let transformedOp := operation in
  if nltb (op_baseVersion operation) (Some (doc_version document)) then
    let missedOps :=
      List.filter
        (λ entry, ngtb (Some (entry_version entry)) (op_baseVersion operation))
        buffer in
    transformLoop transformedOp missedOps
  else Ok transformedOp.

(** [processOperation(documentId, operation, userId)]; returns
    [{document, transformedOp, newVersion}]. *)
Definition processOperation (documentId : string) (operation : Operation)
  (userId : string) (now : Z) : M Server (Document * Operation * Z) :=
  document ← findById documentId;
  match document with
  | None => throw (Error "Document not found")
  | Some document =>
      buffer ← getBuffer documentId;
      transformedOp ← liftR (transformMissed document buffer operation);
      if decide (op_type transformedOp = "noop") then
        mret (document, transformedOp, doc_version document)
      else
        let document := pushVersionSnapshot document userId now in
        let newContent := applyOperation (doc_content document) transformedOp in
        let document := set_content document newContent in
        let document := set_version document (doc_version document + 1) in
        _ ← save documentId document;
        let buffer := buffer ++ [mkEntry (doc_version document) transformedOp] in
        let buffer := trimBuffer buffer in
        _ ← modify (upd_operationBuffers <[documentId := buffer]>);
        mret (document, transformedOp, doc_version document)
  end.

(** [clearBuffer(documentId)] *)
Definition clearBuffer (documentId : string) : M Server unit :=
  modify (upd_operationBuffers (delete documentId)).

(** ** permissionService.js *)

Definition EDIT_ROLES : list string := ["owner"; "editor"].
Definition READ_ROLES : list string := ["owner"; "editor"; "commenter"; "viewer"].

(** [getUserRole(document, userId)]; [None] is [null]. *)
Definition getUserRole (document : Document) (userId : string) : option string :=
  if decide (doc_owner document = userId) then Some "owner"
  else
    share_role <$>
      List.find (λ entry, bool_decide (share_userId entry = userId))
        (doc_sharedWith document).

Definition canRead (document : Document) (userId : string) : bool :=
  match getUserRole document userId with
  | Some role => bool_decide (role ∈ READ_ROLES)
  | None => false
  end.

Definition canEdit (document : Document) (userId : string) : bool :=
  match getUserRole document userId with
  | Some role => bool_decide (role ∈ EDIT_ROLES)
  | None => false
  end.

Definition isOwner (document : Document) (userId : string) : bool :=
  bool_decide (getUserRole document userId = Some "owner").

(** [getDocumentWithAccess(documentId, userId, requiredLevel)] *)
Definition getDocumentWithAccess (documentId userId requiredLevel : string)
  : M Server (Document * string) :=
  document ← findById documentId;
  match document with
  | None => throw (Error "Document not found")
  | Some document =>
      let role := getUserRole document userId in
      if falsy_str role then
        throw (Error "You do not have access to this document")
      else
        let role := default "" role in
        if bool_decide (requiredLevel = "edit") && negb (bool_decide (role ∈ EDIT_ROLES))
        then throw (Error "You do not have edit access to this document")
        else if bool_decide (requiredLevel = "owner") && negb (bool_decide (role = "owner"))
        then throw (Error "Only the document owner can perform this action")
        else mret (document, role)
  end.

(** ** sockets/documentHandler.js *)

Record User := mkUser {
  user_id : string;
  user_username : string;
}.

(** A connected socket: its id and the user attached at the handshake. *)
Record Socket := mkSocket {
  socket_id : string;
  socket_user : User;
}.

Definition emit (target : Target) (event : Event) : M Server unit :=
  modify (upd_outbox (λ o, o ++ [(target, event)])).

(** [error.message] *)
Definition exn_message (e : exn) : string :=
  match e with
  | Error message => message
  | TypeError => "Cannot read properties of undefined (reading 'length')"
  end.

Definition roomOf (documentId : string) : string := "doc:" +:+ documentId.
Definition presenceChannel (documentId : string) : string :=
  "presence:" +:+ documentId.
Definition presenceKey (documentId userId : string) : string :=
  "presence:" +:+ documentId +:+ ":" +:+ userId.

Definition inRoom (s : Server) (room socketId : string) : Prop :=
  socketId ∈ default ∅ (rooms s !! room).

(** [getDocumentUsers(documentId)] *)
Definition getDocumentUsers (documentId : string) : M Server (jsMap UserData) :=
  s ← get;
  match activeUsers s !! documentId with
  | Some users => mret users
  | None =>
      _ ← modify (upd_activeUsers <[documentId := []]>);
      mret []
  end.

(** [socket.on('join_document', ...)]; [now] is [Date.now()]. *)
Definition join_document (socket : Socket) (documentId : string) (now : Z)
  : M Server unit :=
  let user := socket_user socket in
  tryCatch
    ('(document, role) ← getDocumentWithAccess documentId (user_id user) "read";
     let roomName := roomOf documentId in
     _ ← modify (upd_rooms (λ r,
           <[roomName := default ∅ (r !! roomName) ∪ {[socket_id socket]}]> r));
     _ ← modify (upd_socketDocument <[socket_id socket := documentId]>);
     users ← getDocumentUsers documentId;
     let userData := mkUserData (user_id user) (user_username user) role now in
     let users := jsMap_set users (user_id user) userData in
     _ ← modify (upd_activeUsers <[documentId := users]>);
     _ ← modify (upd_presence <[presenceKey documentId (user_id user) := userData]>);
     _ ← modify (upd_activeSubscriptions (λ subs,
           subs ∪ {[roomOf documentId]} ∪ {[presenceChannel documentId]}));
     _ ← emit (ToSocket (socket_id socket))
           (document_state (doc_title document) (doc_content document)
              (doc_version document) (doc_owner document) role
              (jsMap_values users));
     _ ← emit (ToRoomExcept roomName (socket_id socket)) (user_joined userData);
     s ← get;
     emit (ToRedis (presenceChannel documentId) (SERVER_ID s)) (user_joined userData))
    (λ error, emit (ToSocket (socket_id socket)) (error_message (exn_message error))).

(** The shape checks of the [operation] handler: the message of the first
    check that fails, or the operation when all pass. *)
Definition checkOperation (operation : option Operation) : string + Operation :=
  match operation with
  | None => inl "Invalid operation format."
  | Some operation =>
      if bool_decide (op_type operation = "")
         || negb (bool_decide (is_Some (op_position operation)))
      then inl "Invalid operation format."
      else if bool_decide (op_type operation = "insert") && falsy_str (op_text operation)
      then inl "Insert operation requires text."
      else if bool_decide (op_type operation = "delete") && falsy_num (op_length operation)
      then inl "Delete operation requires length."
      else inr operation
  end.

(** [socket.on('operation', ...)] *)
Definition on_operation (socket : Socket) (documentId : string)
  (operation : option Operation) (now : Z) : M Server unit :=
  let user := socket_user socket in
  tryCatch
    (doc ← findById documentId;
     if negb (from_option (λ doc, canEdit doc (user_id user)) false doc) then
       emit (ToSocket (socket_id socket)) (error_message "Edit permission denied.")
     else
       match checkOperation operation with
       | inl message => emit (ToSocket (socket_id socket)) (error_message message)
       | inr operation =>
           '(_, transformedOp, newVersion) ←
             processOperation documentId operation (user_id user) now;
           _ ← emit (ToSocket (socket_id socket))
                 (operation_ack transformedOp newVersion (user_id user));
           let roomName := roomOf documentId in
           _ ← emit (ToRoomExcept roomName (socket_id socket))
                 (remote_operation transformedOp newVersion (user_id user)
                    (user_username user));
           s ← get;
           emit (ToRedis (roomOf documentId) (SERVER_ID s))
             (remote_operation transformedOp newVersion (user_id user)
                (user_username user))
       end)
    (λ error,
       emit (ToSocket (socket_id socket)) (error_message "Failed to apply operation.")).

(** The handler hands the operation to [processOperation]: the permission
    check and the shape checks pass. *)
Definition accepted (s : Server) (socket : Socket) (documentId : string)
  (operation : Operation) : Prop :=
  (∃ doc, documents s !! documentId = Some doc
          ∧ canEdit doc (user_id (socket_user socket)) = true)
  ∧ checkOperation (Some operation) = inr operation.

(** [handleUserLeave(io, socket, documentId, user)] *)
Definition handleUserLeave (socket : Socket) (documentId : string) : M Server unit :=
  let user := socket_user socket in
  let roomName := roomOf documentId in
  _ ← modify (upd_rooms (λ r,
        <[roomName := default ∅ (r !! roomName) ∖ {[socket_id socket]}]> r));
  users ← getDocumentUsers documentId;
  let users := jsMap_delete users (user_id user) in
  _ ← modify (upd_activeUsers <[documentId := users]>);
  _ ← modify (upd_presence (delete (presenceKey documentId (user_id user))));
  _ ← emit (ToRoomExcept roomName (socket_id socket))
        (user_left (user_id user) (user_username user));
  s ← get;
  _ ← emit (ToRedis (presenceChannel documentId) (SERVER_ID s))
        (user_left (user_id user) (user_username user));
  if bool_decide (length users = 0%nat) then
    _ ← modify (upd_activeUsers (delete documentId));
    _ ← clearBuffer documentId;
    modify (upd_activeSubscriptions (λ subs,
      subs ∖ {[roomOf documentId]} ∖ {[presenceChannel documentId]}))
  else mret tt.

(** ** routes/documents.js: restoring an old version *)

(** [POST /api/documents/:id/restore] with body [{version}]; returns the HTTP
    status, an access error is thrown to the error middleware. *)
Definition restoreVersion (userId documentId : string) (version : num) (now : Z)
  : M Server Z :=
  '(document, _) ← getDocumentWithAccess documentId userId "owner";
  match version with
  | None => mret 400
  | Some version =>
      match List.find (λ entry, ve_version entry =? version)
              (doc_versionHistory document) with
      | None => mret 404
      | Some historyEntry =>
          let document := pushVersionSnapshot document userId now in
          let document := set_content document (ve_contentSnapshot historyEntry) in
          let document := set_version document (doc_version document + 1) in
          _ ← save documentId document;
          mret 200
      end
  end.

(** ** Runs of the server *)

(** The state a handler leaves. *)
Definition run {S A} (c : M S A) (s : S) : S := (c s).2.

(** One event handled to completion. *)
Inductive step (s : Server) : Server → Prop :=
| step_operation socket documentId operation now :
    step s (run (on_operation socket documentId operation now) s)
| step_join socket documentId now :
    step s (run (join_document socket documentId now) s)
| step_leave socket documentId :
    step s (run (handleUserLeave socket documentId) s)
| step_restore userId documentId version now :
    step s (run (restoreVersion userId documentId version now) s).

(** A server that starts without buffers and handles events one by one. *)
Inductive reachable : Server → Prop :=
| reachable_start s : operationBuffers s = ∅ → reachable s
| reachable_step s s' : reachable s → step s s' → reachable s'.

(** The operation buffer of a document: what [getBuffer] returns. *)
Definition bufferOf (s : Server) (documentId : string) : list BufferEntry :=
  default [] (operationBuffers s !! documentId).

(** The state after [getBuffer]. *)
Definition withBuffer (s : Server) (documentId : string) : Server :=
  match operationBuffers s !! documentId with
  | Some _ => s
  | None => upd_operationBuffers <[documentId := []]> s
  end.

Definition strictlyMonotone (buffer : list BufferEntry) : Prop :=
  ∀ i j e1 e2, (i < j)%nat → buffer !! i = Some e1 → buffer !! j = Some e2 →
    entry_version e1 < entry_version e2.

(** Every buffered version is at most [v]. *)
Definition versionsUpTo (v : Z) (buffer : list BufferEntry) : Prop :=
  ∀ e, e ∈ buffer → entry_version e ≤ v.

(** The document [processOperation] saves for a non-noop [transformedOp]. *)
Definition editedDocument (document : Document) (transformedOp : Operation)
  (userId : string) (now : Z) : Document :=
  let document := pushVersionSnapshot document userId now in
  let document :=
    set_content document (applyOperation (doc_content document) transformedOp) in
  set_version document (doc_version document + 1).

(** The buffers of a server are in order: each is strictly increasing in
    version, holds at most [MAX_BUFFER_SIZE] entries, and belongs to a stored
    document whose version no entry exceeds. *)
Definition buffersOk (s : Server) : Prop :=
  ∀ id buffer, operationBuffers s !! id = Some buffer →
    strictlyMonotone buffer
    ∧ (length buffer ≤ MAX_BUFFER_SIZE)%nat
    ∧ ∃ doc, documents s !! id = Some doc ∧ versionsUpTo (doc_version doc) buffer.

(** ** Operations as objects

    [transformOperation] again, on references into a store of operation
    objects: the spread [{ ...opA }] allocates, the assignments to
    [transformed.position], [.length] and [.type] write the store, and every
    property is read from the store where the source reads it. *)

Abbreviation heap := (gmap nat Operation).

(** A property read; on a dangling reference it throws. *)
Definition read (l : nat) : M heap Operation := λ h,
  match h !! l with
  | Some o => (Ok o, h)
  | None => (Throw TypeError, h)
  end.

Definition field {A} (f : Operation → A) (l : nat) : M heap A :=
  o ← read l; mret (f o).

(** A property write. *)
Definition assign (l : nat) (f : Operation → Operation) : M heap unit :=
  modify (alter f l).

(** [{ ...o }] *)
Definition spread (o : Operation) : M heap nat := λ h,
  let l := fresh (dom h) in (Ok l, <[l := o]> h).

Definition transformOperationRef (opA opB : nat) : M heap nat :=
  a ← read opA;
  transformed ← spread a;
  (* Both inserting *)
  tA ← field op_type opA; tB ← field op_type opB;
  _ ← (if decide (tA = "insert" ∧ tB = "insert") then
         pB ← field op_position opB; pA ← field op_position opA;
         if nleb pB pA then
           p ← field op_position transformed;
           b ← read opB; len ← liftR (text_length b);
           assign transformed (λ t, set_position t (nadd p len))
         else mret tt
       else mret tt);
  (* A inserting, B deleting *)
  tA ← field op_type opA; tB ← field op_type opB;
  _ ← (if decide (tA = "insert" ∧ tB = "delete") then
         pB ← field op_position opB; pA ← field op_position opA;
         if nltb pB pA then
           p ← field op_position transformed;
           lB ← field op_length opB;
           pA ← field op_position opA; pB ← field op_position opB;
           assign transformed (λ t, set_position t (nsub p (nmin lB (nsub pA pB))))
         else mret tt
       else mret tt);
  (* A deleting, B inserting *)
  tA ← field op_type opA; tB ← field op_type opB;
  _ ← (if decide (tA = "delete" ∧ tB = "insert") then
         pB ← field op_position opB; pA ← field op_position opA;
         if nleb pB pA then
           p ← field op_position transformed;
           b ← read opB; len ← liftR (text_length b);
           assign transformed (λ t, set_position t (nadd p len))
         else mret tt
       else mret tt);
  (* Both deleting *)
  tA ← field op_type opA; tB ← field op_type opB;
  _ ← (if decide (tA = "delete" ∧ tB = "delete") then
         pB ← field op_position opB;
         pA ← field op_position opA; lA ← field op_length opA;
         if ngeb pB (nadd pA lA) then mret tt
         else
           pB ← field op_position opB; lB ← field op_length opB;
           pA ← field op_position opA;
           if nleb (nadd pB lB) pA then
             p ← field op_position transformed;
             lB ← field op_length opB;
             assign transformed (λ t, set_position t (nsub p lB))
           else
             pA ← field op_position opA; pB ← field op_position opB;
             let overlapStart := nmax pA pB in
             pA ← field op_position opA; lA ← field op_length opA;
             pB ← field op_position opB; lB ← field op_length opB;
             let overlapEnd := nmin (nadd pA lA) (nadd pB lB) in
             let overlapLength := nmax (Some 0) (nsub overlapEnd overlapStart) in
             l ← field op_length transformed;
             _ ← assign transformed (λ t, set_length t (nsub l overlapLength));
             pA ← field op_position opA; pB ← field op_position opB;
             _ ← assign transformed (λ t, set_position t (nmin pA pB));
             l ← field op_length transformed;
             if nleb l (Some 0) then
               _ ← assign transformed (λ t, set_length t (Some 0));
               assign transformed (λ t, set_type t "noop")
             else mret tt
       else mret tt);
  mret transformed.

(** The loop of [processOperation] over the buffered objects [missedOps]. *)
Fixpoint transformLoopRef (transformedOp : nat) (missedOps : list nat)
  : M heap nat :=
  match missedOps with
  | [] => mret transformedOp
  | serverOp :: rest =>
      transformedOp ← transformOperationRef transformedOp serverOp;
      ty ← field op_type transformedOp;
      if decide (ty = "noop") then mret transformedOp
      else transformLoopRef transformedOp rest
  end.

(** ** The rule of the specification for an insert against a delete *)

(** Written from the specification, not from the code: the position of [a']
    in the table of section 4.1, row insert/delete, for the positions [pa],
    [pb] and the length [lb] of [b]. *)
Definition spec_table_insert_delete (pa pb lb : Z) : Z :=
  if pb + lb <=? pa then pa - lb
  else if pb <? pa then pb
  else pa.

(** The state after the three emissions that follow [processOperation] in
    the [operation] handler: the ack, the broadcast to the room, the Redis
    publication. *)
Definition acknowledged (socket : Socket) (documentId : string)
  (transformedOp : Operation) (newVersion : Z) (s : Server) : Server :=
  let user := socket_user socket in
  upd_outbox (λ o, o ++
    [(ToSocket (socket_id socket),
      operation_ack transformedOp newVersion (user_id user));
     (ToRoomExcept (roomOf documentId) (socket_id socket),
      remote_operation transformedOp newVersion (user_id user) (user_username user));
     (ToRedis (roomOf documentId) (SERVER_ID s),
      remote_operation transformedOp newVersion (user_id user) (user_username user))])
    s.

(** The state after a lone [error_message] to the socket. *)
Definition refused (socket : Socket) (message : string) (s : Server) : Server :=
  upd_outbox (λ o, o ++ [(ToSocket (socket_id socket), error_message message)]) s.

(** ** A small server for the scenarios *)

Definition alice : Socket := mkSocket "s1" (mkUser "u1" "alice").
Definition bob : Socket := mkSocket "s2" (mkUser "u2" "bob").

(** A document of [alice], shared with [bob] as editor, at version 1. *)
Definition sampleDocument (content : string) : Document :=
  mkDocument "Notes" content "u1" [mkShare "u2" "editor"] 1 [].

(** A server that holds this document under the id ["d"]; nobody has joined,
    there is no buffer. *)
Definition sampleServer (content : string) : Server :=
  mkServer "srv" {["d" := sampleDocument content]} ∅ ∅ ∅ ∅ ∅ ∅ [].

(** The document and the server after [alice]'s delete of ["BCD"] in
    ["ABCDE"] (scenario S3), and the noop [bob]'s overlapping delete becomes. *)
Definition documentAE : Document :=
  mkDocument "Notes" "AE" "u1" [mkShare "u2" "editor"] 2
    [mkVersionEntry 1 "ABCDE" "u1" 100].

Definition serverAE : Server :=
  run (on_operation alice "d" (Some (deleteOp 1 3 1)) 100) (sampleServer "ABCDE").

Definition noopAt1 : Operation := mkOp "noop" (Some 1) None (Some 0) (Some 1).

(** A store with the two deletes of scenario S3: [bob]'s at 0, the buffered
    one of [alice] at 1. *)
Definition sampleHeap : heap :=
  <[0%nat := deleteOp 2 2 1]> (<[1%nat := deleteOp 1 3 1]> ∅).

(** * Further code *)

(** ** Strings as sequences of code units *)

Definition chars (s : string) : list Ascii.ascii := String.list_ascii_of_string s.

(** [Math.min(Math.max(0, position), content.length)] on integers. *)
Definition clamp (len p : Z) : Z := Z.min (Z.max 0 p) len.

(** ** Predicates on documents and buffers *)

(** The version history of a document is in order: at most
    [MAX_HISTORY_SIZE] snapshots, strictly increasing in version, all below
    the document's version. *)
Definition historyOk (d : Document) : Prop :=
  (length (doc_versionHistory d) ≤ MAX_HISTORY_SIZE)%nat
  ∧ (∀ i j e1 e2, (i < j)%nat →
       doc_versionHistory d !! i = Some e1 → doc_versionHistory d !! j = Some e2 →
       ve_version e1 < ve_version e2)
  ∧ (∀ e, e ∈ doc_versionHistory d → ve_version e < doc_version d).

Definition historiesOk (s : Server) : Prop :=
  ∀ id doc, documents s !! id = Some doc → historyOk doc.

(** An insert carries a text. *)
Definition hasText (op : Operation) : Prop :=
  op_type op = "insert" → is_Some (op_text op).

Definition buffersHaveText (s : Server) : Prop :=
  ∀ id buffer, operationBuffers s !! id = Some buffer →
    Forall (λ entry, hasText (entry_operation entry)) buffer.

(** ** routes/documents.js: sharing *)

(** The share list after [existingShare.role = role] on the first entry of
    the user, or after [sharedWith.push({userId, role})] when there is none. *)
Fixpoint setShare (sharedWith : list ShareEntry) (userId role : string)
  : list ShareEntry :=
  match sharedWith with
  | [] => [mkShare userId role]
  | entry :: rest =>
      if bool_decide (share_userId entry = userId)
      then mkShare (share_userId entry) role :: rest
      else entry :: setShare rest userId role
  end.

Definition set_sharedWith (d : Document) (l : list ShareEntry) : Document :=
  mkDocument (doc_title d) (doc_content d) (doc_owner d) l (doc_version d)
    (doc_versionHistory d).

(** [POST /api/documents/:id/share] with body [{email, role}], sent by
    [userId]; [findOne] is [User.findOne({ email })], giving the id of the
    user. Returns the HTTP status; an access error is thrown to the error
    middleware. *)
Definition shareDocument (findOne : string → option string)
  (userId documentId : string) (email role : option string) : M Server Z :=
  '(document, _) ← getDocumentWithAccess documentId userId "owner";
  if falsy_str email || falsy_str role then mret 400
  else
    let email := default "" email in
    let role := default "" role in
    if negb (bool_decide (role ∈ ["editor"; "commenter"; "viewer"])) then mret 400
    else
      match findOne email with
      | None => mret 404
      | Some targetUser =>
          if bool_decide (targetUser = userId) then mret 400
          else
            let document :=
              set_sharedWith document
                (setShare (doc_sharedWith document) targetUser role) in
            _ ← save documentId document;
            mret 200
      end.

(** The share list of a stored document is well formed: one entry per user,
    none for the owner, and only roles of [shareEntrySchema]'s enum. *)
Definition shareListOk (d : Document) : Prop :=
  NoDup (share_userId <$> doc_sharedWith d)
  ∧ (doc_owner d ∉ share_userId <$> doc_sharedWith d)
  ∧ Forall (λ entry, share_role entry ∈ ["editor"; "commenter"; "viewer"])
      (doc_sharedWith d).

Definition shareListsOk (s : Server) : Prop :=
  ∀ id d, documents s !! id = Some d → shareListOk d.

(** ** The state a successful [join_document] leaves *)

Definition joined (socket : Socket) (documentId : string) (now : Z)
  (document : Document) (role : string) (s : Server) : Server :=
  let user := socket_user socket in
  let roomName := roomOf documentId in
  let userData := mkUserData (user_id user) (user_username user) role now in
  let users :=
    jsMap_set (default [] (activeUsers s !! documentId)) (user_id user) userData in
  mkServer (SERVER_ID s) (documents s) (operationBuffers s)
    (<[documentId := users]> (activeUsers s))
    (<[roomName := default ∅ (rooms s !! roomName) ∪ {[socket_id socket]}]> (rooms s))
    (<[socket_id socket := documentId]> (socketDocument s))
    (activeSubscriptions s ∪ {[roomOf documentId]} ∪ {[presenceChannel documentId]})
    (<[presenceKey documentId (user_id user) := userData]> (presence s))
    (outbox s ++
     [(ToSocket (socket_id socket),
       document_state (doc_title document) (doc_content document)
         (doc_version document) (doc_owner document) role (jsMap_values users));
      (ToRoomExcept roomName (socket_id socket), user_joined userData);
      (ToRedis (presenceChannel documentId) (SERVER_ID s), user_joined userData)]).

(** ** The state [handleUserLeave] leaves *)

Definition afterLeave (socket : Socket) (documentId : string) (s : Server) : Server :=
  let user := socket_user socket in
  let roomName := roomOf documentId in
  let users := jsMap_delete (default [] (activeUsers s !! documentId)) (user_id user) in
  let events :=
    [(ToRoomExcept roomName (socket_id socket),
      user_left (user_id user) (user_username user));
     (ToRedis (presenceChannel documentId) (SERVER_ID s),
      user_left (user_id user) (user_username user))] in
  let emptied := bool_decide (length users = 0%nat) in
  mkServer (SERVER_ID s) (documents s)
    (if emptied then delete documentId (operationBuffers s) else operationBuffers s)
    (if emptied then delete documentId (activeUsers s)
     else <[documentId := users]> (activeUsers s))
    (<[roomName := default ∅ (rooms s !! roomName) ∖ {[socket_id socket]}]> (rooms s))
    (socketDocument s)
    (if emptied
     then activeSubscriptions s ∖ {[roomOf documentId]} ∖ {[presenceChannel documentId]}
     else activeSubscriptions s)
    (delete (presenceKey documentId (user_id user)) (presence s))
    (outbox s ++ events).

(** ** [processOperation] between its awaits

    [processOperation] gives up control twice: at [await
    Document.findById(documentId)] and at [await document.save()]. Between
    the two it works on the document object [findById] returned, which is
    private to the call, and on the buffer array, which is shared. The
    segments are what runs without interruption. *)

(** [await Document.findById(documentId)]: the read of the store. *)
Definition processOperation_find (documentId : string) : M Server (option Document) :=
  findById documentId.

(** From the result of [findById] to the call of [document.save()]: either
    the early return for a noop, or the document to save with the
    transformed operation. *)
Definition processOperation_prepare (found : option Document) (documentId : string)
  (operation : Operation) (userId : string) (now : Z)
  : M Server ((Document * Operation * Z) + (Document * Operation)) :=
  match found with
  | None => throw (Error "Document not found")
  | Some document =>
      buffer ← getBuffer documentId;
      transformedOp ← liftR (transformMissed document buffer operation);
      if decide (op_type transformedOp = "noop") then
        mret (inl (document, transformedOp, doc_version document))
      else
        let document := pushVersionSnapshot document userId now in
        let newContent := applyOperation (doc_content document) transformedOp in
        let document := set_content document newContent in
        let document := set_version document (doc_version document + 1) in
        mret (inr (document, transformedOp))
  end.

(** [await document.save()] and what follows it: the write of the store,
    then the push onto the buffer array as it is by then, and the trim. *)
Definition processOperation_finish (documentId : string)
  (prepared : (Document * Operation * Z) + (Document * Operation))
  : M Server (Document * Operation * Z) :=
  match prepared with
  | inl returned => mret returned
  | inr (document, transformedOp) =>
      _ ← save documentId document;
      s ← get;
      let buffer := bufferOf s documentId in
      let buffer := buffer ++ [mkEntry (doc_version document) transformedOp] in
      let buffer := trimBuffer buffer in
      _ ← modify (upd_operationBuffers <[documentId := buffer]>);
      mret (document, transformedOp, doc_version document)
  end.

(** Two calls for the same document of which the second has read the
    document before the first has saved it. *)
Definition overlappingCalls (documentId : string)
  (operationA : Operation) (userA : string)
  (operationB : Operation) (userB : string) (now : Z)
  : M Server ((Document * Operation * Z) * (Document * Operation * Z)) :=
  foundA ← processOperation_find documentId;
  foundB ← processOperation_find documentId;
  preparedA ← processOperation_prepare foundA documentId operationA userA now;
  preparedB ← processOperation_prepare foundB documentId operationB userB now;
  returnedA ← processOperation_finish documentId preparedA;
  returnedB ← processOperation_finish documentId preparedB;
  mret (returnedA, returnedB).

(** ** The [operation] event and its payload

    [socket.on('operation', async ({ documentId, operation }) => ...)]: the
    payload is taken apart in the parameter list, before the [try]. [None]
    is an event sent without a payload. *)
Definition operation_event (socket : Socket)
  (payload : option (string * option Operation)) (now : Z) : M Server unit :=
  match payload with
  | None => throw TypeError
  | Some (documentId, operation) => on_operation socket documentId operation now
  end.

(** * Properties *)

(** ** The functions on small inputs *)

Example transform_S2 :
  transformOperation (insertOp 4 "X" 1) (deleteOp 1 3 1) = Ok (insertOp 1 "X" 1).
Proof. reflexivity. Qed.

Example transform_insert_without_text :
  transformOperation (insertOp 4 "X" 1) (mkOp "insert" (Some 1) None None (Some 1))
  = Throw TypeError.
Proof. reflexivity. Qed.

Example apply_insert : applyOperation "AC" (insertOp 1 "B" 1) = "ABC".
Proof. reflexivity. Qed.

Example apply_insert_clamped : applyOperation "AC" (insertOp 9 "B" 1) = "ACB".
Proof. reflexivity. Qed.

Example apply_delete : applyOperation "ABCDE" (deleteOp 1 3 1) = "AE".
Proof. reflexivity. Qed.

Example apply_delete_clamped : applyOperation "ABCDE" (deleteOp 3 9 1) = "ABC".
Proof. reflexivity. Qed.

(** [end = min(1 + -1, 3) = 0]: ["ABC".slice(0, 1) + "ABC".slice(0)]. *)
Example apply_delete_negative : applyOperation "ABC" (deleteOp 1 (-1) 1) = "AABC".
Proof. reflexivity. Qed.

Example check_delete_negative :
  checkOperation (Some (deleteOp 1 (-1) 1)) = inr (deleteOp 1 (-1) 1).
Proof. reflexivity. Qed.

Example check_delete_zero :
  checkOperation (Some (deleteOp 1 0 1)) = inl "Delete operation requires length.".
Proof. reflexivity. Qed.

(** ** Numbers and strings *)

Lemma nleb_Some a b : nleb (Some a) (Some b) = (a <=? b).
Proof. reflexivity. Qed.

Lemma nltb_Some a b : nltb (Some a) (Some b) = (a <? b).
Proof. reflexivity. Qed.

Lemma ngtb_Some a b : ngtb (Some a) (Some b) = (a >? b).
Proof. reflexivity. Qed.

Lemma nltb_irrefl_ge x v : ngtb x (Some v) = true → nltb x (Some v) = false.
Proof.
  destruct x as [z|]; [|discriminate]. rewrite ngtb_Some, nltb_Some.
  intros H. apply Z.ltb_ge. apply Z.gtb_lt in H. lia.
Qed.

Lemma falsy_num_false x : falsy_num x = false ↔ ∃ n, x = Some n ∧ n ≠ 0.
Proof.
  destruct x as [z|]; simpl.
  - rewrite Z.eqb_neq. split; [eauto|]. by intros (n & [= ->] & ?).
  - split; [discriminate|]. by intros (n & ? & _).
Qed.

(** ** Records *)

Lemma set_position_same o : set_position o (op_position o) = o.
Proof. by destruct o. Qed.

Lemma pushVersionSnapshot_version d u now :
  doc_version (pushVersionSnapshot d u now) = doc_version d.
Proof. unfold pushVersionSnapshot. by case_match. Qed.

Lemma pushVersionSnapshot_content d u now :
  doc_content (pushVersionSnapshot d u now) = doc_content d.
Proof. unfold pushVersionSnapshot. by case_match. Qed.

Lemma editedDocument_version d top u now :
  doc_version (editedDocument d top u now) = doc_version d + 1.
Proof. unfold editedDocument. simpl. by rewrite pushVersionSnapshot_version. Qed.

Lemma editedDocument_content d top u now :
  doc_content (editedDocument d top u now) = applyOperation (doc_content d) top.
Proof. unfold editedDocument. simpl. by rewrite pushVersionSnapshot_content. Qed.

(** ** [transformOperation] *)

(** The branch a pair of types selects; [t1], [t2] are string constants. *)
Ltac types_differ :=
  repeat match goal with
  | |- context [decide (?P ∧ ?Q)] =>
      destruct (decide (P ∧ Q)) as [[? ?]|_]; [congruence|]
  end.

Lemma transform_insert_insert a b :
  op_type a = "insert" → op_type b = "insert" →
  transformOperation a b =
    if nleb (op_position b) (op_position a) then
      len ← text_length b; Ok (set_position a (nadd (op_position a) len))
    else Ok a.
Proof.
  intros Ha Hb. unfold transformOperation.
  destruct (decide (op_type a = "insert" ∧ op_type b = "insert")) as [_|Hn];
    [|by destruct Hn].
  destruct (nleb (op_position b) (op_position a)); simpl.
  - destruct (text_length b); simpl; [|done]. by types_differ.
  - by types_differ.
Qed.

Lemma transform_insert_delete a b :
  op_type a = "insert" → op_type b = "delete" →
  transformOperation a b =
    Ok (if nltb (op_position b) (op_position a) then
          set_position a
            (nsub (op_position a)
               (nmin (op_length b) (nsub (op_position a) (op_position b))))
        else a).
Proof.
  intros Ha Hb. unfold transformOperation.
  destruct (decide (op_type a = "insert" ∧ op_type b = "insert")) as [[]|_];
    [congruence|]. simpl.
  destruct (decide (op_type a = "insert" ∧ op_type b = "delete")) as [_|Hn];
    [|by destruct Hn].
  by types_differ.
Qed.

Lemma transform_against_other a b :
  op_type b ≠ "insert" → op_type b ≠ "delete" → transformOperation a b = Ok a.
Proof.
  intros Hi Hd. unfold transformOperation.
  repeat (match goal with
          | |- context [decide (?P ∧ ?Q)] =>
              destruct (decide (P ∧ Q)) as [[? ?]|_]; [done|]
          end; simpl).
  done.
Qed.

(** C2. For an insert [a] and a delete [b] of length at least 1, the position
    [transformOperation] computes, [a.position - min(b.length, a.position -
    b.position)] under [b.position < a.position], is the position of the
    table of the specification: [a.position - b.length] when [b] ends at or
    before [a], [b.position] when [a] falls inside [b], unchanged otherwise;
    the other fields of [a] are kept. *)
Theorem transform_insert_delete_table (a b : Operation) (pa pb lb : Z) :
  op_type a = "insert" → op_type b = "delete" →
  op_position a = Some pa → op_position b = Some pb → op_length b = Some lb →
  1 ≤ lb →
  transformOperation a b = Ok (set_position a (Some (spec_table_insert_delete pa pb lb))).
Proof.
  intros Ha Hb Hpa Hpb Hlb Hl.
  rewrite transform_insert_delete by done.
  rewrite Hpa, Hpb, Hlb, nltb_Some. f_equal.
  unfold spec_table_insert_delete, nsub, nmin, lift2.
  destruct (Z.ltb_spec pb pa), (Z.leb_spec (pb + lb) pa); try lia.
  - do 2 f_equal. lia.
  - do 2 f_equal. lia.
  - rewrite <- Hpa. by rewrite set_position_same.
Qed.

Lemma transform_insert_delete_table_witness :
  transformOperation (insertOp 3 "X" 1) (deleteOp 1 5 1) = Ok (insertOp 1 "X" 1).
Proof.
  exact (transform_insert_delete_table (insertOp 3 "X" 1) (deleteOp 1 5 1) 3 1 5
           eq_refl eq_refl eq_refl eq_refl eq_refl ltac:(lia)).
Defined.

(** C8. Transforming any operation against a noop gives the operation back,
    every field as it was. *)
Theorem transform_noop_identity (op b : Operation) :
  op_type b = "noop" → transformOperation op b = Ok op.
Proof.
  intros Hb. apply transform_against_other; rewrite Hb; discriminate.
Qed.

Lemma transform_noop_identity_witness :
  transformOperation (deleteOp 2 2 1) (mkOp "noop" (Some 1) None (Some 0) (Some 1))
  = Ok (deleteOp 2 2 1).
Proof.
  exact (transform_noop_identity (deleteOp 2 2 1)
           (mkOp "noop" (Some 1) None (Some 0) (Some 1)) eq_refl).
Defined.

(** ** The buffer *)

Lemma trimBuffer_drop buffer :
  trimBuffer buffer = drop (length buffer - MAX_BUFFER_SIZE)%nat buffer.
Proof.
  unfold trimBuffer. destruct (Nat.ltb_spec MAX_BUFFER_SIZE (length buffer)); [done|].
  by replace (length buffer - MAX_BUFFER_SIZE)%nat with 0%nat by lia.
Qed.

Lemma trimBuffer_length buffer : (length (trimBuffer buffer) ≤ MAX_BUFFER_SIZE)%nat.
Proof. rewrite trimBuffer_drop, length_drop. lia. Qed.

Lemma trimBuffer_small buffer :
  (length buffer ≤ MAX_BUFFER_SIZE)%nat → trimBuffer buffer = buffer.
Proof.
  intros H. unfold trimBuffer.
  by destruct (Nat.ltb_spec MAX_BUFFER_SIZE (length buffer)); [lia|].
Qed.

Lemma strictlyMonotone_nil : strictlyMonotone [].
Proof. intros i j e1 e2 _ H. by rewrite lookup_nil in H. Qed.

Lemma versionsUpTo_nil v : versionsUpTo v [].
Proof. intros e He. by apply elem_of_nil in He. Qed.

Lemma strictlyMonotone_snoc buffer e :
  strictlyMonotone buffer →
  (∀ e', e' ∈ buffer → entry_version e' < entry_version e) →
  strictlyMonotone (buffer ++ [e]).
Proof.
  intros Hmono Hlt i j e1 e2 Hij H1 H2.
  apply lookup_app_Some in H2 as [H2|[Hj H2]].
  - rewrite lookup_app_l in H1 by (apply lookup_lt_Some in H2; lia).
    by eapply Hmono.
  - apply list_lookup_singleton_Some in H2 as [Hj' <-].
    rewrite lookup_app_l in H1 by lia.
    apply Hlt. by eapply list_elem_of_lookup_2.
Qed.

Lemma strictlyMonotone_drop k buffer :
  strictlyMonotone buffer → strictlyMonotone (drop k buffer).
Proof.
  intros Hmono i j e1 e2 Hij H1 H2. rewrite lookup_drop in H1, H2.
  eapply Hmono; [|done..]. lia.
Qed.

Lemma versionsUpTo_drop v k buffer :
  versionsUpTo v buffer → versionsUpTo v (drop k buffer).
Proof.
  intros H e He. apply H. apply list_elem_of_lookup in He as [i Hi].
  rewrite lookup_drop in Hi. by eapply list_elem_of_lookup_2.
Qed.

Lemma versionsUpTo_mono v w buffer :
  v ≤ w → versionsUpTo v buffer → versionsUpTo w buffer.
Proof. intros Hvw H e He. specialize (H e He). lia. Qed.

Create HintDb buffers.
#[local] Hint Resolve strictlyMonotone_nil versionsUpTo_nil trimBuffer_length
  strictlyMonotone_drop versionsUpTo_drop : buffers.

(** Appending the entry of the next version, then trimming. *)
Lemma buffer_push_invariant v buffer top :
  strictlyMonotone buffer → versionsUpTo v buffer →
  strictlyMonotone (trimBuffer (buffer ++ [mkEntry (v + 1) top]))
  ∧ versionsUpTo (v + 1) (trimBuffer (buffer ++ [mkEntry (v + 1) top])).
Proof.
  intros Hmono Hup. rewrite trimBuffer_drop. split.
  - apply strictlyMonotone_drop, strictlyMonotone_snoc; [done|].
    intros e' He'. specialize (Hup e' He'). simpl. lia.
  - apply versionsUpTo_drop. intros e He.
    apply elem_of_app in He as [He|He].
    + specialize (Hup e He). lia.
    + apply list_elem_of_singleton in He as ->. simpl. lia.
Qed.

(** ** [processOperation] *)

Lemma withBuffer_documents st id : documents (withBuffer st id) = documents st.
Proof. unfold withBuffer. by case_match. Qed.

Lemma withBuffer_SERVER_ID st id : SERVER_ID (withBuffer st id) = SERVER_ID st.
Proof. unfold withBuffer. by case_match. Qed.

Lemma withBuffer_outbox st id : outbox (withBuffer st id) = outbox st.
Proof. unfold withBuffer. by case_match. Qed.

Lemma withBuffer_rooms st id : rooms (withBuffer st id) = rooms st.
Proof. unfold withBuffer. by case_match. Qed.

Lemma withBuffer_activeUsers st id : activeUsers (withBuffer st id) = activeUsers st.
Proof. unfold withBuffer. by case_match. Qed.

Lemma withBuffer_bufferOf st id id' : bufferOf (withBuffer st id) id' = bufferOf st id'.
Proof.
  unfold withBuffer, bufferOf. destruct (operationBuffers st !! id) eqn:E; [done|].
  simpl. destruct (decide (id = id')) as [<-|Hne].
  - by rewrite lookup_insert_eq, E.
  - by rewrite lookup_insert_ne.
Qed.

(** What a call does when the document exists, by the outcome of the
    transformation. *)
Lemma processOperation_found st id op u now doc :
  documents st !! id = Some doc →
  processOperation id op u now st =
    match transformMissed doc (bufferOf st id) op with
    | Throw e => (Throw e, withBuffer st id)
    | Ok top =>
        if decide (op_type top = "noop") then
          (Ok (doc, top, doc_version doc), withBuffer st id)
        else
          let doc' := editedDocument doc top u now in
          (Ok (doc', top, doc_version doc'),
           upd_operationBuffers
             <[id := trimBuffer (bufferOf st id ++ [mkEntry (doc_version doc') top])]>
             (upd_documents <[id := doc']> (withBuffer st id)))
    end.
Proof.
  intros Hdoc.
  unfold processOperation, findById, gets, getBuffer, get, liftR, save, modify.
  unfold mbind, M_bind, mret, M_ret, withBuffer, bufferOf.
  rewrite Hdoc.
  destruct (operationBuffers st !! id) as [buffer|] eqn:Hbuf; simpl.
  - destruct (transformMissed doc buffer op) as [top|e]; [|done].
    by destruct (decide (op_type top = "noop")).
  - destruct (transformMissed doc [] op) as [top|e]; [|done].
    by destruct (decide (op_type top = "noop")).
Qed.

Lemma processOperation_missing st id op u now :
  documents st !! id = None →
  processOperation id op u now st = (Throw (Error "Document not found"), st).
Proof.
  intros Hdoc. unfold processOperation, findById, gets, throw, mbind, M_bind.
  by rewrite Hdoc.
Qed.

(** An operation that is not behind is taken as it is. *)
Lemma transformMissed_current doc buffer op :
  nltb (op_baseVersion op) (Some (doc_version doc)) = false →
  transformMissed doc buffer op = Ok op.
Proof. intros H. unfold transformMissed. by rewrite H. Qed.

(** C5. When the transformation inside [processOperation] ends in a noop, the
    call returns the document as it was found, with the current version, and
    changes nothing: the stored documents (content, version, version history:
    no snapshot is pushed) are the same and every operation buffer holds what
    it held. The only trace is the empty buffer [getBuffer] registers for a
    document that had none. *)
Theorem processOperation_noop_no_change
  (st : Server) (id : string) (op : Operation) (u : string) (now : Z)
  (doc : Document) (top : Operation) :
  documents st !! id = Some doc →
  transformMissed doc (bufferOf st id) op = Ok top →
  op_type top = "noop" →
  processOperation id op u now st = (Ok (doc, top, doc_version doc), withBuffer st id)
  ∧ documents (withBuffer st id) = documents st
  ∧ (∀ id', bufferOf (withBuffer st id) id' = bufferOf st id')
  ∧ outbox (withBuffer st id) = outbox st.
Proof.
  intros Hdoc Htop Hnoop. rewrite (processOperation_found _ _ _ _ _ _ Hdoc), Htop.
  destruct (decide (op_type top = "noop")); [|done].
  split; [done|]. split; [apply withBuffer_documents|].
  split; [intros id'; apply withBuffer_bufferOf | apply withBuffer_outbox].
Qed.

Lemma processOperation_noop_no_change_witness :
  processOperation "d" (deleteOp 2 2 1) "u2" 101 serverAE
  = (Ok (documentAE, noopAt1, 2), withBuffer serverAE "d")
  ∧ documents (withBuffer serverAE "d") = documents serverAE
  ∧ (∀ id', bufferOf (withBuffer serverAE "d") id' = bufferOf serverAE id')
  ∧ outbox (withBuffer serverAE "d") = outbox serverAE.
Proof.
  exact (processOperation_noop_no_change serverAE "d" (deleteOp 2 2 1) "u2" 101
           documentAE noopAt1 eq_refl eq_refl eq_refl).
Defined.

(** ** The [operation] handler *)

Lemma acknowledged_outbox socket id top v st :
  outbox (acknowledged socket id top v st) =
    outbox st ++
    [(ToSocket (socket_id socket),
      operation_ack top v (user_id (socket_user socket)));
     (ToRoomExcept (roomOf id) (socket_id socket),
      remote_operation top v (user_id (socket_user socket))
        (user_username (socket_user socket)));
     (ToRedis (roomOf id) (SERVER_ID st),
      remote_operation top v (user_id (socket_user socket))
        (user_username (socket_user socket)))].
Proof. reflexivity. Qed.

(** An accepted operation goes through [processOperation]; its result is
    acknowledged, its exception answered with an [error_message]. *)
Lemma on_operation_accepted st socket id op now :
  accepted st socket id op →
  on_operation socket id (Some op) now st =
    match processOperation id op (user_id (socket_user socket)) now st with
    | (Ok (_, top, v), st1) => (Ok tt, acknowledged socket id top v st1)
    | (Throw e, st1) => (Ok tt, refused socket "Failed to apply operation." st1)
    end.
Proof.
  intros [(doc & Hdoc & Hedit) Hcheck].
  unfold on_operation, tryCatch, findById, gets.
  unfold mbind at 1. unfold M_bind at 1. rewrite Hdoc.
  cbn [from_option]. rewrite Hedit. cbn [negb]. rewrite Hcheck.
  unfold mbind at 1. unfold M_bind at 1.
  destruct (processOperation id op (user_id (socket_user socket)) now st)
    as [[[[d top] v]|e] st1]; [|done].
  unfold acknowledged, emit, modify, get, mbind, M_bind. simpl.
  apply (f_equal (pair (Ok tt))). destruct st1; unfold upd_outbox; simpl.
  by rewrite <- !app_assoc.
Qed.

(** An operation that is not accepted only draws an [error_message]. *)
Lemma on_operation_not_accepted st socket id operation now :
  (∀ op, operation = Some op → ¬ accepted st socket id op) →
  ∃ message, on_operation socket id operation now st = (Ok tt, refused socket message st).
Proof.
  intros Hnot. unfold on_operation, tryCatch, findById, gets.
  unfold mbind, M_bind.
  destruct (documents st !! id) as [doc|] eqn:Hdoc; simpl; [|by eexists].
  destruct (canEdit doc (user_id (socket_user socket))) eqn:Hedit; simpl;
    [|by eexists].
  destruct (checkOperation operation) as [message|op'] eqn:Hcheck; [by eexists|].
  exfalso. destruct operation as [op|]; [|done].
  assert (op' = op) as ->.
  { unfold checkOperation in Hcheck. repeat case_match; congruence. }
  eapply Hnot; [done|]. split; [eauto|done].
Qed.

Lemma editedDocument_role d top u now u' :
  getUserRole (editedDocument d top u now) u' = getUserRole d u'.
Proof.
  assert (Ho : doc_owner (editedDocument d top u now) = doc_owner d)
    by (unfold editedDocument, pushVersionSnapshot; simpl; by case_match).
  assert (Hs : doc_sharedWith (editedDocument d top u now) = doc_sharedWith d)
    by (unfold editedDocument, pushVersionSnapshot; simpl; by case_match).
  unfold getUserRole. by rewrite Ho, Hs.
Qed.

Lemma editedDocument_canEdit d top u now u' :
  canEdit (editedDocument d top u now) u' = canEdit d u'.
Proof. unfold canEdit. by rewrite editedDocument_role. Qed.

(** The state the handler leaves after an accepted operation whose
    transformation is not a noop ... *)
Lemma on_operation_applied st socket id op now doc top :
  documents st !! id = Some doc →
  canEdit doc (user_id (socket_user socket)) = true →
  checkOperation (Some op) = inr op →
  transformMissed doc (bufferOf st id) op = Ok top →
  op_type top ≠ "noop" →
  run (on_operation socket id (Some op) now) st =
    acknowledged socket id top (doc_version doc + 1)
      (upd_operationBuffers
         <[id := trimBuffer (bufferOf st id ++ [mkEntry (doc_version doc + 1) top])]>
         (upd_documents
            <[id := editedDocument doc top (user_id (socket_user socket)) now]>
            (withBuffer st id))).
Proof.
  intros Hdoc Hedit Hcheck Htop Hnoop. unfold run.
  rewrite on_operation_accepted by (split; eauto).
  rewrite (processOperation_found _ _ _ _ _ _ Hdoc), Htop.
  destruct (decide (op_type top = "noop")); [done|].
  cbv zeta. by rewrite editedDocument_version.
Qed.

(** ... and after one whose transformation is a noop. *)
Lemma on_operation_noop st socket id op now doc top :
  documents st !! id = Some doc →
  canEdit doc (user_id (socket_user socket)) = true →
  checkOperation (Some op) = inr op →
  transformMissed doc (bufferOf st id) op = Ok top →
  op_type top = "noop" →
  run (on_operation socket id (Some op) now) st =
    acknowledged socket id top (doc_version doc) (withBuffer st id).
Proof.
  intros Hdoc Hedit Hcheck Htop Hnoop. unfold run.
  rewrite on_operation_accepted by (split; eauto).
  rewrite (processOperation_found _ _ _ _ _ _ Hdoc), Htop.
  by destruct (decide (op_type top = "noop")).
Qed.

(** ** A base version ahead of the document *)

(** C1, as the code has it. A call whose operation carries a base version
    above the document's is not rejected: the operation is taken without
    transformation and, unless its type is noop, applied to the content; the
    version is raised by 1, and the pair (new version, operation) is appended
    to the buffer and returned for the ack. *)
Theorem processOperation_future_baseVersion
  (st : Server) (id : string) (op : Operation) (u : string) (now : Z)
  (doc : Document) :
  documents st !! id = Some doc →
  ngtb (op_baseVersion op) (Some (doc_version doc)) = true →
  transformMissed doc (bufferOf st id) op = Ok op
  ∧ (op_type op = "noop" →
     processOperation id op u now st = (Ok (doc, op, doc_version doc), withBuffer st id))
  ∧ (op_type op ≠ "noop" →
     ∃ doc' st',
       processOperation id op u now st = (Ok (doc', op, doc_version doc + 1), st')
       ∧ documents st' !! id = Some doc'
       ∧ doc_content doc' = applyOperation (doc_content doc) op
       ∧ doc_version doc' = doc_version doc + 1
       ∧ bufferOf st' id =
           trimBuffer (bufferOf st id ++ [mkEntry (doc_version doc + 1) op])).
Proof.
  intros Hdoc Hgt.
  assert (Htop : transformMissed doc (bufferOf st id) op = Ok op)
    by (apply transformMissed_current; by apply nltb_irrefl_ge).
  split; [done|].
  rewrite (processOperation_found _ _ _ _ _ _ Hdoc), Htop.
  split; intros Hty; destruct (decide (op_type op = "noop")); try done.
  eexists _, _. cbv zeta. rewrite editedDocument_version.
  split; [reflexivity|].
  split; [simpl; by rewrite lookup_insert_eq|].
  split; [apply editedDocument_content|].
  split; [apply editedDocument_version|].
  unfold bufferOf at 1. simpl. by rewrite lookup_insert_eq.
Qed.

Lemma processOperation_future_baseVersion_witness :
  ∃ doc' st',
    processOperation "d" (insertOp 1 "B" 5) "u1" 100 (sampleServer "AC")
    = (Ok (doc', insertOp 1 "B" 5, 2), st')
    ∧ documents st' !! "d" = Some doc'
    ∧ doc_content doc' = "ABC"
    ∧ bufferOf st' "d" = [mkEntry 2 (insertOp 1 "B" 5)].
Proof.
  destruct (processOperation_future_baseVersion (sampleServer "AC") "d"
              (insertOp 1 "B" 5) "u1" 100 (sampleDocument "AC") eq_refl eq_refl)
    as (_ & _ & H).
  destruct (H ltac:(discriminate)) as (doc' & st' & H1 & H2 & H3 & _ & H5).
  exists doc', st'. repeat split; assumption.
Defined.

(** C1, as the specification states it, fails: with the document at version
    1, an insert that carries base version 5 is not rejected. The call
    returns, the content goes from ["AC"] to ["ABC"], the version to 2, the
    operation with its base version 5 enters the buffer, and the handler
    acknowledges it. *)
Lemma future_baseVersion_not_rejected :
  let op := insertOp 1 "B" 5 in
  let st := sampleServer "AC" in
  let st' := run (on_operation alice "d" (Some op) 100) st in
  let doc' :=
    mkDocument "Notes" "ABC" "u1" [mkShare "u2" "editor"] 2
      [mkVersionEntry 1 "AC" "u1" 100] in
  documents st !! "d" = Some (sampleDocument "AC")
  ∧ ngtb (op_baseVersion op) (Some (doc_version (sampleDocument "AC"))) = true
  ∧ (processOperation "d" op "u1" 100 st).1 = Ok (doc', op, 2)
  ∧ (∀ e, (processOperation "d" op "u1" 100 st).1 ≠ Throw e)
  ∧ documents st' !! "d" = Some doc'
  ∧ bufferOf st' "d" = [mkEntry 2 op]
  ∧ outbox st' =
      [(ToSocket "s1", operation_ack op 2 "u1");
       (ToRoomExcept "doc:d" "s1", remote_operation op 2 "u1" "alice");
       (ToRedis "doc:d" "srv", remote_operation op 2 "u1" "alice")].
Proof. cbv zeta. split_and!; try (vm_compute; reflexivity). by intros e. Qed.

(** ** Scenarios *)

(** The server after an accepted, non-noop operation on an empty buffer. *)
Lemma processOperation_first st id op u now doc :
  documents st !! id = Some doc →
  bufferOf st id = [] →
  nltb (op_baseVersion op) (Some (doc_version doc)) = false →
  op_type op ≠ "noop" →
  ∃ st',
    processOperation id op u now st
    = (Ok (editedDocument doc op u now, op, doc_version doc + 1), st')
    ∧ documents st' !! id = Some (editedDocument doc op u now)
    ∧ bufferOf st' id = [mkEntry (doc_version doc + 1) op]
    ∧ outbox st' = outbox st.
Proof.
  intros Hdoc Hbuf Hcur Hnoop.
  rewrite (processOperation_found _ _ _ _ _ _ Hdoc), Hbuf.
  rewrite transformMissed_current by done.
  destruct (decide (op_type op = "noop")); [done|].
  eexists. cbv zeta. rewrite editedDocument_version.
  split; [reflexivity|].
  split; [simpl; by rewrite lookup_insert_eq|].
  split; [unfold bufferOf; simpl; by rewrite lookup_insert_eq|].
  simpl. apply withBuffer_outbox.
Qed.

(** C3. An insert is shifted right by the length of a server-accepted insert
    at the same or an earlier position; and scenario S1: on ["AC"] at
    version 1, after the insert of ["B"] at 1 (["ABC"], version 2), the
    insert of ["X"] at 1 with base version 1 is moved to position 2 and
    gives ["ABXC"] at version 3. *)
Theorem concurrent_inserts_same_position :
  (∀ (a b : Operation) (pa pb : Z) (t : string),
     op_type a = "insert" → op_type b = "insert" →
     op_position a = Some pa → op_position b = Some pb → op_text b = Some t →
     pb ≤ pa →
     transformOperation a b = Ok (set_position a (Some (pa + strlen t))))
  ∧ (∀ (st : Server) (id : string) (doc : Document) (u1 u2 : string) (now1 now2 : Z),
       documents st !! id = Some doc →
       doc_content doc = "AC" → doc_version doc = 1 → bufferOf st id = [] →
       ∃ doc1 st1 doc2 st2,
         processOperation id (insertOp 1 "B" 1) u1 now1 st
         = (Ok (doc1, insertOp 1 "B" 1, 2), st1)
         ∧ documents st1 !! id = Some doc1
         ∧ doc_content doc1 = "ABC" ∧ doc_version doc1 = 2
         ∧ processOperation id (insertOp 1 "X" 1) u2 now2 st1
           = (Ok (doc2, insertOp 2 "X" 1, 3), st2)
         ∧ documents st2 !! id = Some doc2
         ∧ doc_content doc2 = "ABXC" ∧ doc_version doc2 = 3).
Proof.
  split.
  - intros a b pa pb t Ha Hb Hpa Hpb Ht Hle.
    rewrite transform_insert_insert by done.
    rewrite Hpa, Hpb, nleb_Some. unfold text_length. rewrite Ht.
    by destruct (Z.leb_spec pb pa); [|lia].
  - intros st id doc u1 u2 now1 now2 Hdoc Hcontent Hversion Hbuf.
    destruct (processOperation_first st id (insertOp 1 "B" 1) u1 now1 doc)
      as (st1 & Hrun1 & Hdoc1 & Hbuf1 & _); [done|done| |done|].
    { by rewrite Hversion. }
    set (doc1 := editedDocument doc (insertOp 1 "B" 1) u1 now1) in *.
    assert (Hv1 : doc_version doc1 = 2)
      by (unfold doc1; rewrite editedDocument_version, Hversion; done).
    assert (Hc1 : doc_content doc1 = "ABC")
      by (unfold doc1; rewrite editedDocument_content, Hcontent; done).
    assert (Htop : transformMissed doc1 (bufferOf st1 id) (insertOp 1 "X" 1)
                   = Ok (insertOp 2 "X" 1)).
    { rewrite Hbuf1, Hversion. unfold transformMissed. by rewrite Hv1. }
    pose proof (processOperation_found st1 id (insertOp 1 "X" 1) u2 now2 doc1 Hdoc1)
      as Hrun2.
    rewrite Htop in Hrun2. cbv zeta in Hrun2.
    destruct (decide (op_type (insertOp 2 "X" 1) = "noop")); [done|].
    rewrite editedDocument_version, Hv1 in Hrun2.
    rewrite Hversion in Hrun1.
    eexists _, _, _, _.
    split; [exact Hrun1|]. split; [done|]. split; [done|]. split; [done|].
    split; [exact Hrun2|].
    split; [simpl; by rewrite lookup_insert_eq|].
    split; [by rewrite editedDocument_content, Hc1|].
    by rewrite editedDocument_version, Hv1.
Qed.

Lemma concurrent_inserts_same_position_witness :
  transformOperation (insertOp 1 "X" 1) (insertOp 1 "B" 1) = Ok (insertOp 2 "X" 1)
  ∧ ∃ doc1 st1 doc2 st2,
      processOperation "d" (insertOp 1 "B" 1) "u1" 100 (sampleServer "AC")
      = (Ok (doc1, insertOp 1 "B" 1, 2), st1)
      ∧ documents st1 !! "d" = Some doc1
      ∧ doc_content doc1 = "ABC" ∧ doc_version doc1 = 2
      ∧ processOperation "d" (insertOp 1 "X" 1) "u2" 101 st1
        = (Ok (doc2, insertOp 2 "X" 1, 3), st2)
      ∧ documents st2 !! "d" = Some doc2
      ∧ doc_content doc2 = "ABXC" ∧ doc_version doc2 = 3.
Proof.
  split.
  - exact (proj1 concurrent_inserts_same_position (insertOp 1 "X" 1)
             (insertOp 1 "B" 1) 1 1 "B" eq_refl eq_refl eq_refl eq_refl eq_refl
             ltac:(lia)).
  - exact (proj2 concurrent_inserts_same_position (sampleServer "AC") "d"
             (sampleDocument "AC") "u1" "u2" 100 101 eq_refl eq_refl eq_refl eq_refl).
Defined.

(** C4. Scenario S3: on ["ABCDE"] at version 1, after the accepted delete of
    3 units at 1 (["AE"], version 2), the delete of 2 units at 2 with base
    version 1 is transformed to a noop of length 0; the documents stay as
    they are, at version 2 with ["AE"], and the sender's ack carries the noop
    and version 2. *)
Theorem overlapping_delete_collapses
  (st : Server) (id : string) (doc : Document) (s1 s2 : Socket) (now1 now2 : Z) :
  documents st !! id = Some doc →
  doc_content doc = "ABCDE" → doc_version doc = 1 → bufferOf st id = [] →
  canEdit doc (user_id (socket_user s1)) = true →
  canEdit doc (user_id (socket_user s2)) = true →
  let st1 := run (on_operation s1 id (Some (deleteOp 1 3 1)) now1) st in
  let st2 := run (on_operation s2 id (Some (deleteOp 2 2 1)) now2) st1 in
  (∃ doc1, documents st1 !! id = Some doc1
           ∧ doc_content doc1 = "AE" ∧ doc_version doc1 = 2)
  ∧ transformOperation (deleteOp 2 2 1) (deleteOp 1 3 1) = Ok noopAt1
  ∧ op_type noopAt1 = "noop" ∧ op_length noopAt1 = Some 0
  ∧ documents st2 = documents st1
  ∧ bufferOf st2 id = bufferOf st1 id
  ∧ outbox st2 =
      outbox st1 ++
      [(ToSocket (socket_id s2),
        operation_ack noopAt1 2 (user_id (socket_user s2)));
       (ToRoomExcept (roomOf id) (socket_id s2),
        remote_operation noopAt1 2 (user_id (socket_user s2))
          (user_username (socket_user s2)));
       (ToRedis (roomOf id) (SERVER_ID st),
        remote_operation noopAt1 2 (user_id (socket_user s2))
          (user_username (socket_user s2)))].
Proof.
  intros Hdoc Hcontent Hversion Hbuf Hedit1 Hedit2 st1 st2.
  set (u1 := user_id (socket_user s1)) in *.
  set (doc1 := editedDocument doc (deleteOp 1 3 1) u1 now1).
  assert (Hst1 : st1 =
    acknowledged s1 id (deleteOp 1 3 1) 2
      (upd_operationBuffers <[id := [mkEntry 2 (deleteOp 1 3 1)]]>
         (upd_documents <[id := doc1]> (withBuffer st id)))).
  { unfold st1.
    rewrite (on_operation_applied st s1 id _ now1 doc (deleteOp 1 3 1));
      [by rewrite Hbuf, Hversion | done | done | done | | done].
    apply transformMissed_current. by rewrite Hversion. }
  assert (Hdoc1 : documents st1 !! id = Some doc1)
    by (rewrite Hst1; simpl; by rewrite lookup_insert_eq).
  assert (Hbuf1 : bufferOf st1 id = [mkEntry 2 (deleteOp 1 3 1)])
    by (rewrite Hst1; unfold bufferOf; simpl; by rewrite lookup_insert_eq).
  assert (Hv1 : doc_version doc1 = 2)
    by (unfold doc1; by rewrite editedDocument_version, Hversion).
  assert (Hst2 : st2 = acknowledged s2 id noopAt1 2 (withBuffer st1 id)).
  { unfold st2.
    rewrite (on_operation_noop st1 s2 id _ now2 doc1 noopAt1);
      [by rewrite Hv1 | done | | done | | done].
    - unfold doc1. by rewrite editedDocument_canEdit.
    - rewrite Hbuf1. unfold transformMissed. by rewrite Hv1. }
  split.
  { exists doc1. split; [done|]. split; [|done].
    unfold doc1. by rewrite editedDocument_content, Hcontent. }
  split; [done|]. split; [done|]. split; [done|].
  split; [rewrite Hst2; simpl; apply withBuffer_documents|].
  split; [rewrite Hst2; apply (withBuffer_bufferOf st1 id id)|].
  rewrite Hst2, acknowledged_outbox, withBuffer_outbox.
  do 4 f_equal. rewrite withBuffer_SERVER_ID, Hst1. simpl.
  by rewrite withBuffer_SERVER_ID.
Qed.

Lemma overlapping_delete_collapses_witness :
  let st2 := run (on_operation bob "d" (Some (deleteOp 2 2 1)) 101) serverAE in
  documents st2 = documents serverAE
  ∧ documents serverAE !! "d" = Some documentAE
  ∧ outbox st2 =
      outbox serverAE ++
      [(ToSocket "s2", operation_ack noopAt1 2 "u2");
       (ToRoomExcept "doc:d" "s2", remote_operation noopAt1 2 "u2" "bob");
       (ToRedis "doc:d" "srv", remote_operation noopAt1 2 "u2" "bob")].
Proof.
  destruct (overlapping_delete_collapses (sampleServer "ABCDE") "d"
              (sampleDocument "ABCDE") alice bob 100 101
              eq_refl eq_refl eq_refl eq_refl eq_refl eq_refl)
    as (_ & _ & _ & _ & Hdocs & _ & Hout).
  split; [exact Hdocs|]. split; [reflexivity|]. exact Hout.
Defined.

Lemma on_operation_refused st socket id operation now :
  (∀ op, operation = Some op → ¬ accepted st socket id op) →
  ∃ message, run (on_operation socket id operation now) st = refused socket message st.
Proof.
  intros Hnot.
  destruct (on_operation_not_accepted st socket id operation now Hnot) as [m Hm].
  exists m. unfold run. by rewrite Hm.
Qed.

(** ** The length of a delete *)

Lemma checkOperation_inr operation op :
  checkOperation operation = inr op → operation = Some op.
Proof.
  unfold checkOperation. destruct operation as [o|]; [|done].
  repeat case_match; congruence.
Qed.

(** C7. The handler does not hold what the claim asks for: a delete of
    length -1 is below 1, yet the guard [!operation.length] lets it pass.
    The handler sends no [error_message], hands the delete to
    [processOperation] and acknowledges it, and the document changes
    (["ABC"] becomes ["AABC"], version 2). *)
Lemma negative_length_delete_accepted :
  let op := deleteOp 1 (-1) 1 in
  let st := sampleServer "ABC" in
  let st' := run (on_operation alice "d" (Some op) 100) st in
  op_type op = "delete" ∧ op_length op = Some (-1) ∧ -1 < 1
  ∧ accepted st alice "d" op
  ∧ documents st !! "d" = Some (sampleDocument "ABC")
  ∧ documents st' !! "d" =
      Some (mkDocument "Notes" "AABC" "u1" [mkShare "u2" "editor"] 2
              [mkVersionEntry 1 "ABC" "u1" 100])
  ∧ documents st' !! "d" ≠ documents st !! "d"
  ∧ outbox st' =
      [(ToSocket "s1", operation_ack op 2 "u1");
       (ToRoomExcept "doc:d" "s1", remote_operation op 2 "u1" "alice");
       (ToRedis "doc:d" "srv", remote_operation op 2 "u1" "alice")].
Proof.
  cbv zeta. split_and!; try (vm_compute; reflexivity); try lia.
  - split; [exists (sampleDocument "ABC"); split; reflexivity | reflexivity].
  - vm_compute. discriminate.
Qed.

(** ** Editing without joining *)

(** C10. The [operation] handler does not ask whether the session joined the
    document. For a session whose user may edit and whose socket is neither
    in the document's room nor in its active-user map, a well-formed
    operation that does not transform to a noop is processed: the document is
    saved with the operation applied and the version raised by 1, and the
    [operation_ack] goes back to that socket. The session is still in
    neither afterwards. *)
Theorem operation_without_join
  (st : Server) (socket : Socket) (id : string) (op : Operation) (now : Z)
  (doc : Document) (top : Operation) :
  let uid := user_id (socket_user socket) in
  documents st !! id = Some doc →
  canEdit doc uid = true →
  checkOperation (Some op) = inr op →
  ¬ inRoom st (roomOf id) (socket_id socket) →
  jsMap_get (default [] (activeUsers st !! id)) uid = None →
  transformMissed doc (bufferOf st id) op = Ok top →
  op_type top ≠ "noop" →
  let st' := run (on_operation socket id (Some op) now) st in
  ∃ doc',
    documents st' !! id = Some doc'
    ∧ doc_content doc' = applyOperation (doc_content doc) top
    ∧ doc_version doc' = doc_version doc + 1
    ∧ (ToSocket (socket_id socket), operation_ack top (doc_version doc + 1) uid)
        ∈ outbox st'
    ∧ ¬ inRoom st' (roomOf id) (socket_id socket)
    ∧ jsMap_get (default [] (activeUsers st' !! id)) uid = None.
Proof.
  intros uid Hdoc Hedit Hcheck Hroom Husers Htop Hnoop st'.
  unfold st'. rewrite (on_operation_applied st socket id op now doc top) by done.
  exists (editedDocument doc top uid now).
  split; [simpl; by rewrite lookup_insert_eq|].
  split; [apply editedDocument_content|].
  split; [apply editedDocument_version|].
  split.
  { rewrite acknowledged_outbox. apply elem_of_app. right. apply list_elem_of_here. }
  unfold inRoom. simpl. by rewrite withBuffer_rooms, withBuffer_activeUsers.
Qed.

Lemma operation_without_join_witness :
  let st' := run (on_operation bob "d" (Some (insertOp 1 "B" 1)) 100) (sampleServer "AC") in
  ∃ doc',
    documents st' !! "d" = Some doc'
    ∧ doc_content doc' = "ABC"
    ∧ doc_version doc' = 2
    ∧ (ToSocket "s2", operation_ack (insertOp 1 "B" 1) 2 "u2") ∈ outbox st'.
Proof.
  destruct (operation_without_join (sampleServer "AC") bob "d" (insertOp 1 "B" 1) 100
              (sampleDocument "AC") (insertOp 1 "B" 1)
              eq_refl eq_refl eq_refl (not_elem_of_empty (C := gset string) "s2")
              eq_refl eq_refl ltac:(discriminate))
    as (doc' & H1 & H2 & H3 & H4 & _).
  exists doc'. repeat split; assumption.
Defined.

(** What joining establishes, and the handler above never asks for. *)
Lemma jsMap_get_set {V} (m : jsMap V) k v : jsMap_get (jsMap_set m k v) k = Some v.
Proof.
  unfold jsMap_get. induction m as [|[k' v'] m IH]; simpl.
  - by rewrite bool_decide_true.
  - destruct (decide (k' = k)) as [->|Hne]; simpl.
    + by rewrite bool_decide_true.
    + by rewrite bool_decide_false.
Qed.

Lemma join_document_joins st socket id now doc :
  let uid := user_id (socket_user socket) in
  documents st !! id = Some doc →
  canRead doc uid = true →
  let st' := run (join_document socket id now) st in
  inRoom st' (roomOf id) (socket_id socket)
  ∧ is_Some (jsMap_get (default [] (activeUsers st' !! id)) uid).
Proof.
  intros uid Hdoc Hread st'. unfold canRead in Hread.
  destruct (getUserRole doc uid) as [role|] eqn:Hrole; [|done].
  apply bool_decide_eq_true in Hread.
  assert (Hfalsy : falsy_str (Some role) = false).
  { simpl. apply bool_decide_eq_false. intros ->.
    unfold READ_ROLES in Hread. rewrite !elem_of_cons, elem_of_nil in Hread.
    destruct Hread as [?|[?|[?|[?|[]]]]]; discriminate. }
  unfold st', run, join_document, tryCatch, getDocumentWithAccess, findById, gets,
    getDocumentUsers, get, emit, modify, throw, mbind, M_bind, mret, M_ret.
  rewrite Hdoc. fold uid. rewrite Hrole, Hfalsy. simpl.
  unfold inRoom.
  destruct (activeUsers st !! id) as [users|] eqn:Husers; simpl;
    rewrite !lookup_insert_eq; simpl;
    (split; [apply elem_of_union_r, elem_of_singleton; reflexivity|]).
  - rewrite jsMap_get_set. by eexists.
  - change (is_Some (jsMap_get (jsMap_set [] uid
              (mkUserData uid (user_username (socket_user socket)) role now)) uid)).
    rewrite jsMap_get_set. by eexists.
Qed.

(** ** Operations as objects: what [transformOperation] writes *)

Section store.
Context (h : heap) (t : nat).
Implicit Types (x o : Operation) (l : nat).

Lemma read_insert_ne x l o :
  l ≠ t → h !! l = Some o → read l (<[t := x]> h) = (Ok o, <[t := x]> h).
Proof. intros Hne Hl. unfold read. by rewrite lookup_insert_ne, Hl. Qed.

Lemma field_insert_ne {A} (f : Operation → A) x l o :
  l ≠ t → h !! l = Some o → field f l (<[t := x]> h) = (Ok (f o), <[t := x]> h).
Proof.
  intros Hne Hl. unfold field, mbind, M_bind. by rewrite (read_insert_ne x l o).
Qed.

Lemma field_insert_eq {A} (f : Operation → A) x :
  field f t (<[t := x]> h) = (Ok (f x), <[t := x]> h).
Proof. unfold field, read, mbind, M_bind. by rewrite lookup_insert_eq. Qed.

Lemma assign_insert x f :
  assign t f (<[t := x]> h) = (Ok tt, <[t := f x]> h).
Proof. unfold assign, modify. by rewrite alter_insert_eq. Qed.

Lemma fresh_ne l o : h !! l = Some o → l ≠ fresh (dom h).
Proof.
  intros Hl ->. apply (is_fresh (dom h)). by eapply elem_of_dom_2.
Qed.

Lemma fresh_None : h !! fresh (dom h) = None.
Proof. apply not_elem_of_dom, is_fresh. Qed.

End store.

(** One step of the store-level code on a store [<[t := x]> h]. *)
Ltac heap_step a b opA opB :=
  first
    [ rewrite field_insert_eq
    | rewrite (field_insert_ne _ _ _ _ a opA) by done
    | rewrite (field_insert_ne _ _ _ _ b opB) by done
    | rewrite (read_insert_ne _ _ _ b opB) by done
    | rewrite assign_insert ];
  cbn beta iota.

(** The store-level code computes [transformOperation] on the contents of its
    arguments, into a fresh object, and writes nothing else. *)
Lemma transformOperationRef_spec (h : heap) a b opA opB :
  h !! a = Some opA → h !! b = Some opB →
  transformOperationRef a b h =
    match transformOperation opA opB with
    | Ok o => (Ok (fresh (dom h)), <[fresh (dom h) := o]> h)
    | Throw e => (Throw e, <[fresh (dom h) := opA]> h)
    end.
Proof.
  intros Ha Hb.
  pose proof (fresh_ne h a opA Ha) as Hat.
  pose proof (fresh_ne h b opB Hb) as Hbt.
  unfold transformOperationRef, transformOperation.
  unfold mbind at 1. unfold M_bind at 1. unfold read at 1. rewrite Ha.
  unfold mbind at 1. unfold M_bind at 1. unfold spread.
  generalize dependent (fresh (dom h)). intros t Hat Hbt.
  unfold mbind, M_bind, result_bind, mret, M_ret, liftR.
  repeat heap_step a b opA opB.
  destruct (decide (op_type opA = "insert" ∧ op_type opB = "insert")) as [[??]|?];
  destruct (decide (op_type opA = "insert" ∧ op_type opB = "delete")) as [[??]|?];
  destruct (decide (op_type opA = "delete" ∧ op_type opB = "insert")) as [[??]|?];
  destruct (decide (op_type opA = "delete" ∧ op_type opB = "delete")) as [[??]|?];
  try congruence;
  repeat
    (repeat
       first [ heap_step a b opA opB
             | rewrite decide_True by done
             | rewrite decide_False by done ];
     cbn beta iota zeta; cbn [op_length op_position set_position set_length];
     try match goal with
     | |- context [nleb (op_position opB) (op_position opA)] =>
         destruct (nleb (op_position opB) (op_position opA))
     | |- context [nltb (op_position opB) (op_position opA)] =>
         destruct (nltb (op_position opB) (op_position opA))
     | |- context [text_length opB] => destruct (text_length opB)
     | |- context [ngeb ?x ?y] => destruct (ngeb x y)
     | |- context [nleb ?x ?y] => destruct (nleb x y)
     end;
     cbn beta iota; cbn [op_length op_position set_position set_length]);
  reflexivity.
Qed.

(** The loop over the buffered objects computes [transformLoop] on their
    contents and only adds objects to the store. *)
Lemma transformLoopRef_spec missed :
  ∀ (h : heap) t o (buffer : list BufferEntry),
    h !! t = Some o →
    Forall2 (λ l entry, h !! l = Some (entry_operation entry)) missed buffer →
    ∃ h', h ⊆ h' ∧
      match transformLoop o buffer with
      | Ok o' => ∃ t', transformLoopRef t missed h = (Ok t', h') ∧ h' !! t' = Some o'
      | Throw e => transformLoopRef t missed h = (Throw e, h')
      end.
Proof.
  induction missed as [|l missed IH]; intros h t o buffer Ht Hall.
  - apply Forall2_nil_inv_l in Hall as ->. exists h. split; [done|].
    simpl. by exists t.
  - apply Forall2_cons_inv_l in Hall as (entry & buffer' & Hl & Hrest & ->).
    assert (Hstep : transformLoopRef t (l :: missed) h =
      match transformOperation o (entry_operation entry) with
      | Ok o1 =>
          if decide (op_type o1 = "noop")
          then (Ok (fresh (dom h)), <[fresh (dom h) := o1]> h)
          else transformLoopRef (fresh (dom h)) missed (<[fresh (dom h) := o1]> h)
      | Throw e => (Throw e, <[fresh (dom h) := o]> h)
      end).
    { cbn [transformLoopRef]. unfold mbind, M_bind.
      rewrite (transformOperationRef_spec h t l o (entry_operation entry)) by done.
      destruct (transformOperation o (entry_operation entry)) as [o1|e]; [|done].
      rewrite field_insert_eq. by destruct (decide (op_type o1 = "noop")). }
    rewrite Hstep. cbn [transformLoop].
    destruct (transformOperation o (entry_operation entry)) as [o1|e];
      cbn [mbind result_bind].
    + destruct (decide (op_type o1 = "noop")) as [Hnoop|Hnoop].
      * eexists. split; [apply insert_subseteq, fresh_None|].
        eexists. split; [reflexivity|]. by rewrite lookup_insert_eq.
      * destruct (IH (<[fresh (dom h) := o1]> h) (fresh (dom h)) o1 buffer')
          as (h' & Hsub & Hres).
        { by rewrite lookup_insert_eq. }
        { eapply Forall2_impl; [exact Hrest|]. intros l' e' Hl'. simpl in *.
          eapply lookup_weaken; [exact Hl'|]. apply insert_subseteq, fresh_None. }
        exists h'. split; [|exact Hres].
        etrans; [|exact Hsub]. apply insert_subseteq, fresh_None.
    + eexists. split; [apply insert_subseteq, fresh_None|]. reflexivity.
Qed.

(** C9. [transformOperation] builds its result in a fresh object and writes
    to no other: after the call both arguments, and every object the store
    held, are as they were, and the new object holds the transformed
    operation. The same holds for the whole loop of [processOperation] over
    the buffered operations: the objects of the buffer keep their contents. *)
Theorem transformOperation_writes_only_its_copy :
  (∀ (h : heap) (a b : nat) (opA opB : Operation),
     h !! a = Some opA → h !! b = Some opB →
     ∃ r h',
       transformOperationRef a b h = (r, h')
       ∧ h' !! a = Some opA ∧ h' !! b = Some opB
       ∧ (∀ l o, h !! l = Some o → h' !! l = Some o)
       ∧ match r with
         | Ok t =>
             h !! t = None
             ∧ ∃ o, transformOperation opA opB = Ok o ∧ h' !! t = Some o
         | Throw e => transformOperation opA opB = Throw e
         end)
  ∧ (∀ (h : heap) (t : nat) (o : Operation) (missed : list nat)
       (buffer : list BufferEntry),
       h !! t = Some o →
       Forall2 (λ l entry, h !! l = Some (entry_operation entry)) missed buffer →
       let h' := run (transformLoopRef t missed) h in
       Forall2 (λ l entry, h' !! l = Some (entry_operation entry)) missed buffer
       ∧ (∀ l o, h !! l = Some o → h' !! l = Some o)).
Proof.
  split.
  - intros h a b opA opB Ha Hb.
    rewrite (transformOperationRef_spec h a b opA opB) by done.
    pose proof (fresh_None h) as Hfresh.
    assert (Hframe : ∀ x l o, h !! l = Some o → <[fresh (dom h) := x]> h !! l = Some o).
    { intros x l o Hl. eapply lookup_weaken; [exact Hl|]. by apply insert_subseteq. }
    destruct (transformOperation opA opB) as [o|e]; eexists _, _;
      (split; [reflexivity|]); (split; [by apply Hframe|]);
      (split; [by apply Hframe|]); (split; [by apply Hframe|]).
    + split; [done|]. exists o. split; [done|]. by rewrite lookup_insert_eq.
    + done.
  - intros h t o missed buffer Ht Hall h'.
    destruct (transformLoopRef_spec missed h t o buffer Ht Hall) as (h1 & Hsub & Hres).
    assert (h' = h1) as ->.
    { unfold h', run. destruct (transformLoop o buffer).
      - destruct Hres as (t' & -> & _). done.
      - by rewrite Hres. }
    split.
    + eapply Forall2_impl; [exact Hall|]. intros l e Hl. simpl in *.
      by eapply lookup_weaken.
    + intros l o' Hl. by eapply lookup_weaken.
Qed.

Lemma transformOperation_writes_only_its_copy_witness :
  (∃ r h',
     transformOperationRef 0 1 sampleHeap = (r, h')
     ∧ h' !! 0%nat = Some (deleteOp 2 2 1) ∧ h' !! 1%nat = Some (deleteOp 1 3 1))
  ∧ run (transformLoopRef 0 [1%nat]) sampleHeap !! 1%nat = Some (deleteOp 1 3 1).
Proof.
  split.
  - destruct (proj1 transformOperation_writes_only_its_copy sampleHeap 0%nat 1%nat
                (deleteOp 2 2 1) (deleteOp 1 3 1) eq_refl eq_refl)
      as (r & h' & H1 & H2 & H3 & _).
    exists r, h'. repeat split; assumption.
  - refine (proj2 (proj2 transformOperation_writes_only_its_copy sampleHeap 0%nat
                     (deleteOp 2 2 1) [1%nat] [mkEntry 2 (deleteOp 1 3 1)] eq_refl _)
              1%nat (deleteOp 1 3 1) eq_refl).
    repeat constructor.
Defined.

(** ** Runs of the server: the buffers stay in order *)

(** What the [operation] handler can leave behind. *)
Lemma on_operation_cases st socket id operation now :
  let st' := run (on_operation socket id operation now) st in
  (∃ message, st' = refused socket message st)
  ∨ (∃ doc, documents st !! id = Some doc
       ∧ ((∃ message, st' = refused socket message (withBuffer st id))
          ∨ (∃ top, st' = acknowledged socket id top (doc_version doc) (withBuffer st id))
          ∨ (∃ top u,
               st' = acknowledged socket id top (doc_version doc + 1)
                 (upd_operationBuffers
                    <[id := trimBuffer
                              (bufferOf st id ++ [mkEntry (doc_version doc + 1) top])]>
                    (upd_documents <[id := editedDocument doc top u now]>
                       (withBuffer st id)))))).
Proof.
  intros st'. unfold st'.
  destruct (documents st !! id) as [doc|] eqn:Hdoc.
  2:{ left. apply on_operation_refused. intros op _ [(d & Hd & _) _]. congruence. }
  destruct (canEdit doc (user_id (socket_user socket))) eqn:Hedit.
  2:{ left. apply on_operation_refused.
      intros op _ [(d & Hd & Hed) _]. congruence. }
  destruct (checkOperation operation) as [message|op] eqn:Hcheck.
  { left. apply on_operation_refused. intros op -> [_ Hc]. congruence. }
  pose proof (checkOperation_inr _ _ Hcheck) as ->.
  right. exists doc. split; [done|]. unfold run.
  rewrite on_operation_accepted by (split; eauto).
  rewrite (processOperation_found _ _ _ _ _ _ Hdoc).
  destruct (transformMissed doc (bufferOf st id) op) as [top|e].
  - destruct (decide (op_type top = "noop")).
    + right. left. by exists top.
    + right. right. exists top, (user_id (socket_user socket)).
      cbv zeta. by rewrite editedDocument_version.
  - left. by eexists.
Qed.

Lemma join_document_frame socket id now st :
  documents (run (join_document socket id now) st) = documents st
  ∧ operationBuffers (run (join_document socket id now) st) = operationBuffers st.
Proof.
  unfold run, join_document, tryCatch, getDocumentWithAccess, findById, gets,
    getDocumentUsers, get, emit, modify, throw, mbind, M_bind, mret, M_ret.
  repeat (case_match; simplify_eq/=; try done).
Qed.

Lemma handleUserLeave_frame socket id st :
  documents (run (handleUserLeave socket id) st) = documents st
  ∧ (operationBuffers (run (handleUserLeave socket id) st) = operationBuffers st
     ∨ operationBuffers (run (handleUserLeave socket id) st)
       = delete id (operationBuffers st)).
Proof.
  unfold run, handleUserLeave, getDocumentUsers, clearBuffer, get, emit, modify,
    mbind, M_bind, mret, M_ret.
  repeat (case_match; simplify_eq/=; try done); split; auto.
Qed.

Lemma restoreVersion_frame u id version now st :
  operationBuffers (run (restoreVersion u id version now) st) = operationBuffers st
  ∧ (documents (run (restoreVersion u id version now) st) = documents st
     ∨ ∃ doc doc',
         documents st !! id = Some doc
         ∧ doc_version doc' = doc_version doc + 1
         ∧ documents (run (restoreVersion u id version now) st)
           = <[id := doc']> (documents st)).
Proof.
  unfold run, restoreVersion, getDocumentWithAccess, findById, gets, save, modify,
    throw, mbind, M_bind, mret, M_ret.
  destruct (documents st !! id) as [doc|] eqn:Hdoc; [|by auto].
  repeat (case_match; simplify_eq/=; try by auto).
  split; [done|]. right. eexists doc, _. split; [done|]. split; [|done].
  simpl. by rewrite pushVersionSnapshot_version.
Qed.

Lemma buffersOk_ext s s' :
  documents s' = documents s → operationBuffers s' = operationBuffers s →
  buffersOk s → buffersOk s'.
Proof. intros Hd Hb Hok id buffer. rewrite Hd, Hb. apply Hok. Qed.

Lemma buffersOk_withBuffer st id doc :
  documents st !! id = Some doc → buffersOk st → buffersOk (withBuffer st id).
Proof.
  intros Hdoc Hok id' buffer. unfold withBuffer.
  destruct (operationBuffers st !! id) eqn:Hbuf; [apply Hok|]. simpl.
  destruct (decide (id = id')) as [<-|Hne].
  - rewrite lookup_insert_eq. intros [= <-].
    split; [auto with buffers|]. split; [simpl; lia|].
    exists doc. auto with buffers.
  - rewrite lookup_insert_ne by done. apply Hok.
Qed.

Lemma buffersOk_bufferOf st id doc :
  documents st !! id = Some doc → buffersOk st →
  strictlyMonotone (bufferOf st id) ∧ versionsUpTo (doc_version doc) (bufferOf st id).
Proof.
  intros Hdoc Hok. unfold bufferOf.
  destruct (operationBuffers st !! id) as [buffer|] eqn:Hbuf; simpl.
  - destruct (Hok id buffer Hbuf) as (Hmono & _ & doc' & Hdoc' & Hup).
    by simplify_eq.
  - auto with buffers.
Qed.

(** One handled event keeps the buffers in order. *)
Lemma step_buffersOk s s' : step s s' → buffersOk s → buffersOk s'.
Proof.
  intros Hstep Hok. destruct Hstep as [socket id operation now|socket id now
    |socket id|u id version now].
  - destruct (on_operation_cases s socket id operation now)
      as [[message ->]|(doc & Hdoc & [[message ->]|[[top ->]|(top & u & ->)]])].
    + by apply (buffersOk_ext s).
    + apply (buffersOk_ext (withBuffer s id)); [done..|].
      by eapply buffersOk_withBuffer.
    + apply (buffersOk_ext (withBuffer s id)); [done..|].
      by eapply buffersOk_withBuffer.
    + destruct (buffersOk_bufferOf s id doc Hdoc Hok) as [Hmono Hup].
      destruct (buffer_push_invariant (doc_version doc) (bufferOf s id) top Hmono Hup)
        as [Hmono' Hup'].
      pose proof (buffersOk_withBuffer s id doc Hdoc Hok) as Hok1.
      intros id' buffer. simpl.
      destruct (decide (id = id')) as [<-|Hne].
      * rewrite !lookup_insert_eq. intros [= <-].
        split; [done|]. split; [apply trimBuffer_length|].
        eexists. split; [done|]. by rewrite editedDocument_version.
      * rewrite !lookup_insert_ne by done. apply Hok1.
  - destruct (join_document_frame socket id now s) as [Hd Hb].
    by apply (buffersOk_ext s).
  - destruct (handleUserLeave_frame socket id s) as [Hd [Hb|Hb]].
    + by apply (buffersOk_ext s).
    + intros id' buffer. rewrite Hd, Hb. intros Hl.
      apply lookup_delete_Some in Hl as [_ Hl]. by apply Hok.
  - destruct (restoreVersion_frame u id version now s)
      as [Hb [Hd|(doc & doc' & Hdoc & Hv & Hd)]].
    + by apply (buffersOk_ext s).
    + intros id' buffer. rewrite Hb, Hd. intros Hl.
      destruct (Hok id' buffer Hl) as (Hmono & Hlen & d & Hd' & Hup).
      split; [done|]. split; [done|].
      destruct (decide (id = id')) as [<-|Hne].
      * rewrite lookup_insert_eq. exists doc'. split; [done|].
        simplify_eq. eapply versionsUpTo_mono; [|done]. lia.
      * rewrite lookup_insert_ne by done. eauto.
Qed.

(** In every state a server reaches, each buffer is strictly increasing in
    version, within its bound, and below its document's version. *)
Lemma reachable_buffersOk s : reachable s → buffersOk s.
Proof.
  induction 1 as [s Hempty|s s' _ IH Hstep].
  - intros id buffer. by rewrite Hempty, lookup_empty.
  - by eapply step_buffersOk.
Qed.

(** [processOperation] is its three segments run one after the other. *)
Lemma processOperation_segments documentId operation userId now st :
  processOperation documentId operation userId now st
  = (found ← processOperation_find documentId;
     prepared ← processOperation_prepare found documentId operation userId now;
     processOperation_finish documentId prepared) st.
Proof.
  unfold processOperation, processOperation_find, processOperation_prepare,
    processOperation_finish, bufferOf, findById, getBuffer, save, gets, get, modify,
    throw, liftR, mbind, M_bind, mret, M_ret.
  destruct (documents st !! documentId) as [doc|]; [|done].
  destruct (operationBuffers st !! documentId) as [buffer|] eqn:Hb; simpl.
  - destruct (transformMissed doc buffer operation) as [top|e]; [|done].
    destruct (decide (op_type top = "noop")); [done|]. simpl. by rewrite Hb.
  - destruct (transformMissed doc [] operation) as [top|e]; [|done].
    destruct (decide (op_type top = "noop")); [done|]. simpl.
    by rewrite lookup_insert_eq.
Qed.




(** * Further properties *)

(** ** Strings *)

Lemma chars_append s1 s2 : chars (s1 +:+ s2) = chars s1 ++ chars s2.
Proof. unfold chars. induction s1 as [|a s1 IH]; simpl; [done|]. by rewrite IH. Qed.

Lemma chars_length s : length (chars s) = String.length s.
Proof. unfold chars. induction s as [|a s IH]; simpl; [done|]. by rewrite IH. Qed.

Lemma chars_inj s1 s2 : chars s1 = chars s2 → s1 = s2.
Proof.
  unfold chars. intros H.
  rewrite <- (String.string_of_list_ascii_of_string s1),
    <- (String.string_of_list_ascii_of_string s2). by rewrite H.
Qed.

Lemma chars_substring n m s :
  chars (String.substring n m s) = take m (drop n (chars s)).
Proof.
  unfold chars. revert n m. induction s as [|a s IH]; intros n m.
  - destruct n, m; reflexivity.
  - destruct n as [|n]; simpl.
    + destruct m as [|m]; simpl; [done|]. rewrite IH. by rewrite drop_0.
    + apply IH.
Qed.

Lemma strlen_chars s : strlen s = Z.of_nat (length (chars s)).
Proof. unfold strlen. by rewrite chars_length. Qed.

Lemma strlen_append s1 s2 : strlen (s1 +:+ s2) = strlen s1 + strlen s2.
Proof. rewrite !strlen_chars, chars_append, length_app. lia. Qed.

Lemma to_nat_strlen s : Z.to_nat (strlen s) = length (chars s).
Proof. rewrite strlen_chars. lia. Qed.

Lemma strlen_nonneg s : 0 ≤ strlen s.
Proof. unfold strlen. lia. Qed.

Lemma clamp_range len p : 0 ≤ len → 0 ≤ clamp len p ≤ len.
Proof. unfold clamp. lia. Qed.

(** [s.slice(0, p)] and [s.slice(p)] for an index inside the string. *)
Lemma chars_slice_prefix s p :
  0 ≤ p ≤ strlen s → chars (slice s (Some 0) (Some p)) = take (Z.to_nat p) (chars s).
Proof.
  intros Hp. unfold slice, relIndex, toInteger. cbn [from_option]. unfold id.
  rewrite chars_substring.
  destruct (Z.ltb_spec 0 0); [lia|]. destruct (Z.ltb_spec p 0); [lia|].
  replace (Z.to_nat (Z.min 0 (strlen s))) with 0%nat by lia.
  rewrite drop_0. f_equal. lia.
Qed.

Lemma chars_sliceFrom s p :
  0 ≤ p ≤ strlen s → chars (sliceFrom s (Some p)) = drop (Z.to_nat p) (chars s).
Proof.
  intros Hp. unfold sliceFrom, relIndex, toInteger. cbn [from_option]. unfold id.
  rewrite chars_substring. destruct (Z.ltb_spec p 0); [lia|].
  replace (Z.to_nat (Z.min p (strlen s))) with (Z.to_nat p) by lia.
  apply take_ge. rewrite length_drop. rewrite strlen_chars in *. lia.
Qed.

(** An index that is [NaN] counts as 0. *)
Lemma slice_prefix_NaN s : slice s (Some 0) None = "".
Proof.
  unfold slice, relIndex, toInteger. cbn [from_option]. unfold id.
  destruct (Z.ltb_spec 0 0); [lia|].
  replace (Z.to_nat (Z.max (Z.min 0 (strlen s) - Z.min 0 (strlen s)) 0)) with 0%nat by lia.
  apply chars_inj. by rewrite chars_substring.
Qed.

Lemma sliceFrom_NaN s : sliceFrom s None = s.
Proof.
  apply chars_inj. unfold sliceFrom, relIndex, toInteger. cbn [from_option]. unfold id.
  rewrite chars_substring. destruct (Z.ltb_spec 0 0); [lia|].
  replace (Z.to_nat (Z.min 0 (strlen s))) with 0%nat by (pose proof (strlen_nonneg s); lia).
  rewrite drop_0. apply take_ge. rewrite strlen_chars. lia.
Qed.

(** ** [applyOperation] *)

(** The content after an insert: the text sits at the clamped position (a
    position that is not a number counts as 0). *)
Lemma applyOperation_insert_chars c op :
  op_type op = "insert" →
  let k := Z.to_nat (clamp (strlen c) (default 0 (op_position op))) in
  chars (applyOperation c op)
  = take k (chars c) ++ chars (text_string op) ++ drop k (chars c).
Proof.
  intros Hty k. unfold applyOperation. rewrite Hty.
  destruct (decide ("insert" = "noop")) as [|_]; [done|].
  destruct (decide ("insert" = "insert")) as [_|]; [|done].
  pose proof (strlen_nonneg c) as Hlen.
  destruct (op_position op) as [p|]; cbn [nmax nmin lift2].
  - pose proof (clamp_range (strlen c) p Hlen) as Hk.
    rewrite !chars_append.
    rewrite (chars_slice_prefix c (Z.min (Z.max 0 p) (strlen c))) by (unfold clamp in Hk; lia).
    rewrite (chars_sliceFrom c (Z.min (Z.max 0 p) (strlen c))) by (unfold clamp in Hk; lia).
    done.
  - rewrite slice_prefix_NaN, sliceFrom_NaN, !chars_append.
    subst k. unfold clamp. cbn [default].
    replace (Z.to_nat (Z.min (Z.max 0 0) (strlen c))) with 0%nat by lia.
    by rewrite take_0, drop_0.
Qed.

(** The content after a delete of a length that is not negative: the units
    from the clamped position up to the clamped end are gone. *)
Lemma applyOperation_delete_chars c op p l :
  op_type op = "delete" → op_position op = Some p → op_length op = Some l →
  0 ≤ l →
  let k := clamp (strlen c) p in
  let stop := Z.min (k + l) (strlen c) in
  chars (applyOperation c op)
  = take (Z.to_nat k) (chars c) ++ drop (Z.to_nat stop) (chars c).
Proof.
  intros Hty Hp Hl Hl0 k stop. unfold applyOperation. rewrite Hty, Hp, Hl.
  destruct (decide ("delete" = "noop")) as [|_]; [done|].
  destruct (decide ("delete" = "insert")) as [|_]; [done|].
  destruct (decide ("delete" = "delete")) as [_|]; [|done].
  pose proof (strlen_nonneg c) as Hlen.
  pose proof (clamp_range (strlen c) p Hlen) as Hk.
  cbn [nmax nmin nadd lift2]. rewrite chars_append.
  rewrite chars_slice_prefix by (unfold clamp in Hk; lia).
  rewrite chars_sliceFrom by (unfold clamp in Hk; lia).
  done.
Qed.

Lemma strlen_applyOperation_insert c op t :
  op_type op = "insert" → op_text op = Some t →
  strlen (applyOperation c op) = strlen c + strlen t.
Proof.
  intros Hty Ht. rewrite (strlen_chars (applyOperation c op)).
  rewrite applyOperation_insert_chars by done.
  unfold text_string. rewrite Ht. cbn [default from_option]. unfold id.
  rewrite !length_app, length_take, length_drop, !strlen_chars. lia.
Qed.

(** ** Strings from their units *)

Lemma chars_unchars l : chars (string_of_list_ascii l) = l.
Proof. apply list_ascii_of_string_of_list_ascii. Qed.

(** A string cut at a position inside it. *)
Lemma string_cut (c : string) (k : Z) :
  0 ≤ k ≤ strlen c →
  ∃ before after,
    c = before +:+ after ∧ strlen before = k
    ∧ chars before = take (Z.to_nat k) (chars c)
    ∧ chars after = drop (Z.to_nat k) (chars c).
Proof.
  intros Hk.
  exists (string_of_list_ascii (take (Z.to_nat k) (chars c))),
    (string_of_list_ascii (drop (Z.to_nat k) (chars c))).
  split_and!.
  - apply chars_inj. by rewrite chars_append, !chars_unchars, take_drop.
  - rewrite strlen_chars, chars_unchars, length_take. rewrite strlen_chars in Hk. lia.
  - apply chars_unchars.
  - apply chars_unchars.
Qed.

(** X1. An insert puts its text into the content at the clamped position
    and changes nothing else: the content is cut in two at
    [min(max(0, position), length)] (0 for a position that is not a number)
    and the result is the first part, the text, the second part. Nothing of
    the old content is lost or moved, and the content gets longer by exactly
    the length of the text, wherever the position lies. *)
Theorem applyOperation_insert_splices (c : string) (op : Operation) (t : string) :
  op_type op = "insert" → op_text op = Some t →
  ∃ before after,
    c = before +:+ after
    ∧ strlen before = clamp (strlen c) (default 0 (op_position op))
    ∧ applyOperation c op = before +:+ t +:+ after
    ∧ strlen (applyOperation c op) = strlen c + strlen t.
Proof.
  intros Hty Ht. pose proof (strlen_nonneg c) as Hlen.
  pose proof (clamp_range (strlen c) (default 0 (op_position op)) Hlen) as Hk.
  destruct (string_cut c _ Hk) as (before & after & Hc & Hb & Hcb & Hca).
  exists before, after. split; [done|]. split; [done|].
  split; [|by apply strlen_applyOperation_insert].
  apply chars_inj. rewrite applyOperation_insert_chars by done. cbv zeta.
  rewrite !chars_append, Hcb, Hca. unfold text_string. by rewrite Ht.
Qed.

Lemma applyOperation_insert_splices_witness :
  ∃ before after,
    "AC" = before +:+ after
    ∧ strlen before = clamp (strlen "AC") (default 0 (op_position (insertOp 1 "xyz" 1)))
    ∧ applyOperation "AC" (insertOp 1 "xyz" 1) = before +:+ "xyz" +:+ after
    ∧ strlen (applyOperation "AC" (insertOp 1 "xyz" 1)) = strlen "AC" + strlen "xyz".
Proof.
  exact (applyOperation_insert_splices "AC" (insertOp 1 "xyz" 1) "xyz" eq_refl eq_refl).
Defined.

(** X2. An insert at or beyond the end appends the text; an insert at 0, at a
    negative position or at a position that is not a number puts the text in
    front. *)
Theorem applyOperation_insert_out_of_range (c : string) (op : Operation) (t : string) :
  op_type op = "insert" → op_text op = Some t →
  (∀ p, op_position op = Some p → strlen c ≤ p → applyOperation c op = c +:+ t)
  ∧ (∀ p, op_position op = Some p → p ≤ 0 → applyOperation c op = t +:+ c)
  ∧ (op_position op = None → applyOperation c op = t +:+ c).
Proof.
  intros Hty Ht. pose proof (strlen_nonneg c) as Hlen.
  pose proof (applyOperation_insert_chars c op Hty) as Hc. cbv zeta in Hc.
  unfold text_string in Hc. rewrite Ht in Hc. cbn [default from_option] in Hc.
  unfold id in Hc.
  split; [|split].
  - intros p Hp Hge. apply chars_inj. rewrite Hc, Hp, chars_append.
    cbn [from_option].
    replace (clamp (strlen c) p) with (strlen c) by (unfold clamp; lia).
    by rewrite to_nat_strlen, firstn_all, drop_all, app_nil_r.
  - intros p Hp Hle. apply chars_inj. rewrite Hc, Hp, chars_append.
    cbn [from_option].
    replace (clamp (strlen c) p) with 0 by (unfold clamp; lia).
    by rewrite take_0, drop_0.
  - intros Hp. apply chars_inj. rewrite Hc, Hp, chars_append.
    cbn [from_option].
    replace (clamp (strlen c) 0) with 0 by (unfold clamp; lia).
    by rewrite take_0, drop_0.
Qed.

Lemma applyOperation_insert_out_of_range_witness :
  applyOperation "AC" (insertOp 99 "B" 1) = "ACB"
  ∧ applyOperation "AC" (insertOp (-3) "B" 1) = "BAC".
Proof.
  destruct (applyOperation_insert_out_of_range "AC" (insertOp 99 "B" 1) "B"
              eq_refl eq_refl) as (H1 & _ & _).
  destruct (applyOperation_insert_out_of_range "AC" (insertOp (-3) "B" 1) "B"
              eq_refl eq_refl) as (_ & H2 & _).
  split.
  - exact (H1 99 eq_refl ltac:(vm_compute; discriminate)).
  - exact (H2 (-3) eq_refl ltac:(lia)).
Defined.

(** X3. A delete of a length that is not negative cuts one run of units out
    of the content and changes nothing else: the content is the part before
    the clamped position, the removed run and the rest, and the result is
    the first part followed by the rest. The run has [min(length, len - pos)]
    units, so the content gets shorter by that much, never longer, and a
    delete at or beyond the end removes nothing. *)
Theorem applyOperation_delete_cuts (c : string) (op : Operation) (p l : Z) :
  op_type op = "delete" → op_position op = Some p → op_length op = Some l →
  0 ≤ l →
  let k := clamp (strlen c) p in
  (∃ before removed after,
     c = before +:+ removed +:+ after
     ∧ strlen before = k
     ∧ strlen removed = Z.min l (strlen c - k)
     ∧ applyOperation c op = before +:+ after)
  ∧ strlen (applyOperation c op) = strlen c - Z.min l (strlen c - k)
  ∧ strlen (applyOperation c op) ≤ strlen c
  ∧ (strlen c ≤ p → applyOperation c op = c).
Proof.
  intros Hty Hp Hl Hl0 k. pose proof (strlen_nonneg c) as Hlen.
  pose proof (clamp_range (strlen c) p Hlen) as Hk. fold k in Hk.
  pose proof (applyOperation_delete_chars c op p l Hty Hp Hl Hl0) as Hc.
  cbv zeta in Hc. fold k in Hc.
  assert (Hlength : strlen (applyOperation c op) = strlen c - Z.min l (strlen c - k)).
  { rewrite (strlen_chars (applyOperation c op)), Hc.
    rewrite length_app, length_take, length_drop, !strlen_chars.
    rewrite strlen_chars in Hk. lia. }
  split; [|split; [done|split; [lia|]]].
  - destruct (string_cut c k Hk) as (before & rest & Hcut & Hb & Hcb & Hcr).
    assert (0 ≤ Z.min l (strlen c - k) ≤ strlen rest) as Hm.
    { pose proof (f_equal strlen Hcut) as Hsum. rewrite strlen_append in Hsum.
      pose proof (strlen_nonneg rest). lia. }
    destruct (string_cut rest _ Hm) as (removed & after & Hcut' & Hr & Hcr' & Hca).
    exists before, removed, after. split; [by rewrite Hcut, Hcut'|].
    split; [done|]. split; [done|].
    apply chars_inj. rewrite Hc, chars_append, Hcb, Hca, Hcr, drop_drop.
    do 2 f_equal. lia.
  - intros Hge. apply chars_inj. rewrite Hc.
    assert (k = strlen c) as -> by (unfold k, clamp; lia).
    replace (Z.min (strlen c + l) (strlen c)) with (strlen c) by lia.
    by rewrite to_nat_strlen, firstn_all, drop_all, app_nil_r.
Qed.

Lemma applyOperation_delete_cuts_witness :
  (∃ before removed after,
     "ABCDE" = before +:+ removed +:+ after
     ∧ strlen before = 3 ∧ strlen removed = 2
     ∧ applyOperation "ABCDE" (deleteOp 3 9 1) = before +:+ after)
  ∧ applyOperation "ABCDE" (deleteOp 7 2 1) = "ABCDE".
Proof.
  destruct (applyOperation_delete_cuts "ABCDE" (deleteOp 3 9 1) 3 9
              eq_refl eq_refl eq_refl ltac:(lia)) as (H1 & _ & _ & _).
  destruct (applyOperation_delete_cuts "ABCDE" (deleteOp 7 2 1) 7 2
              eq_refl eq_refl eq_refl ltac:(lia)) as (_ & _ & _ & H2).
  split; [exact H1 | exact (H2 ltac:(vm_compute; discriminate))].
Defined.

(** X4. Deleting what was just inserted gives the content back: after an
    insert of [t], a delete of [length t] units at the position the insert
    was clamped to restores the content, whatever the insert's position. *)
Theorem applyOperation_insert_then_delete
  (c : string) (ins del : Operation) (t : string) :
  op_type ins = "insert" → op_text ins = Some t →
  op_type del = "delete" →
  op_position del = Some (clamp (strlen c) (default 0 (op_position ins))) →
  op_length del = Some (strlen t) →
  applyOperation (applyOperation c ins) del = c.
Proof.
  intros Hi Ht Hd Hp Hl. pose proof (strlen_nonneg c) as Hlen.
  set (k := clamp (strlen c) (default 0 (op_position ins))) in *.
  pose proof (clamp_range (strlen c) (default 0 (op_position ins)) Hlen) as Hk.
  fold k in Hk.
  pose proof (strlen_applyOperation_insert c ins t Hi Ht) as Hlen1.
  pose proof (applyOperation_insert_chars c ins Hi) as Hc1. cbv zeta in Hc1.
  fold k in Hc1. unfold text_string in Hc1. rewrite Ht in Hc1.
  cbn [default from_option] in Hc1. unfold id in Hc1.
  apply chars_inj.
  rewrite (applyOperation_delete_chars _ del k (strlen t) Hd Hp Hl (strlen_nonneg t)).
  cbv zeta. rewrite Hlen1.
  replace (clamp (strlen c + strlen t) k) with k
    by (pose proof (strlen_nonneg t); unfold clamp; lia).
  replace (Z.min (k + strlen t) (strlen c + strlen t)) with (k + strlen t) by lia.
  rewrite Hc1.
  assert (Hk' : length (take (Z.to_nat k) (chars c)) = Z.to_nat k).
  { rewrite length_take. rewrite strlen_chars in Hk. lia. }
  rewrite take_app_length' by done.
  rewrite Z2Nat.inj_add by (pose proof (strlen_nonneg t); lia).
  rewrite <- Hk' at 2. rewrite drop_app_add'  by done.
  rewrite strlen_chars, Nat2Z.id, drop_app_length. apply take_drop.
Qed.

Lemma applyOperation_insert_then_delete_witness :
  applyOperation (applyOperation "AC" (insertOp 99 "B" 1)) (deleteOp 2 1 2) = "AC".
Proof.
  exact (applyOperation_insert_then_delete "AC" (insertOp 99 "B" 1) (deleteOp 2 1 2)
           "B" eq_refl eq_refl eq_refl eq_refl eq_refl).
Defined.

(** ** [transformOperation]: the rows for a delete *)

Lemma transform_delete_insert a b :
  op_type a = "delete" → op_type b = "insert" →
  transformOperation a b =
    if nleb (op_position b) (op_position a) then
      len ← text_length b; Ok (set_position a (nadd (op_position a) len))
    else Ok a.
Proof.
  intros Ha Hb. unfold transformOperation.
  destruct (decide (op_type a = "insert" ∧ op_type b = "insert")) as [[]|_];
    [congruence|]. cbn [mbind result_bind].
  destruct (decide (op_type a = "insert" ∧ op_type b = "delete")) as [[]|_];
    [congruence|].
  destruct (decide (op_type a = "delete" ∧ op_type b = "insert")) as [_|Hn];
    [|by destruct Hn].
  destruct (nleb (op_position b) (op_position a)); cbn [mbind result_bind].
  - destruct (text_length b); cbn [mbind result_bind]; [|done]. by types_differ.
  - by types_differ.
Qed.

Lemma transform_delete_delete a b :
  op_type a = "delete" → op_type b = "delete" →
  transformOperation a b =
    Ok (if ngeb (op_position b) (nadd (op_position a) (op_length a)) then a
        else if nleb (nadd (op_position b) (op_length b)) (op_position a) then
          set_position a (nsub (op_position a) (op_length b))
        else
          let overlapLength :=
            nmax (Some 0)
              (nsub (nmin (nadd (op_position a) (op_length a))
                          (nadd (op_position b) (op_length b)))
                    (nmax (op_position a) (op_position b))) in
          let t :=
            set_position (set_length a (nsub (op_length a) overlapLength))
              (nmin (op_position a) (op_position b)) in
          if nleb (op_length t) (Some 0)
          then set_type (set_length t (Some 0)) "noop" else t).
Proof.
  intros Ha Hb. unfold transformOperation.
  destruct (decide (op_type a = "insert" ∧ op_type b = "insert")) as [[]|_];
    [congruence|]. cbn [mbind result_bind].
  destruct (decide (op_type a = "insert" ∧ op_type b = "delete")) as [[]|_];
    [congruence|].
  destruct (decide (op_type a = "delete" ∧ op_type b = "insert")) as [[]|_];
    [congruence|]. cbn [mbind result_bind].
  destruct (decide (op_type a = "delete" ∧ op_type b = "delete")) as [_|Hn];
    [|by destruct Hn].
  reflexivity.
Qed.

(** X5. A delete transformed against an insert keeps its length and its
    type: it is moved right by the length of the inserted text when the
    insert is at or before its start, and left as it is when the insert
    falls inside or after its range (a delete never grows to take in
    concurrently inserted text). *)
Theorem transform_delete_against_insert
  (a b : Operation) (pa pb : Z) (t : string) :
  op_type a = "delete" → op_type b = "insert" →
  op_position a = Some pa → op_position b = Some pb → op_text b = Some t →
  ∃ a', transformOperation a b = Ok a'
        ∧ op_type a' = "delete" ∧ op_length a' = op_length a
        ∧ op_position a' = Some (if pb <=? pa then pa + strlen t else pa).
Proof.
  intros Ha Hb Hpa Hpb Ht. rewrite transform_delete_insert by done.
  rewrite Hpa, Hpb, nleb_Some. unfold text_length. rewrite Ht.
  destruct (pb <=? pa); cbn [mbind result_bind]; eexists; (split; [reflexivity|]);
    simpl; by rewrite ?Hpa.
Qed.

Lemma transform_delete_against_insert_witness :
  ∃ a', transformOperation (deleteOp 2 3 1) (insertOp 3 "xy" 1) = Ok a'
        ∧ op_type a' = "delete" ∧ op_length a' = Some 3 ∧ op_position a' = Some 2.
Proof.
  exact (transform_delete_against_insert (deleteOp 2 3 1) (insertOp 3 "xy" 1) 2 3 "xy"
           eq_refl eq_refl eq_refl eq_refl eq_refl).
Defined.

(** X6. A delete [a] transformed against a delete [b] (lengths at least 1)
    loses exactly the units the two ranges share, and its start moves left
    by the number of units [b] removed before it. It becomes a noop of
    length 0 exactly when [b]'s range covers [a]'s; otherwise it stays a
    delete of length between 1 and [a.length]. *)
Theorem transform_delete_against_delete (a b : Operation) (pa la pb lb : Z) :
  op_type a = "delete" → op_type b = "delete" →
  op_position a = Some pa → op_length a = Some la →
  op_position b = Some pb → op_length b = Some lb →
  1 ≤ la → 1 ≤ lb →
  let shared := Z.max 0 (Z.min (pa + la) (pb + lb) - Z.max pa pb) in
  let before := Z.max 0 (Z.min pa (pb + lb) - pb) in
  ∃ a', transformOperation a b = Ok a'
        ∧ op_position a' = Some (pa - before)
        ∧ op_length a' = Some (la - shared)
        ∧ 0 ≤ la - shared ≤ la
        ∧ (op_type a' = "noop" ↔ pb ≤ pa ∧ pa + la ≤ pb + lb)
        ∧ (op_type a' = "noop" ∨ op_type a' = "delete" ∧ 1 ≤ la - shared).
Proof.
  intros Ha Hb Hpa Hla Hpb Hlb Hla1 Hlb1 shared before. subst shared before.
  rewrite transform_delete_delete by done.
  rewrite Hpa, Hla, Hpb, Hlb. cbn [nadd nsub nmin nmax lift2].
  unfold ngeb, nleb, cmp2.
  destruct (Z.geb_spec pb (pa + la)) as [H1|H1].
  { eexists. split; [reflexivity|]. rewrite Hpa, Hla, Ha.
    split; [f_equal; lia|]. split; [f_equal; lia|]. split; [lia|].
    split; [split; [done|lia] | right; split; [done|lia]]. }
  destruct (Z.leb_spec (pb + lb) pa) as [H2|H2].
  { eexists. split; [reflexivity|]. cbn [set_position op_position op_length op_type].
    rewrite Hla, Ha.
    split; [f_equal; lia|]. split; [f_equal; lia|]. split; [lia|].
    split; [split; [done|lia] | right; split; [done|lia]]. }
  cbv zeta. cbn [set_position set_length op_length].
  destruct (Z.leb_spec (la - Z.max 0 (Z.min (pa + la) (pb + lb) - Z.max pa pb)) 0)
    as [H3|H3].
  - eexists. split; [reflexivity|]. simpl.
    split; [f_equal; lia|]. split; [f_equal; lia|]. split; [lia|].
    split; [split; [lia|done] | by left].
  - eexists. split; [reflexivity|]. simpl. rewrite Ha.
    split; [f_equal; lia|]. split; [f_equal; lia|]. split; [lia|].
    split; [split; [done|lia] | right; split; [done|lia]].
Qed.

Lemma transform_delete_against_delete_witness :
  ∃ a', transformOperation (deleteOp 2 4 1) (deleteOp 1 3 1) = Ok a'
        ∧ op_position a' = Some 1 ∧ op_length a' = Some 2
        ∧ op_type a' = "delete".
Proof.
  destruct (transform_delete_against_delete (deleteOp 2 4 1) (deleteOp 1 3 1) 2 4 1 3
              eq_refl eq_refl eq_refl eq_refl eq_refl eq_refl ltac:(lia) ltac:(lia))
    as (a' & H1 & H2 & H3 & _ & H5 & [H6|[H6 _]]).
  - exfalso. apply H5 in H6. lia.
  - exists a'. repeat split; assumption.
Defined.

Lemma transform_other_against a b :
  op_type a ≠ "insert" → op_type a ≠ "delete" → transformOperation a b = Ok a.
Proof.
  intros Hi Hd. unfold transformOperation.
  repeat (match goal with
          | |- context [decide (?P ∧ ?Q)] =>
              destruct (decide (P ∧ Q)) as [[? ?]|_]; [done|]
          end; simpl).
  done.
Qed.

Lemma transformOperation_payload (a b : Operation) :
  (∀ r, transformOperation a b = Ok r →
     op_text r = op_text a ∧ op_baseVersion r = op_baseVersion a
     ∧ (op_type r = op_type a
        ∨ (op_type a = "delete" ∧ op_type b = "delete"
           ∧ op_type r = "noop" ∧ op_length r = Some 0)))
  ∧ (∀ e, transformOperation a b = Throw e →
       e = TypeError ∧ op_type b = "insert" ∧ op_text b = None).
Proof.
  destruct (decide (op_type a = "insert")) as [Hai|Hai].
  - destruct (decide (op_type b = "insert")) as [Hbi|Hbi].
    + rewrite transform_insert_insert by done. unfold text_length.
      destruct (nleb (op_position b) (op_position a)), (op_text b) eqn:Ht;
        cbn [mbind result_bind]; split; intros ? [= <-]; auto.
    + destruct (decide (op_type b = "delete")) as [Hbd|Hbd].
      * rewrite transform_insert_delete by done.
        split; [|done]. intros r [= <-].
        destruct (nltb (op_position b) (op_position a)); auto.
      * rewrite transform_against_other by done. split; [|done].
        intros r [= <-]. auto.
  - destruct (decide (op_type a = "delete")) as [Had|Had].
    + destruct (decide (op_type b = "insert")) as [Hbi|Hbi].
      * rewrite transform_delete_insert by done. unfold text_length.
        destruct (nleb (op_position b) (op_position a)), (op_text b) eqn:Ht;
          cbn [mbind result_bind]; split; intros ? [= <-]; auto.
      * destruct (decide (op_type b = "delete")) as [Hbd|Hbd].
        -- rewrite transform_delete_delete by done.
           split; [|done]. intros r [= <-]. cbv zeta.
           repeat case_match; simpl; auto 10.
        -- rewrite transform_against_other by done. split; [|done].
           intros r [= <-]. auto.
    + rewrite transform_other_against by done. split; [|done].
      intros r [= <-]. auto.
Qed.

(** X7. Whatever the two operations are, [transformOperation] returns the
    first one with its text and base version untouched and its type kept;
    the one change of type is a delete that becomes a noop of length 0
    against a delete. It throws in one situation only: the second operation
    is an insert that carries no text. *)
Theorem transformOperation_keeps_payload (a b : Operation) :
  (∀ r, transformOperation a b = Ok r →
     op_text r = op_text a ∧ op_baseVersion r = op_baseVersion a
     ∧ (op_type r = op_type a
        ∨ (op_type a = "delete" ∧ op_type b = "delete"
           ∧ op_type r = "noop" ∧ op_length r = Some 0)))
  ∧ (∀ e, transformOperation a b = Throw e →
       e = TypeError ∧ op_type b = "insert" ∧ op_text b = None).
Proof. apply transformOperation_payload. Qed.

Lemma transformOperation_keeps_payload_witness :
  op_text (insertOp 1 "X" 7) = Some "X" ∧ op_baseVersion (insertOp 1 "X" 7) = Some 7
  ∧ op_type (mkOp "insert" (Some 1) None None (Some 1)) = "insert".
Proof.
  destruct (proj1 (transformOperation_keeps_payload (insertOp 4 "X" 7) (deleteOp 1 3 1))
              (insertOp 1 "X" 7) eq_refl) as (H1 & H2 & _).
  destruct (proj2 (transformOperation_keeps_payload (insertOp 4 "X" 7)
                     (mkOp "insert" (Some 1) None None (Some 1)))
              TypeError eq_refl) as (_ & H3 & _).
  split; [exact H1|]. split; [exact H2 | exact H3].
Defined.

(** ** Two concurrent inserts converge *)

Lemma applyOperation_insert_inside c op p t :
  op_type op = "insert" → op_position op = Some p → op_text op = Some t →
  0 ≤ p ≤ strlen c →
  chars (applyOperation c op)
  = take (Z.to_nat p) (chars c) ++ chars t ++ drop (Z.to_nat p) (chars c).
Proof.
  intros Hty Hp Ht Hrange.
  rewrite applyOperation_insert_chars by done. cbv zeta.
  unfold text_string. rewrite Hp, Ht. cbn [from_option]. unfold id.
  by replace (clamp (strlen c) p) with p by (unfold clamp; lia).
Qed.

(** X8. Two inserts made on the same content at different positions inside
    it commute under the transformation: applying [b] and then [a]
    transformed against [b] gives the same content as applying [a] and then
    [b] transformed against [a]. *)
Theorem transform_inserts_converge
  (c : string) (a b : Operation) (pa pb : Z) (ta tb : string) :
  op_type a = "insert" → op_type b = "insert" →
  op_position a = Some pa → op_position b = Some pb →
  op_text a = Some ta → op_text b = Some tb →
  0 ≤ pa → pa < pb → pb ≤ strlen c →
  ∃ a' b',
    transformOperation a b = Ok a' ∧ transformOperation b a = Ok b'
    ∧ applyOperation (applyOperation c b) a' = applyOperation (applyOperation c a) b'.
Proof.
  intros Ha Hb Hpa Hpb Hta Htb H0 Hlt Hle.
  rewrite (transform_insert_insert a b), (transform_insert_insert b a) by done.
  rewrite Hpa, Hpb, !nleb_Some. unfold text_length. rewrite Hta.
  destruct (Z.leb_spec pb pa); [lia|]. destruct (Z.leb_spec pa pb); [|lia].
  cbn [mbind result_bind nadd lift2].
  eexists _, _. split; [reflexivity|]. split; [reflexivity|].
  pose proof (strlen_nonneg ta) as Hta0. pose proof (strlen_nonneg tb) as Htb0.
  pose proof (strlen_applyOperation_insert c a ta Ha Hta) as Hla.
  pose proof (strlen_applyOperation_insert c b tb Hb Htb) as Hlb.
  apply chars_inj.
  rewrite (applyOperation_insert_inside (applyOperation c b) a pa ta) by (done || lia).
  rewrite (applyOperation_insert_inside (applyOperation c a)
             (set_position b (Some (pb + strlen ta))) (pb + strlen ta) tb)
    by (done || lia).
  rewrite (applyOperation_insert_inside c b pb tb) by (done || lia).
  rewrite (applyOperation_insert_inside c a pa ta) by (done || lia).
  set (cs := chars c).
  assert (Hcs : length cs = Z.to_nat (strlen c)) by (unfold cs; by rewrite to_nat_strlen).
  set (x := take (Z.to_nat pa) cs).
  set (y := take (Z.to_nat pb - Z.to_nat pa) (drop (Z.to_nat pa) cs)).
  set (z := drop (Z.to_nat pb) cs).
  assert (Hx : length x = Z.to_nat pa) by (unfold x; rewrite length_take; lia).
  assert (Hy : length y = (Z.to_nat pb - Z.to_nat pa)%nat)
    by (unfold y; rewrite length_take, length_drop; lia).
  assert (Hta' : length (chars ta) = Z.to_nat (strlen ta)) by (by rewrite to_nat_strlen).
  assert (Hdrop : drop (Z.to_nat pa) cs = y ++ z).
  { unfold y, z. rewrite <- (take_drop (Z.to_nat pb - Z.to_nat pa) (drop (Z.to_nat pa) cs)) at 1.
    f_equal. rewrite drop_drop. f_equal. lia. }
  assert (Htake : take (Z.to_nat pb) cs = x ++ y).
  { unfold x, y. rewrite <- (take_drop (Z.to_nat pa) (take (Z.to_nat pb) cs)).
    rewrite take_take, skipn_firstn_comm. f_equal. f_equal. lia. }
  rewrite Hdrop, Htake.
  (* left: insert [ta] at [pa] into [x ++ y ++ tb ++ z] *)
  replace (take (Z.to_nat pa) ((x ++ y) ++ chars tb ++ z)) with x
    by (rewrite <- !app_assoc; by rewrite take_app_length').
  replace (drop (Z.to_nat pa) ((x ++ y) ++ chars tb ++ z)) with (y ++ chars tb ++ z)
    by (rewrite <- !app_assoc; by rewrite drop_app_length').
  (* right: insert [tb] at [pb + |ta|] into [x ++ ta ++ y ++ z] *)
  replace (x ++ chars ta ++ y ++ z) with ((x ++ chars ta ++ y) ++ z)
    by (by rewrite <- !app_assoc).
  assert (Hlen : length (x ++ chars ta ++ y) = Z.to_nat (pb + strlen ta))
    by (rewrite !length_app; lia).
  rewrite take_app_length', drop_app_length' by done.
  by rewrite <- !app_assoc.
Qed.

Lemma transform_inserts_converge_witness :
  ∃ a' b',
    transformOperation (insertOp 1 "x" 1) (insertOp 3 "yy" 1) = Ok a'
    ∧ transformOperation (insertOp 3 "yy" 1) (insertOp 1 "x" 1) = Ok b'
    ∧ applyOperation (applyOperation "ABCDE" (insertOp 3 "yy" 1)) a'
      = applyOperation (applyOperation "ABCDE" (insertOp 1 "x" 1)) b'.
Proof.
  exact (transform_inserts_converge "ABCDE" (insertOp 1 "x" 1) (insertOp 3 "yy" 1)
           1 3 "x" "yy" eq_refl eq_refl eq_refl eq_refl eq_refl eq_refl
           ltac:(lia) ltac:(lia) ltac:(vm_compute; discriminate)).
Defined.

(** ** [pushVersionSnapshot] and the version history *)

Lemma pushVersionSnapshot_history d u now :
  doc_versionHistory (pushVersionSnapshot d u now)
  = lastN MAX_HISTORY_SIZE
      (doc_versionHistory d ++ [mkVersionEntry (doc_version d) (doc_content d) u now]).
Proof.
  unfold pushVersionSnapshot, lastN. simpl.
  destruct (Nat.ltb_spec MAX_HISTORY_SIZE
              (length (doc_versionHistory d ++
                 [mkVersionEntry (doc_version d) (doc_content d) u now]))); simpl; [done|].
  replace (length _ - MAX_HISTORY_SIZE)%nat with 0%nat by lia. done.
Qed.

Lemma pushVersionSnapshot_owner d u now :
  doc_owner (pushVersionSnapshot d u now) = doc_owner d.
Proof. unfold pushVersionSnapshot. by case_match. Qed.

Lemma pushVersionSnapshot_sharedWith d u now :
  doc_sharedWith (pushVersionSnapshot d u now) = doc_sharedWith d.
Proof. unfold pushVersionSnapshot. by case_match. Qed.

Lemma pushVersionSnapshot_spec (d : Document) (u : string) (now : Z) :
  let d' := pushVersionSnapshot d u now in
  let snapshot := mkVersionEntry (doc_version d) (doc_content d) u now in
  doc_content d' = doc_content d ∧ doc_version d' = doc_version d
  ∧ doc_owner d' = doc_owner d ∧ doc_sharedWith d' = doc_sharedWith d
  ∧ (length (doc_versionHistory d') ≤ 50)%nat
  ∧ last (doc_versionHistory d') = Some snapshot
  ∧ (∃ k, doc_versionHistory d' = drop k (doc_versionHistory d) ++ [snapshot])
  ∧ ((length (doc_versionHistory d) < 50)%nat →
     doc_versionHistory d' = doc_versionHistory d ++ [snapshot]).
Proof.
  intros d' snapshot. unfold d'.
  split; [apply pushVersionSnapshot_content|].
  split; [apply pushVersionSnapshot_version|].
  split; [apply pushVersionSnapshot_owner|].
  split; [apply pushVersionSnapshot_sharedWith|].
  rewrite pushVersionSnapshot_history. fold snapshot. unfold lastN.
  set (h := doc_versionHistory d).
  assert (Hdrop : drop (length (h ++ [snapshot]) - MAX_HISTORY_SIZE) (h ++ [snapshot])
                  = drop (length (h ++ [snapshot]) - MAX_HISTORY_SIZE) h ++ [snapshot]).
  { rewrite drop_app_le; [done|]. rewrite length_app. simpl. unfold MAX_HISTORY_SIZE. lia. }
  rewrite Hdrop.
  split; [rewrite length_app, length_drop, length_app; simpl; unfold MAX_HISTORY_SIZE; lia|].
  split; [apply last_snoc|].
  split; [by eexists|].
  intros Hlt.
  replace (length (h ++ [snapshot]) - MAX_HISTORY_SIZE)%nat with 0%nat
    by (rewrite length_app; simpl; unfold MAX_HISTORY_SIZE; lia).
  done.
Qed.

Lemma pushVersionSnapshot_title d u now :
  doc_title (pushVersionSnapshot d u now) = doc_title d.
Proof. unfold pushVersionSnapshot. by case_match. Qed.

(** X9. [pushVersionSnapshot] touches the history only: title, content,
    version, owner and share list are as before. The new history is the old
    one with the snapshot of the current version and content appended, cut
    from the front to its last 50 entries: the 49 most recent old entries,
    in their order, followed by the snapshot (a history of fewer than 50
    entries is kept whole). It never exceeds 50 entries, however long the
    history was. *)
Theorem pushVersionSnapshot_bounded (d : Document) (u : string) (now : Z) :
  let d' := pushVersionSnapshot d u now in
  let snapshot := mkVersionEntry (doc_version d) (doc_content d) u now in
  doc_title d' = doc_title d
  ∧ doc_content d' = doc_content d ∧ doc_version d' = doc_version d
  ∧ doc_owner d' = doc_owner d ∧ doc_sharedWith d' = doc_sharedWith d
  ∧ doc_versionHistory d'
    = drop (length (doc_versionHistory d) - 49) (doc_versionHistory d) ++ [snapshot]
  ∧ length (doc_versionHistory d') = Nat.min (length (doc_versionHistory d) + 1) 50
  ∧ last (doc_versionHistory d') = Some snapshot
  ∧ ((length (doc_versionHistory d) < 50)%nat →
     doc_versionHistory d' = doc_versionHistory d ++ [snapshot]).
Proof.
  intros d' snapshot. unfold d'.
  split; [apply pushVersionSnapshot_title|].
  split; [apply pushVersionSnapshot_content|].
  split; [apply pushVersionSnapshot_version|].
  split; [apply pushVersionSnapshot_owner|].
  split; [apply pushVersionSnapshot_sharedWith|].
  rewrite pushVersionSnapshot_history. fold snapshot. unfold lastN.
  set (h := doc_versionHistory d).
  assert (Hdrop : drop (length (h ++ [snapshot]) - MAX_HISTORY_SIZE) (h ++ [snapshot])
                  = drop (length h - 49) h ++ [snapshot]).
  { rewrite drop_app_le by (rewrite length_app; simpl; unfold MAX_HISTORY_SIZE; lia).
    do 2 f_equal. rewrite length_app. simpl. unfold MAX_HISTORY_SIZE. lia. }
  rewrite Hdrop.
  split; [done|].
  split; [rewrite length_app, length_drop; simpl; lia|].
  split; [apply last_snoc|].
  intros Hlt. by replace (length h - 49)%nat with 0%nat by lia.
Qed.

Lemma historyOk_push d u now :
  historyOk d →
  let h := doc_versionHistory (pushVersionSnapshot d u now) in
  (length h ≤ MAX_HISTORY_SIZE)%nat
  ∧ (∀ i j e1 e2, (i < j)%nat → h !! i = Some e1 → h !! j = Some e2 →
       ve_version e1 < ve_version e2)
  ∧ (∀ e, e ∈ h → ve_version e ≤ doc_version d).
Proof.
  intros (Hlen & Hmono & Hlt) h. unfold h.
  destruct (pushVersionSnapshot_spec d u now) as (_ & _ & _ & _ & Hb & _ & [k Hk] & _).
  cbv zeta in *. rewrite Hk in *. clear h.
  split; [done|]. split.
  - intros i j e1 e2 Hij H1 H2.
    apply lookup_app_Some in H2 as [H2|[Hj H2]].
    + rewrite lookup_app_l in H1 by (apply lookup_lt_Some in H2; lia).
      rewrite lookup_drop in H1, H2. eapply Hmono; [|done..]. lia.
    + apply list_lookup_singleton_Some in H2 as [Hj' <-]. simpl.
      rewrite lookup_app_l in H1 by lia. rewrite lookup_drop in H1.
      apply Hlt. by eapply list_elem_of_lookup_2.
  - intros e He. apply elem_of_app in He as [He|He].
    + apply list_elem_of_lookup in He as [i Hi]. rewrite lookup_drop in Hi.
      assert (ve_version e < doc_version d); [|lia].
      apply Hlt. by eapply list_elem_of_lookup_2.
    + apply list_elem_of_singleton in He as ->. simpl. lia.
Qed.

(** A document that is saved with a fresh snapshot and the next version has
    its history in order. *)
Lemma historyOk_next d u now c :
  historyOk d →
  historyOk (set_version (set_content (pushVersionSnapshot d u now) c)
               (doc_version (set_content (pushVersionSnapshot d u now) c) + 1)).
Proof.
  intros Hok. destruct (historyOk_push d u now Hok) as (Hlen & Hmono & Hle).
  cbv zeta in *. unfold historyOk. simpl. rewrite pushVersionSnapshot_version.
  split; [done|]. split; [done|]. intros e He. specialize (Hle e He). lia.
Qed.

Lemma historyOk_editedDocument d top u now :
  historyOk d → historyOk (editedDocument d top u now).
Proof. intros Hok. unfold editedDocument. by apply historyOk_next. Qed.

(** ** Restoring a version *)

(** The document the restore route saves. *)
Lemma restoreVersion_cases u docId version now st :
  (∃ r, restoreVersion u docId version now st = (r, st) ∧ r ≠ Ok 200)
  ∨ (∃ doc v e,
       documents st !! docId = Some doc
       ∧ getUserRole doc u = Some "owner"
       ∧ version = Some v
       ∧ List.find (λ entry, ve_version entry =? v) (doc_versionHistory doc) = Some e
       ∧ restoreVersion u docId version now st
         = (Ok 200,
            upd_documents
              <[docId := set_version
                        (set_content (pushVersionSnapshot doc u now)
                           (ve_contentSnapshot e))
                        (doc_version doc + 1)]> st)).
Proof.
  unfold restoreVersion, getDocumentWithAccess, findById, gets, save, modify,
    throw, mbind, M_bind, mret, M_ret.
  destruct (documents st !! docId) as [doc|] eqn:Hdoc; [|left; by eexists].
  destruct (getUserRole doc u) as [role|] eqn:Hrole; cbn [falsy_str];
    [|left; by eexists].
  destruct (bool_decide (role = "")); [left; by eexists|].
  cbn [default from_option]. unfold id.
  rewrite bool_decide_false by done. cbn [andb].
  rewrite bool_decide_true by done. cbn [andb].
  destruct (bool_decide (role = "owner")) eqn:Howner; cbn [negb];
    [|left; by eexists].
  apply bool_decide_eq_true in Howner as ->.
  destruct version as [v|]; [|left; by eexists].
  destruct (List.find _ _) as [e|] eqn:Hfind; [|left; by eexists].
  right. exists doc, v, e. repeat (split; [done|]).
  simpl. by rewrite pushVersionSnapshot_version.
Qed.

Lemma restoreVersion_found u docId v e now st doc :
  documents st !! docId = Some doc →
  getUserRole doc u = Some "owner" →
  List.find (λ entry, ve_version entry =? v) (doc_versionHistory doc) = Some e →
  restoreVersion u docId (Some v) now st
  = (Ok 200,
     upd_documents
       <[docId := set_version
                    (set_content (pushVersionSnapshot doc u now) (ve_contentSnapshot e))
                    (doc_version doc + 1)]> st).
Proof.
  intros Hdoc Hrole Hfind.
  destruct (restoreVersion_cases u docId (Some v) now st)
    as [(r & Hr & Hne)|(doc' & v' & e' & Hdoc' & _ & [= <-] & Hfind' & Hr)].
  - exfalso. apply Hne. revert Hr.
    unfold restoreVersion, getDocumentWithAccess, findById, gets, save, modify,
      throw, mbind, M_bind, mret, M_ret.
    rewrite Hdoc, Hrole. simpl. rewrite Hfind. by intros [= <- _].
  - by simplify_eq.
Qed.

(** X10. The restore route decides by four tests, in this order, and changes
    the store in one case only. No stored document, or a user who is not
    its owner: the access error is thrown. No version given: 400. No
    snapshot of that version in the history: 404. Otherwise, for the owner
    and a version that is in the history: 200, and the document is saved
    with the content of the first snapshot of that version, its version
    raised by 1 and the content it had snapshotted at the end of the
    history. In the first four cases the server is left exactly as it was. *)
Theorem restoreVersion_decides
  (u docId : string) (version : num) (now : Z) (st : Server) :
  let c := restoreVersion u docId version now st in
  (documents st !! docId = None → ∃ e, c = (Throw e, st))
  ∧ (∀ doc, documents st !! docId = Some doc →
       (getUserRole doc u ≠ Some "owner" → ∃ e, c = (Throw e, st))
       ∧ (getUserRole doc u = Some "owner" →
            (version = None → c = (Ok 400, st))
            ∧ (∀ v, version = Some v →
                 (∀ e, e ∈ doc_versionHistory doc → ve_version e ≠ v) →
                 c = (Ok 404, st))
            ∧ (∀ v e, version = Some v →
                 List.find (λ entry, ve_version entry =? v) (doc_versionHistory doc)
                 = Some e →
                 c = (Ok 200,
                      upd_documents
                        <[docId := mkDocument (doc_title doc) (ve_contentSnapshot e)
                                     (doc_owner doc) (doc_sharedWith doc)
                                     (doc_version doc + 1)
                                     (doc_versionHistory
                                        (pushVersionSnapshot doc u now))]> st)))).
Proof.
  intros c. subst c. split.
  - intros Hnone.
    unfold restoreVersion, getDocumentWithAccess, findById, gets, throw, mbind, M_bind.
    rewrite Hnone. by eexists.
  - intros doc Hdoc. split.
    + intros Hrole.
      unfold restoreVersion, getDocumentWithAccess, findById, gets, throw,
        mbind, M_bind, mret, M_ret.
      rewrite Hdoc. destruct (getUserRole doc u) as [role|]; cbn [falsy_str];
        [|by eexists].
      destruct (bool_decide (role = "")); [by eexists|].
      cbn [default from_option]. unfold id. simpl.
      destruct (bool_decide_reflect (role = "owner")) as [->|Hno]; [done|].
      simpl. by eexists.
    + intros Hrole. split_and!.
      * intros ->.
        unfold restoreVersion, getDocumentWithAccess, findById, gets, throw,
          mbind, M_bind, mret, M_ret.
        by rewrite Hdoc, Hrole.
      * intros v -> Hnone.
        unfold restoreVersion, getDocumentWithAccess, findById, gets, throw,
          mbind, M_bind, mret, M_ret.
        rewrite Hdoc, Hrole. simpl.
        destruct (List.find _ _) as [e|] eqn:Hfind; [|done].
        apply find_some in Hfind as [Hin Hv]. apply Z.eqb_eq in Hv.
        exfalso. apply (Hnone e); [by apply list_elem_of_In | done].
      * intros v e -> Hfind.
        rewrite (restoreVersion_found u docId v e now st doc) by done.
        do 3 f_equal. unfold set_version, set_content. simpl.
        by rewrite pushVersionSnapshot_title, pushVersionSnapshot_owner,
          pushVersionSnapshot_sharedWith.
Qed.

Lemma restoreVersion_decides_witness :
  restoreVersion "u1" "d" (Some 1) 200 serverAE
  = (Ok 200,
     upd_documents
       <["d" := mkDocument "Notes" "ABCDE" "u1" [mkShare "u2" "editor"] 3
                  [mkVersionEntry 1 "ABCDE" "u1" 100; mkVersionEntry 2 "AE" "u1" 200]]>
       serverAE)
  ∧ (∃ e, restoreVersion "u2" "d" (Some 1) 200 serverAE = (Throw e, serverAE))
  ∧ restoreVersion "u1" "d" (Some 7) 200 serverAE = (Ok 404, serverAE).
Proof.
  destruct (restoreVersion_decides "u1" "d" (Some 1) 200 serverAE) as [_ H1].
  destruct (H1 documentAE eq_refl) as [_ H1'].
  destruct (H1' eq_refl) as (_ & _ & H200).
  destruct (restoreVersion_decides "u2" "d" (Some 1) 200 serverAE) as [_ H2].
  destruct (H2 documentAE eq_refl) as [H2' _].
  destruct (restoreVersion_decides "u1" "d" (Some 7) 200 serverAE) as [_ H3].
  destruct (H3 documentAE eq_refl) as [_ H3'].
  destruct (H3' eq_refl) as (_ & H404 & _).
  split; [exact (H200 1 (mkVersionEntry 1 "ABCDE" "u1" 100) eq_refl eq_refl)|].
  split; [apply H2'; vm_compute; discriminate|].
  apply (H404 7 eq_refl). intros e He.
  apply list_elem_of_singleton in He as ->. simpl. lia.
Defined.

Lemma historyOk_empty d : doc_versionHistory d = [] → historyOk d.
Proof.
  intros Hd. unfold historyOk. rewrite Hd.
  split; [simpl; lia|].
  split; [intros i j e1 e2 _ H; by rewrite lookup_nil in H|].
  intros e He. by apply elem_of_nil in He.
Qed.

(** One handled event keeps every version history in order. *)
Lemma step_historiesOk s s' : step s s' → historiesOk s → historiesOk s'.
Proof.
  intros Hstep Hok. destruct Hstep as [socket docId operation now|socket docId now
    |socket docId|u docId version now].
  - destruct (on_operation_cases s socket docId operation now)
      as [[message ->]|(doc & Hdoc & [[message ->]|[[top ->]|(top & u & ->)]])];
      intros id' d; simpl; rewrite ?withBuffer_documents; try apply Hok.
    destruct (decide (docId = id')) as [<-|Hne].
    + rewrite lookup_insert_eq. intros [= <-].
      apply historyOk_editedDocument. by eapply Hok.
    + rewrite lookup_insert_ne by done. apply Hok.
  - destruct (join_document_frame socket docId now s) as [Hd _].
    intros id' d. rewrite Hd. apply Hok.
  - destruct (handleUserLeave_frame socket docId s) as [Hd _].
    intros id' d. rewrite Hd. apply Hok.
  - unfold run.
    destruct (restoreVersion_cases u docId version now s)
      as [(r & -> & _)|(doc & v & e & Hdoc & _ & _ & _ & ->)]; [done|].
    intros id' d. simpl. destruct (decide (docId = id')) as [<-|Hne].
    + rewrite lookup_insert_eq. intros [= <-].
      replace (doc_version doc + 1) with
        (doc_version (set_content (pushVersionSnapshot doc u now)
                        (ve_contentSnapshot e)) + 1)
        by (simpl; by rewrite pushVersionSnapshot_version).
      apply historyOk_next. by eapply Hok.
    + rewrite lookup_insert_ne by done. apply Hok.
Qed.



Lemma find_app_None {A} (f : A → bool) l1 l2 :
  (∀ x, x ∈ l1 → f x = false) → List.find f (l1 ++ l2) = List.find f l2.
Proof.
  induction l1 as [|x l1 IH]; intros Hnone; simpl; [done|].
  rewrite (Hnone x) by apply list_elem_of_here.
  apply IH. intros y Hy. apply Hnone. by apply list_elem_of_further.
Qed.

(** X12. Restoring undoes an edit. After an accepted operation on a document
    whose history is in order, the owner's restore of the version the
    document had before the operation brings back the content it had then,
    two versions later. *)
Theorem restore_undoes_edit
  (st : Server) (socket : Socket) (id : string) (op : Operation)
  (now now' : Z) (doc : Document) (top : Operation) :
  documents st !! id = Some doc →
  canEdit doc (user_id (socket_user socket)) = true →
  checkOperation (Some op) = inr op →
  transformMissed doc (bufferOf st id) op = Ok top →
  op_type top ≠ "noop" →
  historyOk doc →
  let st1 := run (on_operation socket id (Some op) now) st in
  let st2 := run (restoreVersion (doc_owner doc) id (Some (doc_version doc)) now') st1 in
  ∃ doc2, documents st2 !! id = Some doc2
          ∧ doc_content doc2 = doc_content doc
          ∧ doc_version doc2 = doc_version doc + 2.
Proof.
  intros Hdoc Hedit Hcheck Htop Hnoop (Hlen & Hmono & Hlt) st1 st2.
  set (u := user_id (socket_user socket)) in *.
  set (doc1 := editedDocument doc top u now).
  assert (Hst1 : documents st1 !! id = Some doc1).
  { unfold st1. rewrite (on_operation_applied st socket id op now doc top) by done.
    simpl. by rewrite lookup_insert_eq. }
  assert (Hrole : getUserRole doc1 (doc_owner doc) = Some "owner").
  { unfold doc1. rewrite editedDocument_role. unfold getUserRole.
    by destruct (decide (doc_owner doc = doc_owner doc)). }
  assert (Hfind : List.find (λ entry, ve_version entry =? doc_version doc)
                    (doc_versionHistory doc1)
                  = Some (mkVersionEntry (doc_version doc) (doc_content doc) u now)).
  { unfold doc1, editedDocument. simpl.
    destruct (pushVersionSnapshot_spec doc u now) as (_&_&_&_&_&_&[k Hk]&_).
    cbv zeta in Hk. rewrite Hk. rewrite find_app_None.
    - simpl. by rewrite Z.eqb_refl.
    - intros e He. apply Z.eqb_neq.
      assert (ve_version e < doc_version doc); [|lia].
      apply Hlt. apply list_elem_of_lookup in He as [i Hi]. rewrite lookup_drop in Hi.
      by eapply list_elem_of_lookup_2. }
  unfold st2, run.
  rewrite (restoreVersion_found _ _ _ _ _ _ doc1 Hst1 Hrole Hfind).
  eexists. split; [simpl; by rewrite lookup_insert_eq|].
  split; [done|]. simpl. rewrite pushVersionSnapshot_version. lia.
Qed.

Lemma restore_undoes_edit_witness :
  ∃ doc2,
    documents (run (restoreVersion "u1" "d" (Some 1) 200) serverAE) !! "d" = Some doc2
    ∧ doc_content doc2 = "ABCDE" ∧ doc_version doc2 = 3.
Proof.
  exact (restore_undoes_edit (sampleServer "ABCDE") alice "d" (deleteOp 1 3 1) 100 200
           (sampleDocument "ABCDE") (deleteOp 1 3 1) eq_refl eq_refl eq_refl eq_refl
           ltac:(discriminate) (historyOk_empty (sampleDocument "ABCDE") eq_refl)).
Defined.

(** ** Permissions *)

Lemma elem_of_EDIT_ROLES role : role ∈ EDIT_ROLES ↔ role = "owner" ∨ role = "editor".
Proof. unfold EDIT_ROLES. rewrite !elem_of_cons, elem_of_nil. tauto. Qed.

Lemma elem_of_READ_ROLES role :
  role ∈ READ_ROLES ↔
  role = "owner" ∨ role = "editor" ∨ role = "commenter" ∨ role = "viewer".
Proof. unfold READ_ROLES. rewrite !elem_of_cons, elem_of_nil. tauto. Qed.

(** X13. The roles form a ladder and the owner stands on top of it: the
    owner has the role owner even when the share list names them with a
    lesser role; whoever is owner may edit, whoever may edit may read; a user
    may edit exactly with the role owner or editor; and a user has no role
    exactly when they are neither the owner nor named in the share list. *)
Theorem permission_ladder (d : Document) (u : string) :
  (doc_owner d = u → getUserRole d u = Some "owner")
  ∧ (isOwner d u = true → canEdit d u = true)
  ∧ (canEdit d u = true → canRead d u = true)
  ∧ (canEdit d u = true ↔
     getUserRole d u = Some "owner" ∨ getUserRole d u = Some "editor")
  ∧ (getUserRole d u = None ↔
     doc_owner d ≠ u ∧ ∀ entry, entry ∈ doc_sharedWith d → share_userId entry ≠ u).
Proof.
  split; [|split; [|split; [|split]]].
  - intros Ho. unfold getUserRole. by destruct (decide (doc_owner d = u)).
  - unfold isOwner, canEdit. intros H. apply bool_decide_eq_true in H. rewrite H.
    apply bool_decide_eq_true, elem_of_EDIT_ROLES. by left.
  - unfold canEdit, canRead. destruct (getUserRole d u) as [role|]; [|done].
    rewrite !bool_decide_eq_true, elem_of_EDIT_ROLES, elem_of_READ_ROLES. tauto.
  - unfold canEdit. destruct (getUserRole d u) as [role|].
    + rewrite bool_decide_eq_true, elem_of_EDIT_ROLES.
      split; [intros [->| ->]; auto | intros [[= ->]|[= ->]]; auto].
    + split; [done | by intros [|]].
  - unfold getUserRole. destruct (decide (doc_owner d = u)) as [Ho|Ho].
    + split; [done | by intros []].
    + destruct (List.find _ _) as [entry|] eqn:Hfind; simpl.
      * apply find_some in Hfind as [Hin Hu]. apply bool_decide_eq_true in Hu.
        split; [done|]. intros [_ Hnone]. exfalso.
        apply (Hnone entry); [by apply list_elem_of_In | done].
      * split; [|done]. intros _. split; [done|]. intros entry Hin Hu.
        apply list_elem_of_In in Hin.
        pose proof (find_none _ _ Hfind entry Hin) as Hf. simpl in Hf.
        by apply bool_decide_eq_false in Hf.
Qed.

(** X14. [getDocumentWithAccess] never changes the server, and the two
    enforcement points agree: for the level edit it returns the stored
    document and the user's role exactly when [canEdit] holds, for the level
    owner exactly when [isOwner] holds, and for the level read exactly when
    the user has a (non-empty) role; otherwise it throws. *)
Theorem getDocumentWithAccess_agrees (st : Server) (docId u : string) :
  (∀ level, run (getDocumentWithAccess docId u level) st = st)
  ∧ (∀ doc role,
       getDocumentWithAccess docId u "edit" st = (Ok (doc, role), st) ↔
       documents st !! docId = Some doc ∧ getUserRole doc u = Some role
       ∧ canEdit doc u = true)
  ∧ (∀ doc role,
       getDocumentWithAccess docId u "owner" st = (Ok (doc, role), st) ↔
       documents st !! docId = Some doc ∧ role = "owner" ∧ isOwner doc u = true)
  ∧ (∀ doc role,
       getDocumentWithAccess docId u "read" st = (Ok (doc, role), st) ↔
       documents st !! docId = Some doc ∧ getUserRole doc u = Some role ∧ role ≠ "").
Proof.
  assert (Hfound : ∀ level d, documents st !! docId = Some d →
    getDocumentWithAccess docId u level st =
      (match getUserRole d u with
       | None => Throw (Error "You do not have access to this document")
       | Some r =>
           if bool_decide (r = "") then
             Throw (Error "You do not have access to this document")
           else if bool_decide (level = "edit") && negb (bool_decide (r ∈ EDIT_ROLES))
           then Throw (Error "You do not have edit access to this document")
           else if bool_decide (level = "owner") && negb (bool_decide (r = "owner"))
           then Throw (Error "Only the document owner can perform this action")
           else Ok (d, r)
       end, st)).
  { intros level d Hd.
    unfold getDocumentWithAccess, findById, gets, throw, mbind, M_bind, mret, M_ret.
    rewrite Hd. destruct (getUserRole d u) as [r|]; cbn [falsy_str]; [|done].
    destruct (bool_decide (r = "")); [done|].
    cbn [default from_option]. unfold id. by repeat case_match. }
  assert (Hmissing : ∀ level, documents st !! docId = None →
    getDocumentWithAccess docId u level st = (Throw (Error "Document not found"), st)).
  { intros level Hd.
    unfold getDocumentWithAccess, findById, gets, throw, mbind, M_bind.
    by rewrite Hd. }
  split; [|split; [|split]].
  - intros level. unfold run. destruct (documents st !! docId) as [d|] eqn:Hd.
    + by rewrite (Hfound level d eq_refl).
    + by rewrite (Hmissing level eq_refl).
  - intros doc role. split.
    + intros H. destruct (documents st !! docId) as [d|] eqn:Hd;
        [rewrite (Hfound _ d eq_refl) in H | by rewrite (Hmissing _ eq_refl) in H].
      unfold canEdit. destruct (getUserRole d u) as [r|] eqn:Hr; [|done].
      destruct (bool_decide (r = "")); [done|].
      rewrite bool_decide_true in H by done. cbn [andb] in H.
      destruct (bool_decide (r ∈ EDIT_ROLES)) eqn:He; cbn [negb] in H; [|done].
      rewrite bool_decide_false in H by done. cbn [andb] in H.
      injection H as <- <-. by rewrite Hr.
    + intros (Hd & Hr & He). rewrite (Hfound _ doc Hd), Hr.
      unfold canEdit in He. rewrite Hr in He.
      assert (role ≠ "") as Hne.
      { intros ->. apply bool_decide_eq_true, elem_of_EDIT_ROLES in He.
        by destruct He. }
      rewrite (bool_decide_false (role = "")) by done.
      rewrite He. rewrite bool_decide_true by done. cbn [andb negb].
      by rewrite bool_decide_false.
  - intros doc role. split.
    + intros H. destruct (documents st !! docId) as [d|] eqn:Hd;
        [rewrite (Hfound _ d eq_refl) in H | by rewrite (Hmissing _ eq_refl) in H].
      unfold isOwner. destruct (getUserRole d u) as [r|] eqn:Hr; [|done].
      destruct (bool_decide (r = "")); [done|].
      rewrite bool_decide_false in H by done. cbn [andb] in H.
      rewrite bool_decide_true in H by done. cbn [andb] in H.
      destruct (bool_decide_reflect (r = "owner")) as [->|Ho]; cbn [negb] in H; [|done].
      injection H as <- <-. rewrite Hr. by rewrite bool_decide_true.
    + intros (Hd & -> & Ho). rewrite (Hfound _ doc Hd).
      unfold isOwner in Ho. apply bool_decide_eq_true in Ho. rewrite Ho.
      rewrite (bool_decide_false ("owner" = "")) by done.
      rewrite (bool_decide_false ("owner" = "edit")) by done. cbn [andb].
      by rewrite !bool_decide_true.
  - intros doc role. split.
    + intros H. destruct (documents st !! docId) as [d|] eqn:Hd;
        [rewrite (Hfound _ d eq_refl) in H | by rewrite (Hmissing _ eq_refl) in H].
      destruct (getUserRole d u) as [r|] eqn:Hr; [|done].
      destruct (bool_decide_reflect (r = "")) as [|Hne]; [done|].
      rewrite !bool_decide_false in H by done. cbn [andb] in H.
      injection H as <- <-. by rewrite Hr.
    + intros (Hd & Hr & Hne). rewrite (Hfound _ doc Hd), Hr.
      rewrite (bool_decide_false (role = "")) by done.
      by rewrite (bool_decide_false ("read" = "edit")),
        (bool_decide_false ("read" = "owner")).
Qed.

Lemma getDocumentWithAccess_agrees_witness :
  getDocumentWithAccess "d" "u2" "edit" (sampleServer "AC")
  = (Ok (sampleDocument "AC", "editor"), sampleServer "AC").
Proof.
  apply (proj1 (proj2 (getDocumentWithAccess_agrees (sampleServer "AC") "d" "u2"))
           (sampleDocument "AC") "editor").
  repeat split; reflexivity.
Defined.

Lemma permission_ladder_witness :
  getUserRole (mkDocument "t" "" "u1" [mkShare "u1" "viewer"] 1 []) "u1" = Some "owner".
Proof.
  exact (proj1 (permission_ladder (mkDocument "t" "" "u1" [mkShare "u1" "viewer"] 1 [])
                  "u1") eq_refl).
Defined.

(** ** The [operation] handler: refusals and answers *)

(** X15. An operation from a user who may not edit the document (a viewer, a
    commenter, a stranger), or for a document that is not in the store, only
    draws one [error_message], whatever the operation: no document, buffer,
    room or user map changes. For a stored document the message is "Edit
    permission denied."; the permission is read from the stored document at
    the time of the event. *)
Theorem operation_denied_without_edit
  (st : Server) (socket : Socket) (docId : string) (operation : option Operation)
  (now : Z) :
  (∀ doc, documents st !! docId = Some doc →
     canEdit doc (user_id (socket_user socket)) = false) →
  ∃ message,
    run (on_operation socket docId operation now) st = refused socket message st
    ∧ documents (refused socket message st) = documents st
    ∧ operationBuffers (refused socket message st) = operationBuffers st
    ∧ rooms (refused socket message st) = rooms st
    ∧ activeUsers (refused socket message st) = activeUsers st
    ∧ (∀ doc, documents st !! docId = Some doc → message = "Edit permission denied.").
Proof.
  intros Hdeny.
  unfold run, on_operation, tryCatch, findById, gets, mbind, M_bind.
  destruct (documents st !! docId) as [doc|] eqn:Hdoc; cbn [from_option negb].
  - rewrite (Hdeny doc eq_refl). simpl. eexists. split; [reflexivity|]. by split_and!.
  - eexists. split; [reflexivity|]. by split_and!.
Qed.

Lemma operation_denied_without_edit_witness :
  run (on_operation (mkSocket "s3" (mkUser "u3" "carol")) "d"
         (Some (insertOp 0 "X" 1)) 100) (sampleServer "AC")
  = refused (mkSocket "s3" (mkUser "u3" "carol")) "Edit permission denied."
      (sampleServer "AC").
Proof.
  destruct (operation_denied_without_edit (sampleServer "AC")
              (mkSocket "s3" (mkUser "u3" "carol")) "d" (Some (insertOp 0 "X" 1)) 100)
    as (message & Hrun & _ & _ & _ & _ & Hmsg).
  - intros doc Hdoc. vm_compute in Hdoc. injection Hdoc as <-. reflexivity.
  - rewrite Hrun. by rewrite (Hmsg (sampleDocument "AC") eq_refl).
Defined.


(** ** Buffered inserts carry their text *)

Lemma transformOperation_hasText a b r :
  transformOperation a b = Ok r → hasText a → hasText r.
Proof.
  intros Hr Ha.
  destruct (transformOperation_payload a b) as [Hok _].
  destruct (Hok r Hr) as (Htext & _ & [Hty|(_ & _ & Hty & _)]).
  - unfold hasText. rewrite Htext, Hty. exact Ha.
  - intros Hi. rewrite Hty in Hi. discriminate.
Qed.

Lemma transformOperation_total a b :
  hasText b → ∃ r, transformOperation a b = Ok r.
Proof.
  intros Hb. destruct (transformOperation a b) as [r|e] eqn:Hr; [by eexists|].
  destruct (transformOperation_payload a b) as [_ Hthrow].
  destruct (Hthrow e Hr) as (_ & Hty & Hnone).
  destruct (Hb Hty) as [t Ht]. congruence.
Qed.

Lemma transformLoop_total buffer :
  Forall (λ entry, hasText (entry_operation entry)) buffer →
  ∀ op, ∃ top, transformLoop op buffer = Ok top ∧ (hasText op → hasText top).
Proof.
  induction 1 as [|entry buffer Hentry _ IH]; intros op; simpl.
  - by exists op.
  - destruct (transformOperation_total op (entry_operation entry) Hentry) as [r Hr].
    rewrite Hr. cbn [mbind result_bind].
    pose proof (transformOperation_hasText _ _ _ Hr) as Hkeep.
    destruct (decide (op_type r = "noop")); [by exists r|].
    destruct (IH r) as (top & Htop & Htext). exists top. split; [done|]. auto.
Qed.

Lemma transformMissed_total doc buffer op :
  Forall (λ entry, hasText (entry_operation entry)) buffer →
  ∃ top, transformMissed doc buffer op = Ok top ∧ (hasText op → hasText top).
Proof.
  intros Hbuf. unfold transformMissed.
  destruct (nltb _ _); [|by exists op].
  apply transformLoop_total. apply Forall_forall. intros entry Hin.
  apply list_elem_of_In, filter_In in Hin as [Hin _].
  eapply Forall_forall in Hbuf; [done|]. by apply list_elem_of_In.
Qed.

Lemma checkOperation_hasText op : checkOperation (Some op) = inr op → hasText op.
Proof.
  unfold checkOperation, hasText. intros Hcheck Hty. rewrite Hty in Hcheck.
  destruct (op_text op) as [t|]; [by eexists|].
  simpl in Hcheck. by repeat case_match.
Qed.

Lemma bufferOf_hasText st id :
  buffersHaveText st → Forall (λ entry, hasText (entry_operation entry)) (bufferOf st id).
Proof.
  intros Hok. unfold bufferOf.
  destruct (operationBuffers st !! id) as [buffer|] eqn:Hbuf; simpl; [|done].
  by eapply Hok.
Qed.

Lemma buffersHaveText_withBuffer st id :
  buffersHaveText st → buffersHaveText (withBuffer st id).
Proof.
  intros Hok id' buffer. unfold withBuffer.
  destruct (operationBuffers st !! id) eqn:Hbuf; [apply Hok|]. simpl.
  destruct (decide (id = id')) as [<-|Hne].
  - rewrite lookup_insert_eq. by intros [= <-].
  - rewrite lookup_insert_ne by done. apply Hok.
Qed.

Lemma step_buffersHaveText s s' : step s s' → buffersHaveText s → buffersHaveText s'.
Proof.
  intros Hstep Hok. destruct Hstep as [socket docId operation now|socket docId now
    |socket docId|u docId version now].
  - destruct (documents s !! docId) as [doc|] eqn:Hdoc.
    2:{ destruct (on_operation_refused s socket docId operation now) as [m ->]; [|done].
        intros op _ [(d & Hd & _) _]. congruence. }
    destruct (canEdit doc (user_id (socket_user socket))) eqn:Hedit.
    2:{ destruct (on_operation_refused s socket docId operation now) as [m ->]; [|done].
        intros op _ [(d & Hd & Hed) _]. congruence. }
    destruct (checkOperation operation) as [message|op] eqn:Hcheck.
    { destruct (on_operation_refused s socket docId operation now) as [m ->]; [|done].
      intros op -> [_ Hc]. congruence. }
    pose proof (checkOperation_inr _ _ Hcheck) as ->.
    destruct (transformMissed_total doc (bufferOf s docId) op (bufferOf_hasText s docId Hok))
      as (top & Htop & Htext).
    specialize (Htext (checkOperation_hasText op Hcheck)).
    destruct (decide (op_type top = "noop")) as [Hnoop|Hnoop].
    + rewrite (on_operation_noop s socket docId op now doc top) by done.
      by apply buffersHaveText_withBuffer.
    + rewrite (on_operation_applied s socket docId op now doc top) by done.
      intros id' buffer. simpl. destruct (decide (docId = id')) as [<-|Hne].
      * rewrite lookup_insert_eq. intros [= <-]. rewrite trimBuffer_drop.
        apply Forall_drop, Forall_app. split; [by apply bufferOf_hasText|].
        by apply Forall_singleton.
      * rewrite lookup_insert_ne by done. by apply buffersHaveText_withBuffer.
  - destruct (join_document_frame socket docId now s) as [_ Hb].
    intros id' buffer. rewrite Hb. apply Hok.
  - destruct (handleUserLeave_frame socket docId s) as [_ [Hb|Hb]];
      intros id' buffer; rewrite Hb; [apply Hok|].
    intros Hl. apply lookup_delete_Some in Hl as [_ Hl]. by eapply Hok.
  - destruct (restoreVersion_frame u docId version now s) as [Hb _].
    intros id' buffer. rewrite Hb. apply Hok.
Qed.

Lemma reachable_buffersHaveText s : reachable s → buffersHaveText s.
Proof.
  induction 1 as [s Hempty|s s' _ IH Hstep].
  - intros id buffer. by rewrite Hempty, lookup_empty.
  - by eapply step_buffersHaveText.
Qed.

(** X17. In every state the server reaches from empty buffers, an operation
    that passes the handler's checks is acknowledged: the transformation
    against the buffered operations cannot throw there (every buffered
    insert carries its text), so the answer is the ack with its two
    broadcasts and never "Failed to apply operation.". *)
Theorem accepted_operation_is_acknowledged
  (st : Server) (socket : Socket) (id : string) (op : Operation) (now : Z) :
  reachable st → accepted st socket id op →
  let uid := user_id (socket_user socket) in
  let name := user_username (socket_user socket) in
  ∃ doc top v,
    documents st !! id = Some doc
    ∧ transformMissed doc (bufferOf st id) op = Ok top
    ∧ outbox (run (on_operation socket id (Some op) now) st)
      = outbox st ++
        [(ToSocket (socket_id socket), operation_ack top v uid);
         (ToRoomExcept (roomOf id) (socket_id socket), remote_operation top v uid name);
         (ToRedis (roomOf id) (SERVER_ID st), remote_operation top v uid name)].
Proof.
  intros Hreach [(doc & Hdoc & Hedit) Hcheck] uid name.
  pose proof (reachable_buffersHaveText st Hreach) as Hok.
  destruct (transformMissed_total doc (bufferOf st id) op (bufferOf_hasText st id Hok))
    as (top & Htop & _).
  destruct (decide (op_type top = "noop")) as [Hnoop|Hnoop].
  - exists doc, top, (doc_version doc). split; [done|]. split; [done|].
    rewrite (on_operation_noop st socket id op now doc top) by done.
    by rewrite acknowledged_outbox, withBuffer_outbox, withBuffer_SERVER_ID.
  - exists doc, top, (doc_version doc + 1). split; [done|]. split; [done|].
    rewrite (on_operation_applied st socket id op now doc top) by done.
    rewrite acknowledged_outbox. simpl.
    by rewrite withBuffer_outbox, withBuffer_SERVER_ID.
Qed.

Lemma accepted_operation_is_acknowledged_witness :
  ∃ doc top v,
    documents serverAE !! "d" = Some doc
    ∧ transformMissed doc (bufferOf serverAE "d") (deleteOp 2 2 1) = Ok top
    ∧ outbox (run (on_operation bob "d" (Some (deleteOp 2 2 1)) 101) serverAE)
      = outbox serverAE ++
        [(ToSocket "s2", operation_ack top v "u2");
         (ToRoomExcept "doc:d" "s2", remote_operation top v "u2" "bob");
         (ToRedis "doc:d" "srv", remote_operation top v "u2" "bob")].
Proof.
  apply (accepted_operation_is_acknowledged serverAE bob "d" (deleteOp 2 2 1) 101).
  - apply (reachable_step (sampleServer "ABCDE")); [by apply reachable_start|].
    apply step_operation.
  - split; [exists documentAE; split; reflexivity | reflexivity].
Defined.

(** ** Joining and leaving *)

Lemma join_document_ok st socket docId now doc role :
  documents st !! docId = Some doc →
  getUserRole doc (user_id (socket_user socket)) = Some role → role ≠ "" →
  run (join_document socket docId now) st = joined socket docId now doc role st.
Proof.
  intros Hdoc Hrole Hne.
  unfold run, join_document, tryCatch, getDocumentWithAccess, findById, gets,
    getDocumentUsers, get, emit, modify, throw, mbind, M_bind, mret, M_ret.
  rewrite Hdoc, Hrole. cbn [falsy_str]. rewrite (bool_decide_false (role = "")) by done.
  cbn [default from_option]. unfold id.
  rewrite (bool_decide_false ("read" = "edit")), (bool_decide_false ("read" = "owner"))
    by done.
  cbn [andb]. unfold joined.
  unfold upd_outbox, upd_activeSubscriptions, upd_presence, upd_activeUsers,
    upd_socketDocument, upd_rooms. simpl.
  destruct (activeUsers st !! docId) as [users|] eqn:Husers; simpl;
    rewrite <- ?app_assoc; simpl.
  - done.
  - by rewrite insert_insert_eq.
Qed.

Lemma handleUserLeave_state socket docId st :
  run (handleUserLeave socket docId) st = afterLeave socket docId st.
Proof.
  unfold run, handleUserLeave, getDocumentUsers, clearBuffer, get, emit, modify,
    mbind, M_bind, mret, M_ret, afterLeave.
  unfold upd_outbox, upd_activeSubscriptions, upd_presence, upd_activeUsers,
    upd_operationBuffers, upd_rooms. simpl.
  destruct (activeUsers st !! docId) as [users|] eqn:Husers; simpl;
    rewrite <- ?app_assoc; simpl.
  - destruct (bool_decide (length (jsMap_delete users _) = 0%nat)); simpl; [|done].
    by rewrite delete_insert_eq.
  - by rewrite insert_insert_eq, delete_insert_eq.
Qed.

Lemma jsMap_get_set_ne {V} (m : jsMap V) k k' v :
  k ≠ k' → jsMap_get (jsMap_set m k v) k' = jsMap_get m k'.
Proof.
  intros Hne. unfold jsMap_get. induction m as [|[k0 v0] m IH]; simpl.
  - by rewrite bool_decide_false.
  - destruct (decide (k0 = k)) as [->|Hk]; simpl.
    + by rewrite !bool_decide_false.
    + destruct (bool_decide (k0 = k')); [done|]. apply IH.
Qed.

Lemma jsMap_get_delete {V} (m : jsMap V) k : jsMap_get (jsMap_delete m k) k = None.
Proof.
  unfold jsMap_get, jsMap_delete. induction m as [|[k0 v0] m IH]; simpl; [done|].
  destruct (bool_decide_reflect (k0 = k)) as [->|Hk]; simpl; [done|].
  by rewrite bool_decide_false.
Qed.

Lemma jsMap_get_delete_ne {V} (m : jsMap V) k k' :
  k ≠ k' → jsMap_get (jsMap_delete m k) k' = jsMap_get m k'.
Proof.
  intros Hne. unfold jsMap_get, jsMap_delete.
  induction m as [|[k0 v0] m IH]; simpl; [done|].
  destruct (bool_decide_reflect (k0 = k)) as [->|Hk]; simpl.
  - by rewrite bool_decide_false.
  - destruct (bool_decide (k0 = k')); [done|]. apply IH.
Qed.

Lemma jsMap_set_set {V} (m : jsMap V) k v1 v2 :
  jsMap_set (jsMap_set m k v1) k v2 = jsMap_set m k v2.
Proof.
  induction m as [|[k0 v0] m IH]; simpl.
  - by destruct (decide (k = k)).
  - destruct (decide (k0 = k)) as [->|Hk]; simpl.
    + by destruct (decide (k = k)).
    + destruct (decide (k0 = k)); [done|]. by rewrite IH.
Qed.

Lemma jsMap_delete_fresh {V} (m : jsMap V) k :
  jsMap_get m k = None → jsMap_delete m k = m.
Proof.
  unfold jsMap_get, jsMap_delete. induction m as [|[k0 v0] m IH]; simpl; [done|].
  destruct (bool_decide_reflect (k0 = k)) as [->|Hk]; simpl; [done|].
  intros H. by rewrite IH.
Qed.

Lemma jsMap_delete_set_fresh {V} (m : jsMap V) k v :
  jsMap_get m k = None → jsMap_delete (jsMap_set m k v) k = m.
Proof.
  unfold jsMap_get, jsMap_delete. induction m as [|[k0 v0] m IH]; simpl.
  - by rewrite bool_decide_true.
  - destruct (bool_decide_reflect (k0 = k)) as [->|Hk]; simpl; [done|].
    destruct (decide (k0 = k)); [done|]. simpl.
    rewrite bool_decide_false by done. simpl. intros H. by rewrite IH.
Qed.

(** X18. A user without a role on the document, or any user when the
    document is not in the store, cannot join: the handler answers with one
    [error_message] and changes nothing else. The socket enters no room and
    no user map, no presence entry is written, nothing is subscribed. For a
    stored document the message is "You do not have access to this
    document". *)
Theorem join_denied_without_role
  (st : Server) (socket : Socket) (docId : string) (now : Z) :
  (∀ doc, documents st !! docId = Some doc →
     falsy_str (getUserRole doc (user_id (socket_user socket))) = true) →
  ∃ message,
    run (join_document socket docId now) st = refused socket message st
    ∧ rooms (refused socket message st) = rooms st
    ∧ activeUsers (refused socket message st) = activeUsers st
    ∧ presence (refused socket message st) = presence st
    ∧ activeSubscriptions (refused socket message st) = activeSubscriptions st
    ∧ socketDocument (refused socket message st) = socketDocument st
    ∧ (∀ doc, documents st !! docId = Some doc →
         message = "You do not have access to this document").
Proof.
  intros Hdeny.
  unfold run, join_document, tryCatch, getDocumentWithAccess, findById, gets,
    throw, mbind, M_bind.
  destruct (documents st !! docId) as [doc|] eqn:Hdoc.
  - rewrite (Hdeny doc eq_refl). eexists. split; [reflexivity|]. by split_and!.
  - eexists. split; [reflexivity|]. by split_and!.
Qed.

Lemma join_denied_without_role_witness :
  let st := sampleServer "AC" in
  let carol := mkSocket "s3" (mkUser "u3" "carol") in
  run (join_document carol "d" 100) st
  = refused carol "You do not have access to this document" st.
Proof.
  intros st carol.
  destruct (join_denied_without_role st carol "d" 100)
    as (message & Hrun & _ & _ & _ & _ & _ & Hmsg).
  - intros doc Hdoc. vm_compute in Hdoc. injection Hdoc as <-. reflexivity.
  - rewrite Hrun. by rewrite (Hmsg (sampleDocument "AC") eq_refl).
Defined.

Lemma jsMap_delete_nil {V} (m : jsMap V) k :
  (∀ k', k' ≠ k → jsMap_get m k' = None) → jsMap_delete m k = [].
Proof.
  unfold jsMap_get, jsMap_delete. induction m as [|[k0 v0] m IH]; simpl; [done|].
  intros Hall. destruct (bool_decide_reflect (k0 = k)) as [->|Hk]; simpl.
  - apply IH. intros k' Hk'. specialize (Hall k' Hk').
    by rewrite bool_decide_false in Hall.
  - specialize (Hall k0 Hk). by rewrite bool_decide_true in Hall.
Qed.

Lemma jsMap_delete_cons {V} (m : jsMap V) k k' v :
  k' ≠ k → jsMap_get m k' = Some v → jsMap_delete m k ≠ [].
Proof.
  intros Hne Hget Hnil.
  rewrite <- (jsMap_get_delete_ne m k k') in Hget by done.
  by rewrite Hnil in Hget.
Qed.

(** X19. Leaving takes the socket out of the document's room and leaves the
    other sockets of the room where they are; the user disappears from the
    document's user map and from the presence store, whoever else is still
    connected, and no document is touched. *)
Theorem leave_removes_user
  (st : Server) (socket : Socket) (id : string) :
  let st' := run (handleUserLeave socket id) st in
  let uid := user_id (socket_user socket) in
  ¬ inRoom st' (roomOf id) (socket_id socket)
  ∧ (∀ other, other ≠ socket_id socket →
       inRoom st' (roomOf id) other ↔ inRoom st (roomOf id) other)
  ∧ (activeUsers st' !! id) ≫= (λ users, jsMap_get users uid) = None
  ∧ presence st' !! presenceKey id uid = None
  ∧ documents st' = documents st.
Proof.
  intros st' uid. subst st'. rewrite handleUserLeave_state.
  unfold afterLeave, inRoom. simpl. split_and!.
  - rewrite lookup_insert_eq. simpl. rewrite elem_of_difference, elem_of_singleton.
    tauto.
  - intros other Hother. rewrite lookup_insert_eq. simpl.
    rewrite elem_of_difference, elem_of_singleton. tauto.
  - destruct (bool_decide (length _ = 0%nat)).
    + by rewrite lookup_delete_eq.
    + rewrite lookup_insert_eq. simpl. apply jsMap_get_delete.
  - apply lookup_delete_eq.
  - done.
Qed.

(** X20. When the leaving user was the only one listed for the document,
    the document's user map, its operation buffer and both of its channel
    subscriptions are dropped, and nothing of any other document is: the
    user maps and buffers of the other documents and every other channel
    subscription stay as they were, and so do the stored documents. *)
Theorem last_leave_releases_document
  (st : Server) (socket : Socket) (docId : string) :
  (∀ users other, activeUsers st !! docId = Some users →
     other ≠ user_id (socket_user socket) → jsMap_get users other = None) →
  let st' := run (handleUserLeave socket docId) st in
  activeUsers st' = delete docId (activeUsers st)
  ∧ operationBuffers st' = delete docId (operationBuffers st)
  ∧ activeSubscriptions st'
    = activeSubscriptions st ∖ {[roomOf docId]} ∖ {[presenceChannel docId]}
  ∧ documents st' = documents st
  ∧ activeUsers st' !! docId = None
  ∧ operationBuffers st' !! docId = None
  ∧ (roomOf docId ∉ activeSubscriptions st')
  ∧ (presenceChannel docId ∉ activeSubscriptions st')
  ∧ (∀ channel, channel ≠ roomOf docId → channel ≠ presenceChannel docId →
       channel ∈ activeSubscriptions st' ↔ channel ∈ activeSubscriptions st)
  ∧ (∀ id', id' ≠ docId →
       activeUsers st' !! id' = activeUsers st !! id'
       ∧ operationBuffers st' !! id' = operationBuffers st !! id').
Proof.
  intros Halone st'. subst st'. rewrite handleUserLeave_state.
  unfold afterLeave. simpl.
  rewrite (jsMap_delete_nil (default [] (activeUsers st !! docId))).
  2:{ intros k' Hk'. destruct (activeUsers st !! docId) as [users|] eqn:Hu; simpl.
      - by apply Halone.
      - done. }
  simpl. split_and!; try done.
  - apply lookup_delete_eq.
  - apply lookup_delete_eq.
  - rewrite !elem_of_difference, !elem_of_singleton. tauto.
  - rewrite !elem_of_difference, !elem_of_singleton. tauto.
  - intros channel H1 H2. rewrite !elem_of_difference, !elem_of_singleton. tauto.
  - intros id' Hne. by rewrite !lookup_delete_ne.
Qed.

Lemma last_leave_releases_document_witness :
  let st := run (join_document alice "d" 100) serverAE in
  let st' := run (handleUserLeave alice "d") st in
  activeUsers st' !! "d" = None
  ∧ operationBuffers st' !! "d" = None
  ∧ activeSubscriptions st'
    = activeSubscriptions st ∖ {[roomOf "d"]} ∖ {[presenceChannel "d"]}.
Proof.
  intros st.
  destruct (last_leave_releases_document st alice "d")
    as (_ & _ & Hsubs & _ & Husers & Hbuffer & _).
  - intros users other Husers Hother. vm_compute in Husers.
    injection Husers as <-. unfold jsMap_get. simpl.
    by rewrite bool_decide_false.
  - split; [exact Husers|]. split; [exact Hbuffer | exact Hsubs].
Defined.

(** X21. When another user is still listed for the document, a leave keeps
    that user's entry, the operation buffer and the channel subscriptions. *)
Theorem leave_keeps_document_of_others
  (st : Server) (socket : Socket) (id other : string)
  (users : jsMap UserData) (data : UserData) :
  activeUsers st !! id = Some users →
  other ≠ user_id (socket_user socket) →
  jsMap_get users other = Some data →
  let st' := run (handleUserLeave socket id) st in
  (activeUsers st' !! id) ≫= (λ users, jsMap_get users other) = Some data
  ∧ operationBuffers st' = operationBuffers st
  ∧ activeSubscriptions st' = activeSubscriptions st.
Proof.
  intros Husers Hother Hdata st'. subst st'. rewrite handleUserLeave_state.
  unfold afterLeave. unfold jsMap in *. rewrite Husers. simpl.
  rewrite bool_decide_false.
  2:{ intros Hlen. apply nil_length_inv in Hlen.
      by apply (jsMap_delete_cons users (user_id (socket_user socket)) other data). }
  rewrite lookup_insert_eq. simpl.
  by rewrite jsMap_get_delete_ne.
Qed.

Lemma leave_keeps_document_of_others_witness :
  let st := run (join_document bob "d" 101)
              (run (join_document alice "d" 100) serverAE) in
  let st' := run (handleUserLeave alice "d") st in
  (activeUsers st' !! "d") ≫= (λ users, jsMap_get users "u2")
    = Some (mkUserData "u2" "bob" "editor" 101)
  ∧ operationBuffers st' = operationBuffers st
  ∧ activeSubscriptions st' = activeSubscriptions st.
Proof.
  intros st.
  apply (leave_keeps_document_of_others st alice "d" "u2"
           [("u1", mkUserData "u1" "alice" "owner" 100);
            ("u2", mkUserData "u2" "bob" "editor" 101)]).
  - reflexivity.
  - discriminate.
  - reflexivity.
Defined.

(** X22. Joining again is idempotent on the membership: after a second
    [join_document] of the same socket the room, the user map, the presence
    store, the subscriptions and the socket's document are exactly what a
    single join at the later time gives (the user's entry is replaced, with
    the later [joinedAt], and not added a second time). *)
Theorem join_twice_is_join_once
  (st : Server) (socket : Socket) (docId : string) (now1 now2 : Z)
  (doc : Document) (role : string) :
  documents st !! docId = Some doc →
  getUserRole doc (user_id (socket_user socket)) = Some role →
  role ≠ "" →
  let once := run (join_document socket docId now2) st in
  let twice :=
    run (join_document socket docId now2) (run (join_document socket docId now1) st) in
  rooms twice = rooms once
  ∧ activeUsers twice = activeUsers once
  ∧ presence twice = presence once
  ∧ activeSubscriptions twice = activeSubscriptions once
  ∧ socketDocument twice = socketDocument once
  ∧ documents twice = documents st.
Proof.
  intros Hdoc Hrole Hne once twice. subst once twice.
  rewrite (join_document_ok st socket docId now1 doc role) by done.
  rewrite (join_document_ok st socket docId now2 doc role) by done.
  rewrite (join_document_ok _ socket docId now2 doc role) by done.
  unfold joined. simpl. rewrite !lookup_insert_eq. simpl. split_and!.
  - rewrite insert_insert_eq. f_equal.
    rewrite <- (assoc_L (∪)). by rewrite (idemp_L (∪)).
  - rewrite insert_insert_eq. f_equal. apply jsMap_set_set.
  - by rewrite insert_insert_eq.
  - set (subs := activeSubscriptions st).
    apply set_eq. intros x. rewrite !elem_of_union. tauto.
  - by rewrite insert_insert_eq.
  - done.
Qed.

Lemma join_twice_is_join_once_witness :
  let once := run (join_document bob "d" 200) (sampleServer "AC") in
  let twice :=
    run (join_document bob "d" 200) (run (join_document bob "d" 100) (sampleServer "AC")) in
  rooms twice = rooms once
  ∧ activeUsers twice = activeUsers once
  ∧ presence twice = presence once
  ∧ activeSubscriptions twice = activeSubscriptions once
  ∧ socketDocument twice = socketDocument once
  ∧ documents twice = documents (sampleServer "AC").
Proof.
  apply (join_twice_is_join_once (sampleServer "AC") bob "d" 100 200
           (sampleDocument "AC") "editor").
  - reflexivity.
  - reflexivity.
  - discriminate.
Defined.

(** X23. A join followed by the leave of the same socket, on a document
    nobody was listed for, gives back the user map; the socket is out of the
    room again, the presence entry is gone and both channels are
    unsubscribed. The document's operation buffer does not survive the round
    trip: it is deleted even if it held operations before the join. The
    clients were sent the document state, the two join notices and the two
    leave notices, in this order. *)
Theorem join_then_leave
  (st : Server) (socket : Socket) (docId : string) (now : Z)
  (doc : Document) (role : string) :
  documents st !! docId = Some doc →
  getUserRole doc (user_id (socket_user socket)) = Some role →
  role ≠ "" →
  activeUsers st !! docId = None →
  let user := socket_user socket in
  let userData := mkUserData (user_id user) (user_username user) role now in
  let st' := run (handleUserLeave socket docId) (run (join_document socket docId now) st) in
  activeUsers st' = activeUsers st
  ∧ operationBuffers st' = delete docId (operationBuffers st)
  ∧ presence st' = delete (presenceKey docId (user_id user)) (presence st)
  ∧ activeSubscriptions st'
    = activeSubscriptions st ∖ {[roomOf docId]} ∖ {[presenceChannel docId]}
  ∧ ¬ inRoom st' (roomOf docId) (socket_id socket)
  ∧ documents st' = documents st
  ∧ outbox st' = outbox st ++
      [(ToSocket (socket_id socket),
        document_state (doc_title doc) (doc_content doc) (doc_version doc)
          (doc_owner doc) role [userData]);
       (ToRoomExcept (roomOf docId) (socket_id socket), user_joined userData);
       (ToRedis (presenceChannel docId) (SERVER_ID st), user_joined userData);
       (ToRoomExcept (roomOf docId) (socket_id socket),
        user_left (user_id user) (user_username user));
       (ToRedis (presenceChannel docId) (SERVER_ID st),
        user_left (user_id user) (user_username user))].
Proof.
  intros Hdoc Hrole Hne Hnone user userData st'. subst st' user userData.
  rewrite (join_document_ok st socket docId now doc role) by done.
  rewrite handleUserLeave_state.
  unfold afterLeave, joined, inRoom. simpl. rewrite !lookup_insert_eq.
  unfold jsMap in *. rewrite Hnone. simpl.
  rewrite (bool_decide_true (user_id (socket_user socket) = _)) by done. simpl.
  split_and!.
  - rewrite delete_insert_eq. by apply delete_id.
  - done.
  - by rewrite delete_insert_eq.
  - apply set_eq. intros x.
    rewrite !elem_of_difference, !elem_of_union, !elem_of_singleton. tauto.
  - rewrite elem_of_difference, elem_of_singleton. tauto.
  - done.
  - by rewrite <- app_assoc.
Qed.

Lemma join_then_leave_witness :
  let st' := run (handleUserLeave alice "d") (run (join_document alice "d" 100) serverAE) in
  operationBuffers serverAE !! "d" ≠ None
  ∧ operationBuffers st' = delete "d" (operationBuffers serverAE)
  ∧ activeUsers st' = activeUsers serverAE.
Proof.
  intros st'. split; [by vm_compute|].
  destruct (join_then_leave serverAE alice "d" 100 documentAE "owner")
    as (Husers & Hbuffers & _).
  - reflexivity.
  - reflexivity.
  - discriminate.
  - reflexivity.
  - by split.
Defined.

(** ** Sharing *)

Lemma find_setShare_same l u r :
  List.find (λ entry, bool_decide (share_userId entry = u)) (setShare l u r)
  = Some (mkShare u r).
Proof.
  induction l as [|e l IH]; simpl.
  - by rewrite bool_decide_true.
  - destruct (bool_decide_reflect (share_userId e = u)) as [Heq|Hne]; simpl.
    + rewrite bool_decide_true by done. by rewrite Heq.
    + by rewrite bool_decide_false.
Qed.

Lemma find_setShare_other l u r u' :
  u' ≠ u →
  List.find (λ entry, bool_decide (share_userId entry = u')) (setShare l u r)
  = List.find (λ entry, bool_decide (share_userId entry = u')) l.
Proof.
  intros Hne. induction l as [|e l IH]; simpl.
  - by rewrite bool_decide_false.
  - destruct (bool_decide_reflect (share_userId e = u)) as [Heq|Hneq]; simpl.
    + rewrite !bool_decide_false by congruence. done.
    + destruct (bool_decide (share_userId e = u')); [done|apply IH].
Qed.

Lemma setShare_ids l u r :
  share_userId <$> setShare l u r =
    if bool_decide (u ∈ share_userId <$> l) then share_userId <$> l
    else (share_userId <$> l) ++ [u].
Proof.
  induction l as [|e l IH].
  - destruct (bool_decide_reflect (u ∈ share_userId <$> [])) as [Hin|Hnin]; [|done].
    by apply elem_of_nil in Hin.
  - cbn [setShare].
    destruct (bool_decide_reflect (share_userId e = u)) as [Heq|Hneq].
    + rewrite bool_decide_true; [done|]. rewrite fmap_cons, Heq. apply list_elem_of_here.
    + rewrite !fmap_cons, IH.
      destruct (bool_decide_reflect (u ∈ share_userId <$> l)) as [Hin|Hnin].
      * rewrite bool_decide_true; [done|]. by apply list_elem_of_further.
      * rewrite bool_decide_false; [done|].
        intros [?|?]%elem_of_cons; [congruence|done].
Qed.

Lemma setShare_roles (P : string → Prop) l u r :
  Forall (λ entry, P (share_role entry)) l → P r →
  Forall (λ entry, P (share_role entry)) (setShare l u r).
Proof.
  intros Hl Hr. induction Hl as [|e l He Hl IH]; simpl.
  - by constructor.
  - destruct (bool_decide (share_userId e = u)); by constructor.
Qed.

Lemma getUserRole_setShare_same d u r :
  doc_owner d ≠ u →
  getUserRole (set_sharedWith d (setShare (doc_sharedWith d) u r)) u = Some r.
Proof.
  intros Hne. unfold getUserRole. simpl.
  destruct (decide (doc_owner d = u)); [done|].
  by rewrite find_setShare_same.
Qed.

Lemma getUserRole_setShare_other d u r u' :
  u' ≠ u →
  getUserRole (set_sharedWith d (setShare (doc_sharedWith d) u r)) u'
  = getUserRole d u'.
Proof.
  intros Hne. unfold getUserRole. simpl.
  destruct (decide (doc_owner d = u')); [done|].
  by rewrite find_setShare_other.
Qed.

Lemma shareListOk_setShare d u r :
  shareListOk d → doc_owner d ≠ u → r ∈ ["editor"; "commenter"; "viewer"] →
  shareListOk (set_sharedWith d (setShare (doc_sharedWith d) u r)).
Proof.
  intros (Hnodup & Howner & Hroles) Hne Hr. unfold shareListOk. simpl.
  rewrite setShare_ids. split_and!.
  - destruct (bool_decide_reflect (u ∈ share_userId <$> doc_sharedWith d)); [done|].
    apply NoDup_app. split_and!; [done| |apply NoDup_singleton].
    intros x Hx ->%list_elem_of_singleton. done.
  - destruct (bool_decide (u ∈ share_userId <$> doc_sharedWith d)); [done|].
    rewrite elem_of_app, list_elem_of_singleton. intros [?|?]; done.
  - by apply (setShare_roles (λ role, role ∈ ["editor"; "commenter"; "viewer"])).
Qed.

(** The owner of a document is the only user [getDocumentWithAccess] lets
    through at the level owner, when the share list is well formed. *)
Lemma shareListOk_owner d u :
  shareListOk d → getUserRole d u = Some "owner" → doc_owner d = u.
Proof.
  intros (_ & _ & Hroles). unfold getUserRole.
  destruct (decide (doc_owner d = u)); [done|].
  destruct (List.find _ _) as [e|] eqn:Hfind; simpl; [|done].
  intros [= Hrole]. apply find_some in Hfind as [Hin _].
  rewrite Forall_forall in Hroles. apply list_elem_of_In in Hin.
  apply Hroles in Hin. rewrite Hrole in Hin.
  rewrite !elem_of_cons, elem_of_nil in Hin.
  destruct Hin as [?|[?|[?|[]]]]; discriminate.
Qed.

(** What the route does, by cases on its guards. *)
Lemma shareDocument_cases findOne userId docId email role st :
  let c := shareDocument findOne userId docId email role st in
  (c.2 = st ∧ c.1 ≠ Ok 200)
  ∨ (∃ d e r target,
       documents st !! docId = Some d ∧ getUserRole d userId = Some "owner"
       ∧ email = Some e ∧ role = Some r ∧ e ≠ ""
       ∧ r ∈ ["editor"; "commenter"; "viewer"]
       ∧ findOne e = Some target ∧ target ≠ userId
       ∧ c = (Ok 200,
              upd_documents
                <[docId := set_sharedWith d (setShare (doc_sharedWith d) target r)]> st)).
Proof.
  intros c. subst c.
  unfold shareDocument, getDocumentWithAccess, findById, gets, throw, save, modify,
    mbind, M_bind, mret, M_ret.
  destruct (documents st !! docId) as [d|] eqn:Hd; [|by left].
  destruct (getUserRole d userId) as [r0|] eqn:Hr0; simpl; [|by left].
  destruct (bool_decide_reflect (r0 = "")) as [->|Hr0ne]; [by left|].
  destruct (bool_decide_reflect (r0 = "owner")) as [->|Hno]; simpl; [|by left].
  destruct email as [e|]; simpl; [|by left].
  destruct (bool_decide_reflect (e = "")) as [->|He]; simpl; [by left|].
  destruct role as [r|]; simpl; [|by left].
  destruct (bool_decide_reflect (r = "")) as [->|Hr]; simpl; [by left|].
  destruct (bool_decide_reflect (r ∈ ["editor"; "commenter"; "viewer"]))
    as [Hin|Hnin]; simpl; [|by left].
  destruct (findOne e) as [target|] eqn:Hfind; [|by left].
  destruct (bool_decide_reflect (target = userId)) as [->|Hself]; [by left|].
  right. by exists d, e, r, target.
Qed.

Lemma shareDocument_ok findOne st owner docId email role target doc :
  documents st !! docId = Some doc →
  doc_owner doc = owner →
  email ≠ "" →
  role ∈ ["editor"; "commenter"; "viewer"] →
  findOne email = Some target →
  target ≠ owner →
  shareDocument findOne owner docId (Some email) (Some role) st
  = (Ok 200,
     upd_documents
       <[docId := set_sharedWith doc (setShare (doc_sharedWith doc) target role)]> st).
Proof.
  intros Hdoc Howner Hemail Hrole Hfind Hself.
  assert (role ≠ "") as Hne.
  { intros ->. rewrite !elem_of_cons, elem_of_nil in Hrole.
    destruct Hrole as [?|[?|[?|[]]]]; discriminate. }
  unfold shareDocument, getDocumentWithAccess, findById, gets, throw, save, modify,
    mbind, M_bind, mret, M_ret.
  rewrite Hdoc. unfold getUserRole. rewrite decide_True by done. simpl.
  rewrite (bool_decide_false (email = "")) by done.
  rewrite (bool_decide_false (role = "")) by done. simpl.
  rewrite (bool_decide_true (role ∈ _)) by done. simpl.
  rewrite Hfind. by rewrite (bool_decide_false (target = owner)).
Qed.

(** X24. When the owner shares a document with another registered user, under
    one of the three roles, the route answers 200 and the stored document
    gives that user exactly this role, whether the user was on the share
    list before or not. The role of every other user, and the title,
    content, version, history and owner of the document, stay as they were. *)
Theorem share_grants_role
  (findOne : string → option string) (st : Server)
  (owner docId email role target : string) (doc : Document) :
  documents st !! docId = Some doc →
  doc_owner doc = owner →
  email ≠ "" →
  role ∈ ["editor"; "commenter"; "viewer"] →
  findOne email = Some target →
  target ≠ owner →
  ∃ doc',
    (shareDocument findOne owner docId (Some email) (Some role) st).1 = Ok 200
    ∧ documents (run (shareDocument findOne owner docId (Some email) (Some role)) st)
        !! docId = Some doc'
    ∧ getUserRole doc' target = Some role
    ∧ (∀ u, u ≠ target → getUserRole doc' u = getUserRole doc u)
    ∧ doc_title doc' = doc_title doc
    ∧ doc_content doc' = doc_content doc
    ∧ doc_version doc' = doc_version doc
    ∧ doc_versionHistory doc' = doc_versionHistory doc
    ∧ doc_owner doc' = doc_owner doc.
Proof.
  intros Hdoc Howner Hemail Hrole Hfind Hself.
  exists (set_sharedWith doc (setShare (doc_sharedWith doc) target role)).
  unfold run.
  rewrite (shareDocument_ok findOne st owner docId email role target doc) by done.
  unfold upd_documents. simpl. rewrite lookup_insert_eq. split_and!; try done.
  - apply getUserRole_setShare_same. congruence.
  - intros u Hu. by apply getUserRole_setShare_other.
Qed.

Lemma share_grants_role_witness :
  ∃ doc',
    (shareDocument (λ _, Some "u3") "u1" "d" (Some "carol@x") (Some "viewer")
       (sampleServer "AC")).1 = Ok 200
    ∧ documents (run (shareDocument (λ _, Some "u3") "u1" "d" (Some "carol@x")
                        (Some "viewer")) (sampleServer "AC")) !! "d" = Some doc'
    ∧ getUserRole doc' "u3" = Some "viewer"
    ∧ (∀ u, u ≠ "u3" → getUserRole doc' u = getUserRole (sampleDocument "AC") u)
    ∧ doc_title doc' = doc_title (sampleDocument "AC")
    ∧ doc_content doc' = doc_content (sampleDocument "AC")
    ∧ doc_version doc' = doc_version (sampleDocument "AC")
    ∧ doc_versionHistory doc' = doc_versionHistory (sampleDocument "AC")
    ∧ doc_owner doc' = doc_owner (sampleDocument "AC").
Proof.
  apply (share_grants_role (λ _, Some "u3") (sampleServer "AC") "u1" "d" "carol@x"
           "viewer" "u3" (sampleDocument "AC")).
  - reflexivity.
  - reflexivity.
  - discriminate.
  - rewrite !elem_of_cons. tauto.
  - reflexivity.
  - discriminate.
Defined.

(** X25. Whatever the request, the share route keeps every stored share
    list well formed: at most one entry per user, none for the owner, and
    only the roles editor, commenter and viewer. *)
Theorem share_keeps_lists_well_formed
  (findOne : string → option string) (st : Server)
  (userId docId : string) (email role : option string) :
  shareListsOk st →
  shareListsOk (run (shareDocument findOne userId docId email role) st).
Proof.
  intros Hok. unfold run.
  destruct (shareDocument_cases findOne userId docId email role st)
    as [[Hst _]|(d & e & r & t & Hd & Howner & _ & _ & _ & Hr & _ & Hself & Hc)].
  - by rewrite Hst.
  - rewrite Hc. simpl. intros id' d'. unfold upd_documents. simpl.
    destruct (decide (id' = docId)) as [->|Hne].
    + rewrite lookup_insert_eq. intros [= <-].
      apply shareListOk_setShare; [by eapply Hok| |done].
      rewrite (shareListOk_owner d userId); [done|by eapply Hok|done].
    + rewrite lookup_insert_ne by done. apply Hok.
Qed.

Lemma share_keeps_lists_well_formed_witness :
  shareListsOk (run (shareDocument (λ _, Some "u2") "u1" "d" (Some "bob@x")
                       (Some "viewer")) (sampleServer "AC")).
Proof.
  apply (share_keeps_lists_well_formed (λ _, Some "u2") (sampleServer "AC")).
  intros id' d Hd. unfold sampleServer in Hd. simpl in Hd.
  apply lookup_singleton_Some in Hd as [_ <-].
  unfold shareListOk. simpl. split_and!.
  - apply NoDup_singleton.
  - by intros [=]%list_elem_of_singleton.
  - constructor; [|constructor]. simpl. rewrite !elem_of_cons. tauto.
Defined.

(** X26. The share route decides by six tests, in this order, and changes
    the store in one case only. No stored document, or a sender who is not
    its owner: the access error is thrown. Email or role missing or empty:
    400. A role other than editor, commenter and viewer: 400. No user with
    that email: 404. The email of the sender: 400. Otherwise 200, and the
    one change is the share list of that document, where the user's entry
    gets the role or a new entry is appended. In every other case the server
    is left exactly as it was. *)
Theorem share_decides
  (findOne : string → option string) (st : Server)
  (userId docId : string) (email role : option string) :
  let c := shareDocument findOne userId docId email role st in
  (documents st !! docId = None → ∃ e, c = (Throw e, st))
  ∧ (∀ doc, documents st !! docId = Some doc →
       (getUserRole doc userId ≠ Some "owner" → ∃ e, c = (Throw e, st))
       ∧ (getUserRole doc userId = Some "owner" →
            (falsy_str email = true ∨ falsy_str role = true → c = (Ok 400, st))
            ∧ (∀ e r, email = Some e → role = Some r → e ≠ "" → r ≠ "" →
                 (r ∉ ["editor"; "commenter"; "viewer"] → c = (Ok 400, st))
                 ∧ (r ∈ ["editor"; "commenter"; "viewer"] →
                      (findOne e = None → c = (Ok 404, st))
                      ∧ (findOne e = Some userId → c = (Ok 400, st))
                      ∧ (∀ target, findOne e = Some target → target ≠ userId →
                           c = (Ok 200,
                                upd_documents
                                  <[docId := mkDocument (doc_title doc) (doc_content doc)
                                               (doc_owner doc)
                                               (setShare (doc_sharedWith doc) target r)
                                               (doc_version doc)
                                               (doc_versionHistory doc)]> st)))))).
Proof.
  intros c. subst c.
  unfold shareDocument, getDocumentWithAccess, findById, gets, throw, save, modify,
    mbind, M_bind, mret, M_ret.
  split.
  - intros ->. by eexists.
  - intros doc ->. split.
    + intros Hrole. destruct (getUserRole doc userId) as [r0|]; simpl; [|by eexists].
      destruct (bool_decide_reflect (r0 = "")) as [->|Hr0ne]; [by eexists|].
      destruct (bool_decide_reflect (r0 = "owner")) as [->|Hno]; [done|].
      simpl. by eexists.
    + intros ->. simpl. split.
      * intros [He|Hr].
        -- by rewrite He.
        -- rewrite Hr. by rewrite orb_true_r.
      * intros e r -> -> He Hr. simpl.
        rewrite (bool_decide_false (e = "")), (bool_decide_false (r = "")) by done.
        simpl. split.
        -- intros Hnin. by rewrite bool_decide_false.
        -- intros Hin. rewrite bool_decide_true by done. simpl. split_and!.
           ++ by intros ->.
           ++ intros ->. by rewrite bool_decide_true.
           ++ intros target -> Hne. by rewrite bool_decide_false.
Qed.

Lemma share_decides_witness :
  shareDocument (λ _, Some "u2") "u2" "d" (Some "bob@x") (Some "owner") (sampleServer "AC")
  = (Throw (Error "Only the document owner can perform this action"), sampleServer "AC")
  ∧ shareDocument (λ _, Some "u2") "u1" "d" (Some "bob@x") (Some "owner") (sampleServer "AC")
    = (Ok 400, sampleServer "AC")
  ∧ shareDocument (λ _, Some "u2") "u1" "d" (Some "bob@x") (Some "viewer") (sampleServer "AC")
    = (Ok 200,
       upd_documents
         <["d" := mkDocument "Notes" "AC" "u1" [mkShare "u2" "viewer"] 1 []]>
         (sampleServer "AC")).
Proof.
  split; [reflexivity|].
  destruct (share_decides (λ _, Some "u2") (sampleServer "AC") "u1" "d"
              (Some "bob@x") (Some "owner")) as [_ H1].
  destruct (H1 (sampleDocument "AC") eq_refl) as [_ H1'].
  destruct (H1' eq_refl) as [_ H1''].
  destruct (H1'' "bob@x" "owner" eq_refl eq_refl) as [H400 _];
    [discriminate|discriminate|].
  destruct (share_decides (λ _, Some "u2") (sampleServer "AC") "u1" "d"
              (Some "bob@x") (Some "viewer")) as [_ H2].
  destruct (H2 (sampleDocument "AC") eq_refl) as [_ H2'].
  destruct (H2' eq_refl) as [_ H2''].
  destruct (H2'' "bob@x" "viewer" eq_refl eq_refl) as [_ H200];
    [discriminate|discriminate|].
  split.
  - apply H400. rewrite !elem_of_cons, elem_of_nil.
    intros [?|[?|[?|[]]]]; discriminate.
  - destruct H200 as (_ & _ & H200).
    + rewrite !elem_of_cons. tauto.
    + apply (H200 "u2"); [reflexivity|discriminate].
Defined.

(** X27. Revocation takes effect on the next operation: once the owner has
    re-shared the document with a user as commenter or viewer, every
    operation this user sends is refused with "Edit permission denied.", and
    the server changes in nothing but this message sent to the user. *)
Theorem downgraded_user_cannot_edit
  (findOne : string → option string) (st : Server) (socket : Socket)
  (owner docId email role : string) (doc : Document)
  (operation : option Operation) (now : Z) :
  documents st !! docId = Some doc →
  doc_owner doc = owner →
  email ≠ "" →
  role = "commenter" ∨ role = "viewer" →
  findOne email = Some (user_id (socket_user socket)) →
  user_id (socket_user socket) ≠ owner →
  let st1 := run (shareDocument findOne owner docId (Some email) (Some role)) st in
  run (on_operation socket docId operation now) st1
  = refused socket "Edit permission denied." st1.
Proof.
  intros Hdoc Howner Hemail Hrole Hfind Hself st1.
  assert (role ∈ ["editor"; "commenter"; "viewer"]) as Hin.
  { rewrite !elem_of_cons. tauto. }
  assert (role ∉ EDIT_ROLES) as Hnot.
  { unfold EDIT_ROLES. rewrite !elem_of_cons, elem_of_nil.
    destruct Hrole as [-> | ->]; intros [?|[?|[]]]; discriminate. }
  assert (documents st1 !! docId
          = Some (set_sharedWith doc
                    (setShare (doc_sharedWith doc) (user_id (socket_user socket)) role)))
    as Hdoc1.
  { subst st1. unfold run.
    rewrite (shareDocument_ok findOne st owner docId email role _ doc) by done.
    unfold upd_documents. simpl. by rewrite lookup_insert_eq. }
  unfold run, on_operation, tryCatch, findById, gets, emit, modify, refused,
    mbind, M_bind.
  rewrite Hdoc1. simpl. unfold canEdit.
  rewrite getUserRole_setShare_same by congruence.
  by rewrite bool_decide_false.
Qed.

Lemma downgraded_user_cannot_edit_witness :
  let st1 := run (shareDocument (λ _, Some "u2") "u1" "d" (Some "bob@x") (Some "viewer"))
               (sampleServer "AC") in
  run (on_operation bob "d" (Some (insertOp 0 "B" 1)) 100) st1
  = refused bob "Edit permission denied." st1.
Proof.
  apply (downgraded_user_cannot_edit (λ _, Some "u2") (sampleServer "AC") bob
           "u1" "d" "bob@x" "viewer" (sampleDocument "AC")).
  - reflexivity.
  - reflexivity.
  - discriminate.
  - by right.
  - reflexivity.
  - discriminate.
Defined.

(** ** Concurrent operations: where the two orders meet *)

Lemma applyOperation_delete_inside c op p l :
  op_type op = "delete" → op_position op = Some p → op_length op = Some l →
  0 ≤ p → 0 ≤ l → p + l ≤ strlen c →
  chars (applyOperation c op)
  = take (Z.to_nat p) (chars c) ++ drop (Z.to_nat (p + l)) (chars c).
Proof.
  intros Hty Hp Hl Hp0 Hl0 Hle.
  rewrite (applyOperation_delete_chars c op p l) by done. cbv zeta.
  replace (clamp (strlen c) p) with p by (unfold clamp; lia).
  by replace (Z.min (p + l) (strlen c)) with (p + l) by lia.
Qed.

Lemma applyOperation_noop c op : op_type op = "noop" → applyOperation c op = c.
Proof. intros H. unfold applyOperation. by rewrite H. Qed.

Lemma take_none {A} (l : list A) n : n = 0%nat → take n l = [].
Proof. by intros ->. Qed.

Lemma drop_none {A} (l : list A) n : n = 0%nat → drop n l = l.
Proof. by intros ->. Qed.

Lemma segments {A} (cs : list A) (a b c d : nat) :
  (a + b + c + d ≤ length cs)%nat →
  ∃ x y z u w, cs = x ++ y ++ z ++ u ++ w
    ∧ length x = a ∧ length y = b ∧ length z = c ∧ length u = d.
Proof.
  intros Hle.
  exists (take a cs), (take b (drop a cs)), (take c (drop (a + b) cs)),
    (take d (drop (a + b + c) cs)), (drop (a + b + c + d) cs).
  split_and!.
  - rewrite <- (take_drop a cs) at 1. f_equal.
    rewrite <- (take_drop b (drop a cs)) at 1. f_equal. rewrite drop_drop.
    rewrite <- (take_drop c (drop (a + b) cs)) at 1. f_equal. rewrite drop_drop.
    rewrite <- (take_drop d (drop (a + b + c) cs)) at 1. f_equal. by rewrite drop_drop.
  - rewrite length_take. lia.
  - rewrite length_take, length_drop. lia.
  - rewrite length_take, length_drop. lia.
  - rewrite length_take, length_drop. lia.
Qed.

(** Cuts a concatenation of segments of known length at a segment border,
    innermost cut first. *)
Ltac pure_list L :=
  lazymatch L with
  | context [take _ _] => fail
  | context [drop _ _] => fail
  | _ => idtac
  end.

Ltac cut_step :=
  match goal with
  | |- context [take ?n ?l] =>
      is_var l; first [rewrite (take_ge l n) by lia | rewrite (take_none l n) by lia]
  | |- context [drop ?n ?l] =>
      is_var l; first [rewrite (drop_ge l n) by lia | rewrite (drop_none l n) by lia]
  | |- context [take ?n []] => rewrite (take_nil n)
  | |- context [drop ?n []] => rewrite (drop_nil n)
  | |- context [take ?n (?l ++ ?k)] =>
      pure_list (l ++ k); rewrite (take_app l k n); rewrite ?length_app; cbn [length]
  | |- context [drop ?n (?l ++ ?k)] =>
      pure_list (l ++ k); rewrite (drop_app l k n); rewrite ?length_app; cbn [length]
  end.

Ltac cut_segments :=
  repeat cut_step; rewrite ?app_nil_l, ?app_nil_r, <- ?app_assoc;
  rewrite ?app_nil_l, ?app_nil_r.

(** X28. An insert and a delete made on the same content commute under the
    transformation when the insert lies outside the deleted range, at or
    before its start or at or after its end: applying the delete and then
    the transformed insert gives the same content as applying the insert and
    then the transformed delete. *)
Theorem transform_insert_delete_converge
  (c : string) (a b : Operation) (pa pb lb : Z) (ta : string) :
  op_type a = "insert" → op_type b = "delete" →
  op_position a = Some pa → op_text a = Some ta →
  op_position b = Some pb → op_length b = Some lb →
  0 ≤ pa ≤ strlen c → 0 ≤ pb → 1 ≤ lb → pb + lb ≤ strlen c →
  pa ≤ pb ∨ pb + lb ≤ pa →
  ∃ a' b',
    transformOperation a b = Ok a' ∧ transformOperation b a = Ok b'
    ∧ applyOperation (applyOperation c b) a' = applyOperation (applyOperation c a) b'.
Proof.
  intros Ha Hb Hpa Hta Hpb Hlb Hra Hpb0 Hlb1 Hrb Hout.
  rewrite (transform_insert_delete a b), (transform_delete_insert b a) by done.
  rewrite Hpa, Hpb, Hlb, nleb_Some, nltb_Some. unfold text_length. rewrite Hta.
  cbn [mbind result_bind nadd nsub nmin lift2].
  pose proof (strlen_nonneg ta) as Hta0.
  pose proof (strlen_applyOperation_insert c a ta Ha Hta) as Hla.
  assert (strlen (applyOperation c b) = strlen c - lb) as Hlb'.
  { rewrite !strlen_chars.
    rewrite (applyOperation_delete_inside c b pb lb) by (done || lia).
    rewrite length_app, length_take, length_drop. rewrite strlen_chars in *. lia. }
  set (tas := chars ta) in *.
  assert (length tas = Z.to_nat (strlen ta)) as Htas by (by rewrite to_nat_strlen).
  assert (length (chars c) = Z.to_nat (strlen c)) as Hcs by (by rewrite to_nat_strlen).
  destruct Hout as [Hout|Hout].
  - (* the insert is at or before the start of the delete *)
    destruct (Z.ltb_spec pb pa); [lia|]. destruct (Z.leb_spec pa pb); [|lia].
    cbn [mbind result_bind]. eexists _, _. split; [reflexivity|]. split; [reflexivity|].
    apply chars_inj.
    rewrite (applyOperation_insert_inside (applyOperation c b) a pa ta) by (done || lia).
    rewrite (applyOperation_delete_inside (applyOperation c a)
               (set_position b (Some (pb + strlen ta))) (pb + strlen ta) lb)
      by (done || lia).
    rewrite (applyOperation_delete_inside c b pb lb) by (done || lia).
    rewrite (applyOperation_insert_inside c a pa ta) by (done || lia).
    fold tas.
    destruct (segments (chars c) (Z.to_nat pa) (Z.to_nat (pb - pa)) (Z.to_nat lb) 0)
      as (x & y & z & u & w & Hc & Hx & Hy & Hz & Hu); [lia|].
    rewrite Hc in *. rewrite !length_app in Hcs.
    cut_segments. reflexivity.
  - (* the insert is at or after the end of the delete *)
    destruct (Z.ltb_spec pb pa); [|lia]. destruct (Z.leb_spec pa pb); [lia|].
    eexists _, _. split; [reflexivity|]. split; [reflexivity|].
    replace (pa - Z.min lb (pa - pb)) with (pa - lb) by lia.
    apply chars_inj.
    rewrite (applyOperation_insert_inside (applyOperation c b)
               (set_position a (Some (pa - lb))) (pa - lb) ta) by (done || lia).
    rewrite (applyOperation_delete_inside (applyOperation c a) b pb lb) by (done || lia).
    rewrite (applyOperation_delete_inside c b pb lb) by (done || lia).
    rewrite (applyOperation_insert_inside c a pa ta) by (done || lia).
    fold tas.
    destruct (segments (chars c) (Z.to_nat pb) (Z.to_nat lb) (Z.to_nat (pa - pb - lb)) 0)
      as (x & y & z & u & w & Hc & Hx & Hy & Hz & Hu); [lia|].
    rewrite Hc in *. rewrite !length_app in Hcs.
    cut_segments. reflexivity.
Qed.

Lemma transform_insert_delete_converge_witness :
  ∃ a' b',
    transformOperation (insertOp 1 "x" 1) (deleteOp 2 2 1) = Ok a'
    ∧ transformOperation (deleteOp 2 2 1) (insertOp 1 "x" 1) = Ok b'
    ∧ applyOperation (applyOperation "ABCDE" (deleteOp 2 2 1)) a'
      = applyOperation (applyOperation "ABCDE" (insertOp 1 "x" 1)) b'.
Proof.
  apply (transform_insert_delete_converge "ABCDE" (insertOp 1 "x" 1) (deleteOp 2 2 1)
           1 2 2 "x" eq_refl eq_refl eq_refl eq_refl eq_refl eq_refl).
  - vm_compute. split; discriminate.
  - lia.
  - lia.
  - vm_compute. discriminate.
  - left. lia.
Defined.

(** X29. Two deletes made on the same content, each inside it and of length
    at least 1, commute under the transformation, whether their ranges are
    apart, overlap or one covers the other: applying [b] and then [a]
    transformed against [b] gives the same content as applying [a] and then
    [b] transformed against [a]. *)
Theorem transform_deletes_converge
  (c : string) (a b : Operation) (pa la pb lb : Z) :
  op_type a = "delete" → op_type b = "delete" →
  op_position a = Some pa → op_length a = Some la →
  op_position b = Some pb → op_length b = Some lb →
  0 ≤ pa → 1 ≤ la → pa + la ≤ strlen c →
  0 ≤ pb → 1 ≤ lb → pb + lb ≤ strlen c →
  ∃ a' b',
    transformOperation a b = Ok a' ∧ transformOperation b a = Ok b'
    ∧ applyOperation (applyOperation c b) a' = applyOperation (applyOperation c a) b'.
Proof.
  intros Ha Hb Hpa Hla Hpb Hlb Hpa0 Hla1 Hra Hpb0 Hlb1 Hrb.
  rewrite (transform_delete_delete a b), (transform_delete_delete b a) by done.
  rewrite Hpa, Hla, Hpb, Hlb. cbn [nadd nsub nmin nmax lift2].
  unfold ngeb, nleb, cmp2.
  eexists _, _. split; [reflexivity|]. split; [reflexivity|].
  assert (strlen (applyOperation c a) = strlen c - la) as Hca.
  { rewrite !strlen_chars.
    rewrite (applyOperation_delete_inside c a pa la) by (done || lia).
    rewrite length_app, length_take, length_drop. rewrite strlen_chars in *. lia. }
  assert (strlen (applyOperation c b) = strlen c - lb) as Hcb.
  { rewrite !strlen_chars.
    rewrite (applyOperation_delete_inside c b pb lb) by (done || lia).
    rewrite length_app, length_take, length_drop. rewrite strlen_chars in *. lia. }
  assert (length (chars c) = Z.to_nat (strlen c)) as Hcs by (by rewrite to_nat_strlen).
  apply chars_inj.
  destruct (Z.geb_spec pb (pa + la)) as [H1|H1].
  { destruct (Z.geb_spec pa (pb + lb)) as [H2|H2]; [lia|].
    destruct (Z.leb_spec (pa + la) pb) as [H3|H3]; [|lia].
    rewrite (applyOperation_delete_inside (applyOperation c b) a pa la) by (done || lia).
    rewrite (applyOperation_delete_inside (applyOperation c a)
               (set_position b (Some (pb - la))) (pb - la) lb) by (done || lia).
    rewrite (applyOperation_delete_inside c b pb lb) by (done || lia).
    rewrite (applyOperation_delete_inside c a pa la) by (done || lia).
    destruct (segments (chars c) (Z.to_nat pa) (Z.to_nat la) (Z.to_nat (pb - pa - la))
                (Z.to_nat lb))
      as (x & y & z & u & w & Hc & Hx & Hy & Hz & Hu); [lia|].
    rewrite Hc in *. rewrite !length_app in Hcs.
    cut_segments. reflexivity. }
  destruct (Z.leb_spec (pb + lb) pa) as [H2|H2].
  { destruct (Z.geb_spec pa (pb + lb)) as [H3|H3]; [|lia].
    rewrite (applyOperation_delete_inside (applyOperation c b)
               (set_position a (Some (pa - lb))) (pa - lb) la) by (done || lia).
    rewrite (applyOperation_delete_inside (applyOperation c a) b pb lb) by (done || lia).
    rewrite (applyOperation_delete_inside c b pb lb) by (done || lia).
    rewrite (applyOperation_delete_inside c a pa la) by (done || lia).
    destruct (segments (chars c) (Z.to_nat pb) (Z.to_nat lb) (Z.to_nat (pa - pb - lb))
                (Z.to_nat la))
      as (x & y & z & u & w & Hc & Hx & Hy & Hz & Hu); [lia|].
    rewrite Hc in *. rewrite !length_app in Hcs.
    cut_segments. reflexivity. }
  destruct (Z.geb_spec pa (pb + lb)) as [H3|H3]; [lia|].
  destruct (Z.leb_spec (pa + la) pb) as [H4|H4]; [lia|].
  cbv zeta. cbn [set_position set_length op_length].
  replace (Z.min (pb + lb) (pa + la)) with (Z.min (pa + la) (pb + lb)) by lia.
  replace (Z.max pb pa) with (Z.max pa pb) by lia.
  replace (Z.min pb pa) with (Z.min pa pb) by lia.
  destruct (Z.le_gt_cases pa pb) as [Hs|Hs], (Z.le_gt_cases (pa + la) (pb + lb)) as [He|He].
  all: rewrite ?(Z.min_l pa pb), ?(Z.max_r pa pb), ?(Z.min_r pa pb), ?(Z.max_l pa pb),
         ?(Z.min_l (pa + la) (pb + lb)), ?(Z.min_r (pa + la) (pb + lb)) by lia.
  all: match goal with
       | |- context [Z.max 0 ?d] => replace (Z.max 0 d) with d by lia
       end.
  - (* [a] starts first and ends first *)
    destruct (Z.leb_spec (la - (pa + la - pb)) 0) as [H5|H5],
             (Z.leb_spec (lb - (pa + la - pb)) 0) as [H6|H6];
      rewrite ?(applyOperation_noop _ (set_type _ "noop")) by done.
    all: rewrite ?(applyOperation_delete_inside (applyOperation c a) _ pa (lb - (pa + la - pb)))
           by (simpl; done || lia).
    all: rewrite ?(applyOperation_delete_inside (applyOperation c b) _ pa (la - (pa + la - pb)))
           by (simpl; done || lia).
    all: rewrite (applyOperation_delete_inside c b pb lb) by (done || lia).
    all: rewrite (applyOperation_delete_inside c a pa la) by (done || lia).
    all: destruct (segments (chars c) (Z.to_nat pa) (Z.to_nat (pb - pa))
                     (Z.to_nat (pa + la - pb)) (Z.to_nat (pb + lb - (pa + la))))
           as (x & y & z & u & w & Hc & Hx & Hy & Hz & Hu); [lia|].
    all: rewrite Hc in *; rewrite !length_app in Hcs.
    all: cut_segments; reflexivity.
  - (* [b] lies inside [a] *)
    destruct (Z.leb_spec (la - (pb + lb - pb)) 0) as [H5|H5],
             (Z.leb_spec (lb - (pb + lb - pb)) 0) as [H6|H6];
      rewrite ?(applyOperation_noop _ (set_type _ "noop")) by done.
    all: rewrite ?(applyOperation_delete_inside (applyOperation c a) _ pa (lb - (pb + lb - pb)))
           by (simpl; done || lia).
    all: rewrite ?(applyOperation_delete_inside (applyOperation c b) _ pa (la - (pb + lb - pb)))
           by (simpl; done || lia).
    all: rewrite (applyOperation_delete_inside c b pb lb) by (done || lia).
    all: rewrite (applyOperation_delete_inside c a pa la) by (done || lia).
    all: destruct (segments (chars c) (Z.to_nat pa) (Z.to_nat (pb - pa))
                     (Z.to_nat lb) (Z.to_nat (pa + la - (pb + lb))))
           as (x & y & z & u & w & Hc & Hx & Hy & Hz & Hu); [lia|].
    all: rewrite Hc in *; rewrite !length_app in Hcs.
    all: cut_segments; reflexivity.
  - (* [a] lies inside [b] *)
    destruct (Z.leb_spec (la - (pa + la - pa)) 0) as [H5|H5],
             (Z.leb_spec (lb - (pa + la - pa)) 0) as [H6|H6];
      rewrite ?(applyOperation_noop _ (set_type _ "noop")) by done.
    all: rewrite ?(applyOperation_delete_inside (applyOperation c a) _ pb (lb - (pa + la - pa)))
           by (simpl; done || lia).
    all: rewrite ?(applyOperation_delete_inside (applyOperation c b) _ pb (la - (pa + la - pa)))
           by (simpl; done || lia).
    all: rewrite (applyOperation_delete_inside c b pb lb) by (done || lia).
    all: rewrite (applyOperation_delete_inside c a pa la) by (done || lia).
    all: destruct (segments (chars c) (Z.to_nat pb) (Z.to_nat (pa - pb))
                     (Z.to_nat la) (Z.to_nat (pb + lb - (pa + la))))
           as (x & y & z & u & w & Hc & Hx & Hy & Hz & Hu); [lia|].
    all: rewrite Hc in *; rewrite !length_app in Hcs.
    all: cut_segments; reflexivity.
  - (* [b] starts first and ends first *)
    destruct (Z.leb_spec (la - (pb + lb - pa)) 0) as [H5|H5],
             (Z.leb_spec (lb - (pb + lb - pa)) 0) as [H6|H6];
      rewrite ?(applyOperation_noop _ (set_type _ "noop")) by done.
    all: rewrite ?(applyOperation_delete_inside (applyOperation c a) _ pb (lb - (pb + lb - pa)))
           by (simpl; done || lia).
    all: rewrite ?(applyOperation_delete_inside (applyOperation c b) _ pb (la - (pb + lb - pa)))
           by (simpl; done || lia).
    all: rewrite (applyOperation_delete_inside c b pb lb) by (done || lia).
    all: rewrite (applyOperation_delete_inside c a pa la) by (done || lia).
    all: destruct (segments (chars c) (Z.to_nat pb) (Z.to_nat (pa - pb))
                     (Z.to_nat (pb + lb - pa)) (Z.to_nat (pa + la - (pb + lb))))
           as (x & y & z & u & w & Hc & Hx & Hy & Hz & Hu); [lia|].
    all: rewrite Hc in *; rewrite !length_app in Hcs.
    all: cut_segments; reflexivity.
Qed.

Lemma transform_deletes_converge_witness :
  ∃ a' b',
    transformOperation (deleteOp 1 3 1) (deleteOp 2 3 1) = Ok a'
    ∧ transformOperation (deleteOp 2 3 1) (deleteOp 1 3 1) = Ok b'
    ∧ applyOperation (applyOperation "ABCDEF" (deleteOp 2 3 1)) a'
      = applyOperation (applyOperation "ABCDEF" (deleteOp 1 3 1)) b'.
Proof.
  apply (transform_deletes_converge "ABCDEF" (deleteOp 1 3 1) (deleteOp 2 3 1) 1 3 2 3
           eq_refl eq_refl eq_refl eq_refl eq_refl eq_refl).
  - lia.
  - lia.
  - vm_compute. discriminate.
  - lia.
  - lia.
  - vm_compute. discriminate.
Defined.

Lemma strlen_pos s : s ≠ "" → 0 < strlen s.
Proof. destruct s; [done|]. intros _. unfold strlen. simpl. lia. Qed.

Lemma insert_inside_delete_results
  (x y z w t1 t2 : string) (a b : Operation) :
  op_type a = "insert" → op_position a = Some (strlen x + strlen y) →
  op_text a = Some (t1 +:+ t2) →
  op_type b = "delete" → op_position b = Some (strlen x) →
  op_length b = Some (strlen y + strlen z) →
  y ≠ "" → z ≠ "" → strlen t1 = strlen z →
  ∃ a' b',
    transformOperation a b = Ok a' ∧ transformOperation b a = Ok b'
    ∧ applyOperation (applyOperation (x +:+ y +:+ z +:+ w) b) a'
      = x +:+ t1 +:+ t2 +:+ w
    ∧ applyOperation (applyOperation (x +:+ y +:+ z +:+ w) a) b'
      = x +:+ t2 +:+ z +:+ w.
Proof.
  intros Ha Hpa Hta Hb Hpb Hlb Hy Hz Ht1.
  apply strlen_pos in Hy, Hz.
  pose proof (strlen_nonneg x) as Hx0. pose proof (strlen_nonneg w) as Hw0.
  pose proof (strlen_nonneg t2) as Ht20.
  rewrite (transform_insert_delete a b), (transform_delete_insert b a) by done.
  rewrite Hpa, Hpb, Hlb, nleb_Some, nltb_Some.
  cbn [mbind result_bind nadd nsub nmin lift2].
  destruct (Z.ltb_spec (strlen x) (strlen x + strlen y)); [|lia].
  destruct (Z.leb_spec (strlen x + strlen y) (strlen x)); [lia|].
  replace (strlen x + strlen y - Z.min (strlen y + strlen z) (strlen x + strlen y - strlen x))
    with (strlen x) by lia.
  eexists _, _. split; [reflexivity|]. split; [reflexivity|].
  set (c := x +:+ y +:+ z +:+ w).
  assert (strlen c = strlen x + strlen y + strlen z + strlen w) as Hc
    by (unfold c; rewrite !strlen_append; lia).
  assert (strlen (applyOperation c a) = strlen c + strlen (t1 +:+ t2)) as Hca
    by (by apply strlen_applyOperation_insert).
  assert (strlen (applyOperation c b) = strlen c - (strlen y + strlen z)) as Hcb.
  { rewrite (strlen_chars (applyOperation c b)).
    rewrite (applyOperation_delete_inside c b (strlen x) (strlen y + strlen z))
      by (done || lia).
    rewrite length_app, length_take, length_drop.
    pose proof (to_nat_strlen c). lia. }
  rewrite strlen_append in Hca.
  split; apply chars_inj.
  - rewrite (applyOperation_insert_inside (applyOperation c b) _ (strlen x) (t1 +:+ t2))
      by (done || lia).
    rewrite (applyOperation_delete_inside c b (strlen x) (strlen y + strlen z))
      by (done || lia).
    unfold c. rewrite !chars_append.
    rewrite !strlen_chars in *.
    set (xs := chars x) in *. set (ys := chars y) in *. set (zs := chars z) in *.
    set (ws := chars w) in *. set (t1s := chars t1) in *. set (t2s := chars t2) in *.
    cut_segments. reflexivity.
  - rewrite (applyOperation_delete_inside (applyOperation c a) b (strlen x)
               (strlen y + strlen z)) by (done || lia).
    rewrite (applyOperation_insert_inside c a (strlen x + strlen y) (t1 +:+ t2))
      by (done || lia).
    unfold c. rewrite !chars_append.
    rewrite !strlen_chars in *.
    set (xs := chars x) in *. set (ys := chars y) in *. set (zs := chars z) in *.
    set (ws := chars w) in *. set (t1s := chars t1) in *. set (t2s := chars t2) in *.
    cut_segments. reflexivity.
Qed.

Lemma append_cancel (x w s1 s2 : string) :
  x +:+ s1 +:+ w = x +:+ s2 +:+ w ↔ s1 = s2.
Proof.
  split; [|by intros ->].
  intros H. apply (f_equal chars) in H. rewrite !chars_append in H.
  apply app_inv_head, app_inv_tail in H. by apply chars_inj.
Qed.

(** X30. An insert that falls strictly inside a concurrently deleted range
    commutes with the delete only by coincidence. On the content [x y z w],
    with the delete of [y z] and the insert of [t1 t2] between [y] and [z],
    where [t1] is as long as [z]: the transformed insert moves to the start
    of the range, so the delete followed by it gives [x t1 t2 w]; the
    transformed delete is the delete unchanged, so the insert followed by it
    removes [y] and [t1] and gives [x t2 z w], where [z] survives. The two
    orders give the same content exactly when [t1 t2] and [t2 z] are the
    same string. *)
Theorem transform_insert_inside_delete
  (x y z w t1 t2 : string) (a b : Operation) :
  op_type a = "insert" → op_position a = Some (strlen x + strlen y) →
  op_text a = Some (t1 +:+ t2) →
  op_type b = "delete" → op_position b = Some (strlen x) →
  op_length b = Some (strlen y + strlen z) →
  y ≠ "" → z ≠ "" → strlen t1 = strlen z →
  ∃ a' b',
    transformOperation a b = Ok a' ∧ transformOperation b a = Ok b'
    ∧ applyOperation (applyOperation (x +:+ y +:+ z +:+ w) b) a'
      = x +:+ t1 +:+ t2 +:+ w
    ∧ applyOperation (applyOperation (x +:+ y +:+ z +:+ w) a) b'
      = x +:+ t2 +:+ z +:+ w
    ∧ (applyOperation (applyOperation (x +:+ y +:+ z +:+ w) b) a'
       = applyOperation (applyOperation (x +:+ y +:+ z +:+ w) a) b'
       ↔ t1 +:+ t2 = t2 +:+ z).
Proof.
  intros Ha Hpa Hta Hb Hpb Hlb Hy Hz Ht1.
  destruct (insert_inside_delete_results x y z w t1 t2 a b)
    as (a' & b' & Ha' & Hb' & Hba & Hab); try done.
  exists a', b'. split; [done|]. split; [done|]. split; [done|]. split; [done|].
  rewrite Hba, Hab.
  replace (x +:+ t1 +:+ t2 +:+ w) with (x +:+ (t1 +:+ t2) +:+ w).
  2:{ apply chars_inj. by rewrite !chars_append, <- !app_assoc. }
  replace (x +:+ t2 +:+ z +:+ w) with (x +:+ (t2 +:+ z) +:+ w).
  2:{ apply chars_inj. by rewrite !chars_append, <- !app_assoc. }
  apply append_cancel.
Qed.

Lemma transform_insert_inside_delete_witness :
  ∃ a' b',
    transformOperation (insertOp 2 "x" 1) (deleteOp 1 2 1) = Ok a'
    ∧ transformOperation (deleteOp 1 2 1) (insertOp 2 "x" 1) = Ok b'
    ∧ applyOperation (applyOperation "ABCDE" (deleteOp 1 2 1)) a' = "AxDE"
    ∧ applyOperation (applyOperation "ABCDE" (insertOp 2 "x" 1)) b' = "ACDE"
    ∧ applyOperation (applyOperation "ABCDE" (deleteOp 1 2 1)) a'
      ≠ applyOperation (applyOperation "ABCDE" (insertOp 2 "x" 1)) b'.
Proof.
  destruct (transform_insert_inside_delete "A" "B" "C" "DE" "x" "" (insertOp 2 "x" 1)
              (deleteOp 1 2 1) eq_refl eq_refl eq_refl eq_refl eq_refl eq_refl)
    as (a' & b' & Ha' & Hb' & Hba & Hab & Hiff).
  - discriminate.
  - discriminate.
  - reflexivity.
  - exists a', b'. split; [exact Ha'|]. split; [exact Hb'|].
    split; [exact Hba|]. split; [exact Hab|].
    intros Heq. apply Hiff in Heq. discriminate Heq.
Defined.
